(** * Host-side bridge layer of the goldfish/ranchu boards

    A shallow embedding of

    - [hw/misc/android_net_pipe.c]: the 'tcp' and 'unix' Android pipes
      (module [NetPipe]),
    - [hw/char/goldfish_tty.c] with [hw/misc/vmem.c]: the goldfish tty
      device (module [GoldfishTty]),
    - [hw/misc/goldfish_battery.c]: the battery device
      (module [GoldfishBattery]),
    - [hw/mips/mips_ranchu.c]: the ranchu board (module [Ranchu]),
    - [hw/misc/android_opengles.c]: the OpenGLES backend
      (module [AndroidGles]), and
    - [hw/arm/lionhead.c]: the lionhead board (module [Lionhead]),

    together with the properties of the bridge specification that are
    decided by the first two, and further properties of all six. *)

From Stdlib Require Import ZArith List Bool String Ascii Lia.
From Stdlib Require HexString DecimalString.
From coqutil Require Import Byte Word.LittleEndianList Z.bitblast.
Import ListNotations.
Local Open Scope Z_scope.

(** ** C integers

    [int] is a 32-bit two's complement integer.  Every arithmetic result
    stored into an [int] goes through [to_int]; [uint32_t] and [uint64_t]
    values go through [to_uint32] and [to_uint64], and so does an [int]
    that is converted to [size_t] (64 bits on the hosts at hand). *)

Definition INT_MAX : Z := 2 ^ 31 - 1.
Definition INT_MIN : Z := - 2 ^ 31.

Definition to_int (z : Z) : Z := (z + 2 ^ 31) mod 2 ^ 32 - 2 ^ 31.
Definition to_uint32 (z : Z) : Z := z mod 2 ^ 32.
Definition to_uint64 (z : Z) : Z := z mod 2 ^ 64.

Lemma to_int_small (z : Z) : INT_MIN <= z <= INT_MAX -> to_int z = z.
Proof.
  unfold to_int, INT_MIN, INT_MAX. intros H.
  rewrite Z.mod_small; lia.
Qed.

Lemma to_int_range (z : Z) : INT_MIN <= to_int z <= INT_MAX.
Proof.
  unfold to_int, INT_MIN, INT_MAX.
  pose proof (Z.mod_pos_bound (z + 2 ^ 31) (2 ^ 32) ltac:(lia)). lia.
Qed.

Lemma to_uint32_small (z : Z) : 0 <= z < 2 ^ 32 -> to_uint32 z = z.
Proof. intros H. unfold to_uint32. apply Z.mod_small. exact H. Qed.

Lemma to_uint64_small (z : Z) : 0 <= z < 2 ^ 64 -> to_uint64 z = z.
Proof. intros H. unfold to_uint64. apply Z.mod_small. exact H. Qed.

(** ** Bit masks

    The wake masks are combined with [|], [&] and [~]; the facts below are
    the ones the wake protocol relies on. *)

Lemma land_lor_same (a m : Z) : Z.land (Z.lor a m) m = m.
Proof.
  apply Z.bits_inj'. intros n Hn.
  rewrite Z.land_spec, Z.lor_spec.
  destruct (Z.testbit a n), (Z.testbit m n); reflexivity.
Qed.

Lemma land_clear_same (a m : Z) : Z.land (Z.land a (Z.lnot m)) m = 0.
Proof.
  apply Z.bits_inj'. intros n Hn.
  rewrite !Z.land_spec, Z.lnot_spec, Z.bits_0 by exact Hn.
  destruct (Z.testbit a n), (Z.testbit m n); reflexivity.
Qed.

Lemma land_clear_other (a m k : Z) :
  Z.land a k = 0 -> Z.land (Z.land a (Z.lnot m)) k = 0.
Proof.
  intros H. apply Z.bits_inj'. intros n Hn.
  assert (Hb : Z.testbit (Z.land a k) n = false) by (rewrite H; apply Z.bits_0).
  rewrite Z.land_spec in Hb.
  rewrite !Z.land_spec, Z.lnot_spec, Z.bits_0 by exact Hn.
  destruct (Z.testbit a n), (Z.testbit m n), (Z.testbit k n);
    simpl in *; congruence.
Qed.

Lemma land_lor_other (a f k : Z) :
  Z.land f k = 0 -> Z.land (Z.lor a f) k = Z.land a k.
Proof.
  intros H. rewrite Z.land_lor_distr_l, H. apply Z.lor_0_r.
Qed.

(** * The 'tcp' and 'unix' Android pipes ([hw/misc/android_net_pipe.c]) *)

Module NetPipe.

(** The connection states, in the order of the source's [enum]. *)
Inductive pipe_state : Set :=
| STATE_INIT
| STATE_CONNECTING
| STATE_CONNECTED
| STATE_CLOSING_GUEST
| STATE_CLOSING_SOCKET.

Definition pipe_state_eqb (a b : pipe_state) : bool :=
  match a, b with
  | STATE_INIT, STATE_INIT
  | STATE_CONNECTING, STATE_CONNECTING
  | STATE_CONNECTED, STATE_CONNECTED
  | STATE_CLOSING_GUEST, STATE_CLOSING_GUEST
  | STATE_CLOSING_SOCKET, STATE_CLOSING_SOCKET => true
  | _, _ => false
  end.

(** [struct NetPipe].  [hwpipe] is the back pointer to the guest-visible
    pipe object, [None] for [NULL]; the object itself is identified by a
    number. *)
Record NetPipe : Set := mkNetPipe {
  hwpipe : option Z;
  state : pipe_state;
  wakeWanted : Z;
  wakeActual : Z;
  fd : Z
}.

Definition set_hwpipe (pipe : NetPipe) (h : option Z) : NetPipe :=
  mkNetPipe h (state pipe) (wakeWanted pipe) (wakeActual pipe) (fd pipe).
Definition set_state (pipe : NetPipe) (st : pipe_state) : NetPipe :=
  mkNetPipe (hwpipe pipe) st (wakeWanted pipe) (wakeActual pipe) (fd pipe).
Definition set_wakeWanted (pipe : NetPipe) (w : Z) : NetPipe :=
  mkNetPipe (hwpipe pipe) (state pipe) w (wakeActual pipe) (fd pipe).
Definition set_wakeActual (pipe : NetPipe) (w : Z) : NetPipe :=
  mkNetPipe (hwpipe pipe) (state pipe) (wakeWanted pipe) w (fd pipe).
Definition set_fd (pipe : NetPipe) (f : Z) : NetPipe :=
  mkNetPipe (hwpipe pipe) (state pipe) (wakeWanted pipe) (wakeActual pipe) f.

(** The two reactor callbacks of this file, as passed to
    [qemu_set_fd_handler]: [io_read_handler] stands for the address of
    [net_pipe_read_handler], [io_write_handler] for that of
    [net_pipe_write_handler]; [None] is a [NULL] handler. *)
Inductive IOHandler : Set := io_read_handler | io_write_handler.

(** What the file does to its collaborators (the reactor, the guest pipe
    dispatcher, the socket layer), in program order.  Debug traces and
    the allocator are left out; a released connection is [None]. *)
Inductive call : Set :=
| qemu_set_fd_handler (fdv : Z) (fd_read fd_write : option IOHandler)
| android_pipe_wake (hw : option Z) (flags : Z)
| android_pipe_close (hw : Z)
| closesocket (fdv : Z)
| unix_nonblocking_connect (path : string)
| inet_nonblocking_connect (address : string).

(** One element of the guest's scatter/gather list: [data] is the address
    of the segment and [size] (a [size_t]) its length. *)
Record AndroidPipeBuffer : Set := mkBuffer { data : Z; size : Z }.

(** The outcome of one [send] or [recv] system call: the returned
    [ssize_t], and [errno] as far as the source looks at it. *)
Inductive errno_t : Set := EAGAIN | EWOULDBLOCK | EOTHER.
Record sysres : Set := mkRes { len : Z; err : errno_t }.

(** Bytes moved by the successful transfers of a system call trace. *)
Fixpoint moved (t : list sysres) : Z :=
  match t with
  | [] => 0
  | r :: t' => (if len r >? 0 then len r else 0) + moved t'
  end.

(** The last system call of the trace reported end of stream. *)
Definition ends_with_eof (t : list sysres) : bool :=
  match rev t with
  | r :: _ => len r =? 0
  | [] => false
  end.

(** The last system call of the trace failed with a would-block error. *)
Definition ends_with_wouldblock (t : list sysres) : bool :=
  match rev t with
  | r :: _ =>
      (len r <? 0) && match err r with EAGAIN | EWOULDBLOCK => true | EOTHER => false end
  | [] => false
  end.

(** A socket for running the model: the answers the kernel is going to
    give, one per call, never more than what was asked for; an exhausted
    script would block. *)
Definition script : Set := list sysres.

Definition script_io (sk : script) (fdv ptr n : Z) : sysres * script :=
  match sk with
  | [] => (mkRes (-1) EAGAIN, [])
  | r :: sk' => (mkRes (Z.min (len r) n) (err r), sk')
  end.

(** The events of a connection's life after its creation: the guest's
    [wake_on], the reactor's read-ready, write-ready and connect-completion
    callbacks, and the guest's close. *)
Inductive op : Set :=
| OpWakeOn (flags : Z)
| OpReadReady
| OpWriteReady
| OpConnectDone (fdv : Z)
| OpCloseFromGuest.

Definition is_wake (c : call) : bool :=
  match c with android_pipe_wake _ _ => true | _ => false end.
Definition is_close (c : call) : bool :=
  match c with android_pipe_close _ => true | _ => false end.

(** Number of wake notifications, resp. force-close notifications, among
    some calls. *)
Definition wakes (cs : list call) : nat := List.length (filter is_wake cs).
Definition closes (cs : list call) : nat := List.length (filter is_close cs).

(** The handlers the reactor holds for [fdv] after the calls [cs]: those
    of the most recent [qemu_set_fd_handler] for it, none before the
    first. *)
Definition registered (fdv : Z) (cs : list call) : option IOHandler * option IOHandler :=
  fold_left
    (fun acc c =>
       match c with
       | qemu_set_fd_handler f r w => if f =? fdv then (r, w) else acc
       | _ => acc
       end)
    cs (None, None).

Section Pipe.

(** The error codes and wake flags come from [hw/misc/android_pipe.h],
    a header that is not among the sources: they are parameters here,
    and the theorems say what they need of them. *)
Variables PIPE_ERROR_INVAL PIPE_ERROR_AGAIN PIPE_ERROR_IO : Z.
Variables PIPE_WAKE_READ PIPE_WAKE_WRITE : Z.

(** The socket layer.  [Sock] is the state of the host's socket; a
    system call gets the descriptor, the address and the length of the
    segment and answers with a [sysres] and the next socket state. *)
Variable Sock : Type.
Variables sys_send sys_recv : Sock -> Z -> Z -> Z -> sysres * Sock.

(** The descriptor [unix_nonblocking_connect], resp.
    [inet_nonblocking_connect], returns for a target; negative when the
    connection cannot be started. *)
Variables unix_connect_fd inet_connect_fd : string -> Z.

(** [net_pipe_free]: the calls made while releasing the connection. *)
Definition net_pipe_free (pipe : NetPipe) : list call :=
  if fd pipe >=? 0
  then [qemu_set_fd_handler (fd pipe) None None; closesocket (fd pipe)]
  else [].

Definition net_pipe_reset_state (pipe : NetPipe) : list call :=
  let write_handler :=
    if negb (Z.land (wakeWanted pipe) PIPE_WAKE_WRITE =? 0)
    then Some io_write_handler else None in
  let read_handler :=
    if pipe_state_eqb (state pipe) STATE_CONNECTED
       && negb (Z.land (wakeWanted pipe) PIPE_WAKE_READ =? 0)
    then Some io_read_handler else None in
  [qemu_set_fd_handler (fd pipe) read_handler write_handler].

Definition net_pipe_close_from_socket (pipe : NetPipe) : option NetPipe * list call :=
  if pipe_state_eqb (state pipe) STATE_CLOSING_GUEST
  then (None, net_pipe_free pipe)
  else
    let '(pipe, cs) :=
      match hwpipe pipe with
      | Some h => (set_hwpipe pipe None, [android_pipe_close h])
      | None => (pipe, [])
      end in
    let pipe := set_state pipe STATE_CLOSING_SOCKET in
    (Some pipe, cs ++ net_pipe_reset_state pipe).

Definition net_pipe_read_handler (pipe : NetPipe) : NetPipe * list call :=
  let pipe := set_wakeActual pipe (Z.lor (wakeActual pipe) PIPE_WAKE_READ) in
  let '(pipe, cs) :=
    if negb (Z.land (wakeWanted pipe) PIPE_WAKE_READ =? 0)
    then (set_wakeWanted pipe (Z.land (wakeWanted pipe) (Z.lnot PIPE_WAKE_READ)),
          [android_pipe_wake (hwpipe pipe) (wakeActual pipe)])
    else (pipe, []) in
  (pipe, cs ++ net_pipe_reset_state pipe).

Definition net_pipe_write_handler (pipe : NetPipe) : NetPipe * list call :=
  let pipe := set_wakeActual pipe (Z.lor (wakeActual pipe) PIPE_WAKE_WRITE) in
  let '(pipe, cs) :=
    if negb (Z.land (wakeWanted pipe) PIPE_WAKE_WRITE =? 0)
    then (set_wakeWanted pipe (Z.land (wakeWanted pipe) (Z.lnot PIPE_WAKE_WRITE)),
          [android_pipe_wake (hwpipe pipe) (wakeActual pipe)])
    else (pipe, []) in
  (pipe, cs ++ net_pipe_reset_state pipe).

Definition net_pipe_close_from_guest (pipe : NetPipe) : list call :=
  net_pipe_free pipe.

Definition net_pipe_ready_send (pipe : NetPipe) : Z :=
  if pipe_state_eqb (state pipe) STATE_CONNECTED then 0
  else if pipe_state_eqb (state pipe) STATE_CONNECTING then PIPE_ERROR_AGAIN
  else match hwpipe pipe with
       | None => PIPE_ERROR_INVAL
       | Some _ => PIPE_ERROR_IO
       end.

(** The first loop of [net_pipe_send_buffers] and [net_pipe_recv_buffers]:
    [count += buff->size] over the segments. *)
Fixpoint count_buffers (buffers : list AndroidPipeBuffer) (count : Z) : Z :=
  match buffers with
  | [] => count
  | b :: rest => count_buffers rest (to_int (count + size b))
  end.

(** The second loop, which the two functions share word for word but
    for the system call [io].  [buff] is the list from the current segment
    on, so that [buff++] is its tail; reading [buff->size] past the last
    segment is undefined, and so is running out of [fuel]: both are
    [None].  The result is the returned [int], the system calls made and
    the socket afterwards. *)
Fixpoint move_buffers (fuel : nat) (io : Sock -> Z -> Z -> Z -> sysres * Sock)
    (fdv : Z) (sk : Sock) (buff : list AndroidPipeBuffer)
    (buff_start count ret : Z) (t : list sysres)
  : option (Z * list sysres * Sock) :=
  if count >? 0 then
    match fuel, buff with
    | O, _ => None
    | _, [] => None
    | S fuel', b :: rest =>
        let avail := to_int (size b - buff_start) in
        let '(r, sk') := io sk fdv (data b + buff_start) (to_uint64 avail) in
        let t' := t ++ [r] in
        if len r >? 0 then
          let buff_start' := to_int (buff_start + len r) in
          let count' := to_int (count - to_int (len r)) in
          let ret' := to_int (ret + to_int (len r)) in
          if to_uint64 buff_start' >=? size b
          then move_buffers fuel' io fdv sk' rest 0 count' ret' t'
          else move_buffers fuel' io fdv sk' buff buff_start' count' ret' t'
        else if len r =? 0 then
          Some (if ret =? 0 then PIPE_ERROR_IO else ret, t', sk')
        else if ret >? 0 then
          Some (ret, t', sk')
        else
          match err r with
          | EAGAIN | EWOULDBLOCK => Some (PIPE_ERROR_AGAIN, t', sk')
          | EOTHER => Some (PIPE_ERROR_IO, t', sk')
          end
    end
  else Some (ret, t, sk).

Definition net_pipe_send_buffers (fuel : nat) (pipe : NetPipe) (sk : Sock)
    (buffers : list AndroidPipeBuffer) : option (Z * list sysres * Sock) :=
  let ret := net_pipe_ready_send pipe in
  if negb (ret =? 0) then Some (ret, [], sk)
  else
    let count := count_buffers buffers 0 in
    move_buffers fuel sys_send (fd pipe) sk buffers 0 count 0 [].

Definition net_pipe_recv_buffers (fuel : nat) (pipe : NetPipe) (sk : Sock)
    (buffers : list AndroidPipeBuffer) : option (Z * list sysres * Sock) :=
  let count := count_buffers buffers 0 in
  move_buffers fuel sys_recv (fd pipe) sk buffers 0 count 0 [].

Definition net_pipe_poll (pipe : NetPipe) : Z := to_uint32 (wakeActual pipe).

Definition net_pipe_wake_on (pipe : NetPipe) (flags : Z) : NetPipe * list call :=
  let pipe := set_wakeWanted pipe (Z.lor (wakeWanted pipe) flags) in
  let pipe := set_wakeActual pipe (Z.land (wakeActual pipe) (Z.lnot flags)) in
  (pipe, net_pipe_reset_state pipe).

Definition net_pipe_connect_handler (fdv : Z) (pipe : NetPipe) : option NetPipe * list call :=
  if fdv <? 0 then net_pipe_close_from_socket pipe
  else
    let pipe := set_state pipe STATE_CONNECTED in
    (Some pipe, net_pipe_reset_state pipe).

(** [snprintf(dst, n, ...)] keeps the first [n - 1] characters of what
    the format produces. *)
Definition snprintf (n : nat) (formatted : string) : string :=
  substring 0 (n - 1) formatted.

(** [args] is [None] for a [NULL] pointer.  The result is the new
    connection, [None] for [NULL], and the connect call issued. *)
Definition net_pipe_init_from (hw : option Z) (args : option string) (is_unix : bool)
  : option NetPipe * list call :=
  match args with
  | None => (None, [])
  | Some a =>
      if (a =? "")%string then (None, [])
      else
        let pipe := mkNetPipe None STATE_INIT 0 0 0 in
        let pipe := set_hwpipe pipe hw in
        let pipe := set_state pipe STATE_CONNECTING in
        let '(pipe, cs) :=
          if is_unix
          then (set_fd pipe (unix_connect_fd a), [unix_nonblocking_connect a])
          else
            let address := snprintf 64 ("127.0.0.1:" ++ a)%string in
            (set_fd pipe (inet_connect_fd address), [inet_nonblocking_connect address]) in
        if fd pipe <? 0 then (None, cs) else (Some pipe, cs)
  end.

Definition net_pipe_init_tcp (hw : option Z) (args : option string) :=
  net_pipe_init_from hw args false.

Definition net_pipe_init_unix (hw : option Z) (args : option string) :=
  net_pipe_init_from hw args true.

(** One event on a live connection: the connection afterwards ([None]
    once released) and the calls made. *)
Definition step (o : op) (pipe : NetPipe) : option NetPipe * list call :=
  match o with
  | OpWakeOn flags => let '(p, cs) := net_pipe_wake_on pipe flags in (Some p, cs)
  | OpReadReady => let '(p, cs) := net_pipe_read_handler pipe in (Some p, cs)
  | OpWriteReady => let '(p, cs) := net_pipe_write_handler pipe in (Some p, cs)
  | OpConnectDone fdv => net_pipe_connect_handler fdv pipe
  | OpCloseFromGuest => (None, net_pipe_close_from_guest pipe)
  end.

(** A sequence of events, until the connection is released: each event
    with the calls it made. *)
Fixpoint run (os : list op) (pipe : option NetPipe) : list (op * list call) :=
  match os, pipe with
  | o :: os', Some p => let '(p', cs) := step o p in (o, cs) :: run os' p'
  | _, _ => []
  end.

(** The connection after a sequence of events. *)
Fixpoint final (os : list op) (pipe : option NetPipe) : option NetPipe :=
  match os, pipe with
  | o :: os', Some p => final os' (fst (step o p))
  | _, _ => pipe
  end.

(** What holds of a connection from its creation on: it is connecting,
    connected, or closing from the socket side with its back pointer
    cleared ([STATE_CLOSING_GUEST] is never assigned). *)
Definition lifecycle_ok (pipe : NetPipe) : Prop :=
  match state pipe with
  | STATE_CONNECTING | STATE_CONNECTED => True
  | STATE_CLOSING_SOCKET => hwpipe pipe = None
  | STATE_INIT | STATE_CLOSING_GUEST => False
  end.

(** Wake notifications delivered by the read-ready, resp. write-ready,
    callback during one event. *)
Definition read_notifications (e : op * list call) : nat :=
  match fst e with OpReadReady => wakes (snd e) | _ => 0%nat end.
Definition write_notifications (e : op * list call) : nat :=
  match fst e with OpWriteReady => wakes (snd e) | _ => 0%nat end.

(** The event is a [wake_on] whose flags include [flag]. *)
Definition arms (flag : Z) (e : op * list call) : nat :=
  match fst e with
  | OpWakeOn f => if Z.land f flag =? 0 then 0%nat else 1%nat
  | _ => 0%nat
  end.

(** 1 when [flag] is among the directions the guest waits for. *)
Definition wanted (flag : Z) (pipe : NetPipe) : nat :=
  if Z.land (wakeWanted pipe) flag =? 0 then 0%nat else 1%nat.

Definition total (f : op * list call -> nat) (t : list (op * list call)) : nat :=
  list_sum (map f t).

(** Force-close notifications delivered during one event. *)
Definition close_notifications (e : op * list call) : nat := closes (snd e).

(** Sum of the segment lengths. *)
Fixpoint sum_sizes (buffers : list AndroidPipeBuffer) : Z :=
  match buffers with
  | [] => 0
  | b :: rest => size b + sum_sizes rest
  end.

(** A scatter/gather list the dispatcher can pass: lengths are not
    negative and their sum fits an [int]. *)
Definition buffers_ok (buffers : list AndroidPipeBuffer) : Prop :=
  Forall (fun b => 0 <= size b) buffers /\ sum_sizes buffers <= INT_MAX.

(** A system call never transfers more than it was asked for. *)
Definition bounded_io (io : Sock -> Z -> Z -> Z -> sysres * Sock) : Prop :=
  forall sk fdv ptr n, 0 <= n -> len (fst (io sk fdv ptr n)) <= n.

(** ** The scatter/gather byte mover *)

Lemma moved_app (t : list sysres) (r : sysres) :
  moved (t ++ [r]) = moved t + (if len r >? 0 then len r else 0).
Proof.
  induction t as [|x t IH]; simpl.
  - lia.
  - rewrite IH. lia.
Qed.

Lemma moved_nonneg (t : list sysres) : 0 <= moved t.
Proof.
  induction t as [|x t IH]; simpl; [lia|].
  destruct (len x >? 0) eqn:E; lia.
Qed.

Lemma moved_zero_nil (t : list sysres) :
  Forall (fun r => 0 < len r) t -> moved t = 0 -> t = [].
Proof.
  intros H. destruct H as [|x t Hx Ht]; [reflexivity|].
  simpl. pose proof (moved_nonneg t).
  destruct (len x >? 0) eqn:E; lia.
Qed.

Lemma ends_with_eof_snoc (t : list sysres) (r : sysres) :
  ends_with_eof (t ++ [r]) = (len r =? 0).
Proof. unfold ends_with_eof. rewrite rev_app_distr. reflexivity. Qed.

Lemma ends_with_wouldblock_snoc (t : list sysres) (r : sysres) :
  ends_with_wouldblock (t ++ [r]) =
  (len r <? 0) && match err r with EAGAIN | EWOULDBLOCK => true | EOTHER => false end.
Proof. unfold ends_with_wouldblock. rewrite rev_app_distr. reflexivity. Qed.

Lemma count_buffers_sum (buffers : list AndroidPipeBuffer) (count : Z) :
  Forall (fun b => 0 <= size b) buffers ->
  0 <= count -> count + sum_sizes buffers <= INT_MAX ->
  count_buffers buffers count = count + sum_sizes buffers.
Proof.
  intros H. revert count.
  induction H as [|b rest Hb Hrest IH]; intros count H0 Hmax; simpl in *.
  - lia.
  - assert (Hs : 0 <= sum_sizes rest).
    { clear -Hrest. induction Hrest; simpl; lia. }
    rewrite to_int_small by (unfold INT_MIN, INT_MAX in *; lia).
    rewrite IH; lia.
Qed.

Lemma sum_sizes_nonneg (buffers : list AndroidPipeBuffer) :
  Forall (fun b => 0 <= size b) buffers -> 0 <= sum_sizes buffers.
Proof. intros H. induction H; simpl; lia. Qed.

(** What the transfer loop returns, read off the system calls it made:
    the bytes moved when there are any; otherwise 0 when no call was made,
    and the error of the only call. *)
Definition mover_result (rv : Z) (t : list sysres) : Prop :=
  (0 < moved t -> rv = moved t) /\
  (moved t = 0 ->
   (t = [] /\ rv = 0) \/
   (exists r, t = [r] /\ len r <= 0 /\
      rv = if len r =? 0 then PIPE_ERROR_IO
           else match err r with
                | EAGAIN | EWOULDBLOCK => PIPE_ERROR_AGAIN
                | EOTHER => PIPE_ERROR_IO
                end)).

(** The loop invariant: [count] is what is left of the segments, [ret]
    what the calls so far have moved, and nothing can overflow. *)
Definition mover_inv (buff : list AndroidPipeBuffer)
    (buff_start count ret : Z) (t : list sysres) : Prop :=
  Forall (fun b => 0 <= size b) buff /\
  0 <= buff_start /\
  (buff_start = 0 \/ exists b rest, buff = b :: rest /\ buff_start < size b) /\
  count = sum_sizes buff - buff_start /\
  ret = moved t /\
  Forall (fun r => 0 < len r) t /\
  ret + count <= INT_MAX /\
  sum_sizes buff <= INT_MAX.

Lemma move_buffers_spec (io : Sock -> Z -> Z -> Z -> sysres * Sock) (fdv : Z) :
  bounded_io io ->
  forall (fuel : nat) (sk : Sock) (buff : list AndroidPipeBuffer)
         (buff_start count ret : Z) (t : list sysres),
    mover_inv buff buff_start count ret t ->
    count < Z.of_nat fuel ->
    exists rv t' sk',
      move_buffers fuel io fdv sk buff buff_start count ret t = Some (rv, t', sk') /\
      mover_result rv t'.
Proof.
  intros Hio. induction fuel as [|fuel IH];
    intros sk buff buff_start count ret t Hinv Hfuel.
  - simpl. destruct (count >? 0) eqn:Hc; [lia|].
    destruct Hinv as (_ & _ & _ & _ & Hret & Hpos & _ & _).
    exists ret, t, sk. split; [reflexivity|]. split.
    + intros _. exact Hret.
    + intros Hm. left. split; [apply moved_zero_nil; assumption | lia].
  - destruct Hinv as (Hsz & Hbs & Hcur & Hcount & Hret & Hpos & Hmax & Hsum).
    simpl in Hsum.
    pose proof (moved_nonneg t) as Hmv.
    cbn [move_buffers]. destruct (count >? 0) eqn:Hc.
    2:{ exists ret, t, sk. split; [reflexivity|]. split.
        - intros _. exact Hret.
        - intros Hm. left. split; [apply moved_zero_nil; assumption | lia]. }
    apply Z.gtb_lt in Hc.
    destruct buff as [|b rest].
    { simpl in Hcount. lia. }
    inversion Hsz as [|b' rest' Hb Hrest]; subst b' rest'.
    pose proof (sum_sizes_nonneg rest Hrest) as Hrs.
    simpl in Hcount, Hsum.
    assert (Hbs' : buff_start <= size b).
    { destruct Hcur as [-> | (b0 & r0 & E & Hlt)]; [lia|]. inversion E; subst; lia. }
    rewrite (to_int_small (size b - buff_start))
      by (unfold INT_MIN, INT_MAX in *; lia).
    rewrite (to_uint64_small (size b - buff_start))
      by (unfold INT_MAX in *; lia).
    pose proof (Hio sk fdv (data b + buff_start) (size b - buff_start)
                  ltac:(lia)) as Hle.
    destruct (io sk fdv (data b + buff_start) (size b - buff_start)) as [r sk'].
    simpl in Hle.
    destruct (len r >? 0) eqn:Hlen.
    + apply Z.gtb_lt in Hlen.
      rewrite (to_int_small (len r)) by (unfold INT_MIN, INT_MAX in *; lia).
      rewrite (to_int_small (buff_start + len r))
        by (unfold INT_MIN, INT_MAX in *; lia).
      rewrite (to_uint64_small (buff_start + len r))
        by (unfold INT_MAX in *; lia).
      rewrite (to_int_small (count - len r))
        by (unfold INT_MIN, INT_MAX in *; lia).
      rewrite (to_int_small (ret + len r))
        by (unfold INT_MIN, INT_MAX in *; lia).
      assert (Hmv' : ret + len r = moved (t ++ [r])).
      { rewrite moved_app. replace (len r >? 0) with true by (symmetry; apply Z.gtb_lt; lia). lia. }
      assert (Hpos' : Forall (fun r => 0 < len r) (t ++ [r])).
      { apply Forall_app. split; [assumption|]. constructor; [lia|constructor]. }
      destruct (buff_start + len r >=? size b) eqn:Hadv.
      * apply Z.geb_le in Hadv. apply IH; [|lia].
        unfold mover_inv. repeat split; try assumption; lia.
      * assert (Hlt : buff_start + len r < size b).
        { destruct (Z.geb_spec (buff_start + len r) (size b)); [discriminate|lia]. }
        apply IH; [|lia].
        unfold mover_inv. simpl sum_sizes.
        repeat split; try assumption; try lia.
        right. exists b, rest. split; [reflexivity|exact Hlt].
    + assert (Hlen' : len r <= 0).
      { destruct (Z.gtb_spec (len r) 0); [discriminate|lia]. }
      assert (Hmv' : moved (t ++ [r]) = ret).
      { rewrite moved_app, Hlen. lia. }
      assert (Hres : forall rv0,
                 (ret = 0 ->
                  rv0 = if len r =? 0 then PIPE_ERROR_IO
                        else match err r with
                             | EAGAIN | EWOULDBLOCK => PIPE_ERROR_AGAIN
                             | EOTHER => PIPE_ERROR_IO
                             end) ->
                 (0 < ret -> rv0 = ret) ->
                 mover_result rv0 (t ++ [r])).
      { intros rv0 H0 H1. split.
        - rewrite Hmv'. intros Hp. rewrite (H1 Hp). reflexivity.
        - rewrite Hmv'. intros Hz. right. exists r.
          assert (t = []) by (apply moved_zero_nil; [assumption|lia]).
          subst t. split; [reflexivity|]. split; [exact Hlen'|]. apply H0. exact Hz. }
      destruct (len r =? 0) eqn:Hz.
      * eexists _, _, _. split; [reflexivity|]. apply Hres.
        -- intros ->. reflexivity.
        -- intros Hp. destruct (Z.eqb_spec ret 0); [lia|reflexivity].
      * destruct (ret >? 0) eqn:Hr.
        -- eexists _, _, _. split; [reflexivity|]. apply Hres.
           ++ apply Z.gtb_lt in Hr. lia.
           ++ reflexivity.
        -- assert (ret = 0).
           { destruct (Z.gtb_spec ret 0); [discriminate|lia]. }
           destruct (err r) eqn:He;
             (eexists _, _, _; split; [reflexivity|]; apply Hres; [reflexivity|lia]).
Qed.

(** What the specification asks of the value [rv] a transfer returns
    after the system calls [t]. *)
Definition mover_claim (rv : Z) (t : list sysres) : Prop :=
  (moved t <> 0 -> rv = moved t) /\
  (rv = PIPE_ERROR_AGAIN -> moved t = 0) /\
  (moved t = 0 -> ends_with_eof t = true -> rv = PIPE_ERROR_IO) /\
  (moved t = 0 -> ends_with_wouldblock t = true -> rv = PIPE_ERROR_AGAIN).

Lemma mover_result_claim (rv : Z) (t : list sysres) :
  PIPE_ERROR_AGAIN < 0 -> mover_result rv t -> mover_claim rv t.
Proof.
  intros Hneg [Hpos Hzero]. pose proof (moved_nonneg t) as Hnn.
  repeat split.
  - intros Hm. apply Hpos. lia.
  - intros Hrv. destruct (Z.eq_dec (moved t) 0) as [|Hne]; [assumption|].
    assert (rv = moved t) by (apply Hpos; lia). lia.
  - intros Hm He. destruct (Hzero Hm) as [[-> _] | (r & -> & Hle & ->)].
    + discriminate He.
    + unfold ends_with_eof in He. simpl in He.
      rewrite He. reflexivity.
  - intros Hm Hw. destruct (Hzero Hm) as [[-> _] | (r & -> & Hle & ->)].
    + discriminate Hw.
    + unfold ends_with_wouldblock in Hw. simpl in Hw.
      apply andb_prop in Hw. destruct Hw as [Hlt Herr].
      apply Z.ltb_lt in Hlt.
      replace (len r =? 0) with false by (symmetry; apply Z.eqb_neq; lia).
      destruct (err r); [reflexivity | reflexivity | discriminate Herr].
Qed.

Lemma mover_inv_start (buffers : list AndroidPipeBuffer) :
  buffers_ok buffers ->
  mover_inv buffers 0 (count_buffers buffers 0) 0 [].
Proof.
  intros [Hsz Hsum].
  pose proof (sum_sizes_nonneg buffers Hsz).
  rewrite count_buffers_sum by (try assumption; lia).
  unfold mover_inv. repeat split; try assumption; try lia.
  - simpl. constructor.
Qed.

(** C1. Every send and every recv over a list of segments returns, and
    what it returns is: the sum of the bytes moved by its successful
    socket transfers whenever that sum is not zero, whatever the last
    system call ran into; [PIPE_ERROR_AGAIN] only with zero bytes moved
    (and then when the call would block); [PIPE_ERROR_IO] at end of stream
    with zero bytes moved. *)
Theorem mover_returns_bytes_moved (fuel : nat) (pipe : NetPipe) (sk : Sock)
    (buffers : list AndroidPipeBuffer) :
  PIPE_ERROR_AGAIN < 0 ->
  bounded_io sys_send -> bounded_io sys_recv ->
  buffers_ok buffers ->
  sum_sizes buffers < Z.of_nat fuel ->
  (exists rv t sk',
      net_pipe_send_buffers fuel pipe sk buffers = Some (rv, t, sk') /\
      mover_claim rv t) /\
  (exists rv t sk',
      net_pipe_recv_buffers fuel pipe sk buffers = Some (rv, t, sk') /\
      mover_claim rv t).
Proof.
  intros Hneg Hsend Hrecv Hok Hfuel.
  pose proof (mover_inv_start buffers Hok) as Hinv.
  assert (Hcount : count_buffers buffers 0 < Z.of_nat fuel).
  { destruct Hok as [Hsz Hsum]. pose proof (sum_sizes_nonneg buffers Hsz).
    rewrite count_buffers_sum by (try assumption; lia). lia. }
  split.
  - unfold net_pipe_send_buffers.
    destruct (negb (net_pipe_ready_send pipe =? 0)) eqn:Hready.
    + exists (net_pipe_ready_send pipe), [], sk. split; [reflexivity|].
      unfold mover_claim. simpl. repeat split; try reflexivity; try discriminate.
      intros H. contradiction H. reflexivity.
    + destruct (move_buffers_spec sys_send (fd pipe) Hsend fuel sk buffers
                  0 (count_buffers buffers 0) 0 [] Hinv Hcount)
        as (rv & t & sk' & Hrun & Hres).
      exists rv, t, sk'. split; [exact Hrun|].
      apply mover_result_claim; assumption.
  - unfold net_pipe_recv_buffers.
    destruct (move_buffers_spec sys_recv (fd pipe) Hrecv fuel sk buffers
                0 (count_buffers buffers 0) 0 [] Hinv Hcount)
      as (rv & t & sk' & Hrun & Hres).
    exists rv, t, sk'. split; [exact Hrun|].
    apply mover_result_claim; assumption.
Qed.

(** ** Legality of send and recv *)

(** [net_pipe_send_buffers] looks at the connection state before it
    touches the socket. *)
Lemma send_checks_state (fuel : nat) (pipe : NetPipe) (sk : Sock)
    (buffers : list AndroidPipeBuffer) :
  PIPE_ERROR_AGAIN <> 0 -> PIPE_ERROR_INVAL <> 0 ->
  (state pipe = STATE_CONNECTING ->
   net_pipe_send_buffers fuel pipe sk buffers = Some (PIPE_ERROR_AGAIN, [], sk)) /\
  ((state pipe = STATE_CLOSING_GUEST \/ state pipe = STATE_CLOSING_SOCKET) ->
   hwpipe pipe = None ->
   net_pipe_send_buffers fuel pipe sk buffers = Some (PIPE_ERROR_INVAL, [], sk)).
Proof.
  intros Ha Hi. unfold net_pipe_send_buffers, net_pipe_ready_send. split.
  - intros ->. simpl.
    replace (PIPE_ERROR_AGAIN =? 0) with false by (symmetry; apply Z.eqb_neq; exact Ha).
    reflexivity.
  - intros [-> | ->] ->; simpl;
      replace (PIPE_ERROR_INVAL =? 0) with false by (symmetry; apply Z.eqb_neq; exact Hi);
      reflexivity.
Qed.

Lemma lifecycle_init (hw : option Z) (args : option string) (is_unix : bool)
    (pipe : NetPipe) :
  fst (net_pipe_init_from hw args is_unix) = Some pipe -> lifecycle_ok pipe.
Proof.
  unfold net_pipe_init_from. destruct args as [a|]; [|discriminate].
  destruct (a =? "")%string; [discriminate|].
  destruct is_unix; cbn [set_fd fd]; match goal with
  | |- context [if ?c then _ else _] => destruct c
  end; simpl; intros H; inversion H; exact I.
Qed.

Lemma lifecycle_step (o : op) (pipe pipe' : NetPipe) :
  lifecycle_ok pipe -> fst (step o pipe) = Some pipe' -> lifecycle_ok pipe'.
Proof.
  unfold lifecycle_ok. intros Hok. destruct o as [f| | |fdv|]; cbn [step].
  - unfold net_pipe_wake_on. simpl. intros H; inversion H; subst; simpl. exact Hok.
  - unfold net_pipe_read_handler. simpl.
    destruct (Z.land (wakeWanted pipe) PIPE_WAKE_READ =? 0); simpl;
      intros H; inversion H; subst; simpl; exact Hok.
  - unfold net_pipe_write_handler. simpl.
    destruct (Z.land (wakeWanted pipe) PIPE_WAKE_WRITE =? 0); simpl;
      intros H; inversion H; subst; simpl; exact Hok.
  - unfold net_pipe_connect_handler, net_pipe_close_from_socket.
    destruct (fdv <? 0).
    + destruct (state pipe) eqn:Hst; try contradiction; simpl;
        destruct (hwpipe pipe) eqn:Hh; simpl; intros H; inversion H; subst; simpl;
        (reflexivity || exact Hh).
    + simpl. intros H; inversion H; subst; simpl. exact I.
  - simpl. discriminate.
Qed.

Lemma lifecycle_final (os : list op) (pipe pipe' : NetPipe) :
  lifecycle_ok pipe -> final os (Some pipe) = Some pipe' -> lifecycle_ok pipe'.
Proof.
  revert pipe. induction os as [|o os IH]; intros pipe Hok; simpl.
  - intros H; inversion H; subst. exact Hok.
  - destruct (fst (step o pipe)) as [p1|] eqn:Hstep.
    + apply IH. apply (lifecycle_step o pipe p1 Hok Hstep).
    + destruct os; discriminate.
Qed.

(** On any connection the events can lead to, a send outside the
    connected state makes no system call: it answers [PIPE_ERROR_AGAIN]
    while connecting and [PIPE_ERROR_INVAL] once closing. *)
Lemma send_outside_connected (fuel : nat) (pipe : NetPipe) (sk : Sock)
    (buffers : list AndroidPipeBuffer) :
  PIPE_ERROR_AGAIN <> 0 -> PIPE_ERROR_INVAL <> 0 ->
  lifecycle_ok pipe -> state pipe <> STATE_CONNECTED ->
  net_pipe_send_buffers fuel pipe sk buffers =
  Some (match state pipe with
        | STATE_CONNECTING => PIPE_ERROR_AGAIN
        | _ => PIPE_ERROR_INVAL
        end, [], sk).
Proof.
  intros Ha Hi Hok Hst. unfold lifecycle_ok in Hok.
  destruct (send_checks_state fuel pipe sk buffers Ha Hi) as [Hconn Hclose].
  destruct (state pipe) eqn:E; try contradiction.
  - apply Hconn. reflexivity.
  - apply Hclose; [right; reflexivity | exact Hok].
Qed.

(** [net_pipe_recv_buffers] does not: the connection state has no part
    in what it does. *)
Lemma recv_ignores_state (fuel : nat) (pipe : NetPipe) (st : pipe_state) (sk : Sock)
    (buffers : list AndroidPipeBuffer) :
  net_pipe_recv_buffers fuel (set_state pipe st) sk buffers =
  net_pipe_recv_buffers fuel pipe sk buffers.
Proof. reflexivity. Qed.

(** C10. In the connected state a send or a recv of total length zero
    returns 0, which is none of the error codes, without any system call;
    the socket is as before, and the connection is only ever read by the
    two functions. *)
Theorem zero_length_transfer (fuel : nat) (pipe : NetPipe) (sk : Sock)
    (buffers : list AndroidPipeBuffer) :
  PIPE_ERROR_AGAIN < 0 -> PIPE_ERROR_IO < 0 -> PIPE_ERROR_INVAL < 0 ->
  state pipe = STATE_CONNECTED ->
  Forall (fun b => 0 <= size b) buffers ->
  sum_sizes buffers = 0 ->
  net_pipe_send_buffers fuel pipe sk buffers = Some (0, [], sk) /\
  net_pipe_recv_buffers fuel pipe sk buffers = Some (0, [], sk) /\
  0 <> PIPE_ERROR_AGAIN /\ 0 <> PIPE_ERROR_IO /\ 0 <> PIPE_ERROR_INVAL.
Proof.
  intros Ha Hio Hinval Hst Hsz Hsum.
  assert (Hcount : count_buffers buffers 0 = 0).
  { rewrite count_buffers_sum; unfold INT_MAX; try assumption; lia. }
  unfold net_pipe_send_buffers, net_pipe_recv_buffers, net_pipe_ready_send.
  rewrite Hst, Hcount. simpl.
  repeat split; try lia; destruct fuel; reflexivity.
Qed.

(** ** Wake protocol *)

Lemma registered_last (fdv : Z) (before : list call) (r w : option IOHandler) :
  registered fdv (before ++ [qemu_set_fd_handler fdv r w]) = (r, w).
Proof.
  unfold registered. rewrite fold_left_app. simpl.
  rewrite Z.eqb_refl. reflexivity.
Qed.

Lemma pipe_state_eqb_eq (a b : pipe_state) : pipe_state_eqb a b = true <-> a = b.
Proof. destruct a, b; simpl; split; intros H; congruence. Qed.

(** C6. [wake_on] adds the directions to [wakeWanted] and takes them out
    of [wakeActual]; afterwards the reactor holds a write-ready callback
    exactly when write-wake is wanted, and a read-ready callback exactly
    when the connection is connected and read-wake is wanted, hence none
    while it is still connecting. *)
Theorem wake_on_registers (pipe : NetPipe) (flags : Z) (before : list call) :
  let pipe' := fst (net_pipe_wake_on pipe flags) in
  let handlers :=
    registered (fd pipe') (before ++ snd (net_pipe_wake_on pipe flags)) in
  wakeWanted pipe' = Z.lor (wakeWanted pipe) flags /\
  wakeActual pipe' = Z.land (wakeActual pipe) (Z.lnot flags) /\
  Z.land (wakeWanted pipe') flags = flags /\
  Z.land (wakeActual pipe') flags = 0 /\
  (snd handlers = Some io_write_handler <->
   Z.land (wakeWanted pipe') PIPE_WAKE_WRITE <> 0) /\
  (snd handlers = None <-> Z.land (wakeWanted pipe') PIPE_WAKE_WRITE = 0) /\
  (fst handlers = Some io_read_handler <->
   state pipe' = STATE_CONNECTED /\ Z.land (wakeWanted pipe') PIPE_WAKE_READ <> 0) /\
  (fst handlers = None <->
   ~ (state pipe' = STATE_CONNECTED /\ Z.land (wakeWanted pipe') PIPE_WAKE_READ <> 0)) /\
  (state pipe' = STATE_CONNECTING -> fst handlers = None) /\
  state pipe' = state pipe /\ hwpipe pipe' = hwpipe pipe /\ fd pipe' = fd pipe.
Proof.
  unfold net_pipe_wake_on, net_pipe_reset_state. cbn zeta. cbn [fst snd].
  rewrite registered_last. cbn [fst snd]. simpl.
  split; [reflexivity|]. split; [reflexivity|].
  split; [apply land_lor_same|]. split; [apply land_clear_same|].
  set (w := Z.lor (wakeWanted pipe) flags).
  destruct (Z.eqb_spec (Z.land w PIPE_WAKE_WRITE) 0) as [Hw|Hw];
    destruct (Z.eqb_spec (Z.land w PIPE_WAKE_READ) 0) as [Hr|Hr];
    destruct (state pipe); simpl;
    repeat split; intros; try reflexivity; try discriminate; try assumption;
    try congruence; try tauto;
    try (match goal with H : _ /\ _ |- _ => destruct H end; congruence);
    try (intros [Hst _]; discriminate Hst).
Qed.

Lemma wakes_reset (pipe : NetPipe) : wakes (net_pipe_reset_state pipe) = 0%nat.
Proof. reflexivity. Qed.

Lemma closes_reset (pipe : NetPipe) : closes (net_pipe_reset_state pipe) = 0%nat.
Proof. reflexivity. Qed.

Definition wanted_opt (flag : Z) (pipe : option NetPipe) : nat :=
  match pipe with Some p => wanted flag p | None => 0%nat end.

Lemma run_released (os : list op) : run os None = [].
Proof. destruct os; reflexivity. Qed.

Lemma close_from_socket_wanted (pipe : NetPipe) (flag : Z) :
  (wanted_opt flag (fst (net_pipe_close_from_socket pipe)) <= wanted flag pipe)%nat.
Proof.
  unfold net_pipe_close_from_socket.
  destruct (pipe_state_eqb (state pipe) STATE_CLOSING_GUEST).
  - simpl. lia.
  - destruct (hwpipe pipe); simpl; unfold wanted; simpl; lia.
Qed.

Ltac budget_handler Hw :=
  simpl; unfold wanted, wakes; simpl;
  first [ rewrite Hw; simpl; lia
        | rewrite land_clear_same; simpl; lia
        | lia ].

(** One event never uses up more read notifications than were armed. *)
Lemma read_budget_step (o : op) (pipe : NetPipe) :
  (read_notifications (o, snd (step o pipe))
   + wanted_opt PIPE_WAKE_READ (fst (step o pipe))
   <= arms PIPE_WAKE_READ (o, snd (step o pipe)) + wanted PIPE_WAKE_READ pipe)%nat.
Proof.
  destruct o as [flags| | |fdv|]; unfold read_notifications, arms; cbn [fst snd step].
  - unfold net_pipe_wake_on. cbn [fst snd wanted_opt]. unfold wanted. simpl.
    destruct (Z.eqb_spec (Z.land flags PIPE_WAKE_READ) 0) as [Hf|Hf].
    + rewrite (land_lor_other _ _ _ Hf). lia.
    + destruct (Z.land (Z.lor (wakeWanted pipe) flags) PIPE_WAKE_READ =? 0); lia.
  - unfold net_pipe_read_handler. unfold wanted. simpl.
    destruct (Z.eqb_spec (Z.land (wakeWanted pipe) PIPE_WAKE_READ) 0) as [Hw|Hw];
      budget_handler Hw.
  - unfold net_pipe_write_handler. simpl.
    destruct (Z.eqb_spec (Z.land (wakeWanted pipe) PIPE_WAKE_WRITE) 0) as [Hw|Hw];
      simpl; unfold wanted; simpl.
    + lia.
    + destruct (Z.eqb_spec (Z.land (wakeWanted pipe) PIPE_WAKE_READ) 0) as [Hr|Hr].
      * rewrite (land_clear_other _ _ _ Hr). simpl. lia.
      * destruct (Z.land (Z.land (wakeWanted pipe) (Z.lnot PIPE_WAKE_WRITE)) PIPE_WAKE_READ =? 0);
          lia.
  - unfold net_pipe_connect_handler. destruct (fdv <? 0).
    + pose proof (close_from_socket_wanted pipe PIPE_WAKE_READ). lia.
    + simpl. unfold wanted. simpl. lia.
  - simpl. lia.
Qed.

Lemma write_budget_step (o : op) (pipe : NetPipe) :
  (write_notifications (o, snd (step o pipe))
   + wanted_opt PIPE_WAKE_WRITE (fst (step o pipe))
   <= arms PIPE_WAKE_WRITE (o, snd (step o pipe)) + wanted PIPE_WAKE_WRITE pipe)%nat.
Proof.
  destruct o as [flags| | |fdv|]; unfold write_notifications, arms; cbn [fst snd step].
  - unfold net_pipe_wake_on. cbn [fst snd wanted_opt]. unfold wanted. simpl.
    destruct (Z.eqb_spec (Z.land flags PIPE_WAKE_WRITE) 0) as [Hf|Hf].
    + rewrite (land_lor_other _ _ _ Hf). lia.
    + destruct (Z.land (Z.lor (wakeWanted pipe) flags) PIPE_WAKE_WRITE =? 0); lia.
  - unfold net_pipe_read_handler. simpl.
    destruct (Z.eqb_spec (Z.land (wakeWanted pipe) PIPE_WAKE_READ) 0) as [Hw|Hw];
      simpl; unfold wanted; simpl.
    + lia.
    + destruct (Z.eqb_spec (Z.land (wakeWanted pipe) PIPE_WAKE_WRITE) 0) as [Hr|Hr].
      * rewrite (land_clear_other _ _ _ Hr). simpl. lia.
      * destruct (Z.land (Z.land (wakeWanted pipe) (Z.lnot PIPE_WAKE_READ)) PIPE_WAKE_WRITE =? 0);
          lia.
  - unfold net_pipe_write_handler. unfold wanted. simpl.
    destruct (Z.eqb_spec (Z.land (wakeWanted pipe) PIPE_WAKE_WRITE) 0) as [Hw|Hw];
      budget_handler Hw.
  - unfold net_pipe_connect_handler. destruct (fdv <? 0).
    + pose proof (close_from_socket_wanted pipe PIPE_WAKE_WRITE). lia.
    + simpl. unfold wanted. simpl. lia.
  - simpl. lia.
Qed.

Lemma run_cons (o : op) (os : list op) (pipe : NetPipe) :
  run (o :: os) (Some pipe) =
  (o, snd (step o pipe)) :: run os (fst (step o pipe)).
Proof. simpl. destruct (step o pipe). reflexivity. Qed.

Lemma total_cons (f : op * list call -> nat) (e : op * list call)
    (t : list (op * list call)) :
  total f (e :: t) = (f e + total f t)%nat.
Proof. reflexivity. Qed.

Lemma budget_run (flag : Z) (notif : op * list call -> nat) :
  (forall o pipe,
      (notif (o, snd (step o pipe)) + wanted_opt flag (fst (step o pipe))
       <= arms flag (o, snd (step o pipe)) + wanted flag pipe)%nat) ->
  forall os pipe,
    (total notif (run os pipe) <= total (arms flag) (run os pipe) + wanted_opt flag pipe)%nat.
Proof.
  intros Hstep. induction os as [|o os IH]; intros [pipe|].
  - unfold total. simpl. lia.
  - unfold total. simpl. lia.
  - rewrite run_cons, !total_cons.
    specialize (IH (fst (step o pipe))). specialize (Hstep o pipe).
    cbn [wanted_opt]. lia.
  - rewrite run_released. unfold total. simpl. lia.
Qed.

Ltac in_calls H :=
  repeat (destruct H as [H | H]; [try discriminate H | ]); try contradiction H.

(** C5. Each [wake_on] for a direction leads to at most one wake
    notification for it.  Once a direction is armed, its readiness event
    delivers exactly one notification and takes the direction out of
    [wakeWanted]; a second readiness event without a new [wake_on]
    delivers none.  Over any sequence of events the notifications of a
    direction's callback never outnumber the [wake_on] calls for it (plus
    one if it was wanted at the start).  And a notification only ever
    comes from a readiness callback, with the direction already recorded
    in the [wakeActual] it passes on. *)
Theorem wake_once_per_arm :
  PIPE_WAKE_READ <> 0 -> PIPE_WAKE_WRITE <> 0 ->
  (forall pipe,
      let armed := fst (net_pipe_wake_on pipe PIPE_WAKE_READ) in
      let first := net_pipe_read_handler armed in
      let second := net_pipe_read_handler (fst first) in
      wakes (snd first) = 1%nat /\
      Z.land (wakeWanted (fst first)) PIPE_WAKE_READ = 0 /\
      wakes (snd second) = 0%nat) /\
  (forall pipe,
      let armed := fst (net_pipe_wake_on pipe PIPE_WAKE_WRITE) in
      let first := net_pipe_write_handler armed in
      let second := net_pipe_write_handler (fst first) in
      wakes (snd first) = 1%nat /\
      Z.land (wakeWanted (fst first)) PIPE_WAKE_WRITE = 0 /\
      wakes (snd second) = 0%nat) /\
  (forall os pipe,
      (total read_notifications (run os (Some pipe))
       <= total (arms PIPE_WAKE_READ) (run os (Some pipe))
          + wanted PIPE_WAKE_READ pipe)%nat) /\
  (forall os pipe,
      (total write_notifications (run os (Some pipe))
       <= total (arms PIPE_WAKE_WRITE) (run os (Some pipe))
          + wanted PIPE_WAKE_WRITE pipe)%nat) /\
  (forall o pipe hw flags,
      In (android_pipe_wake hw flags) (snd (step o pipe)) ->
      exists pipe',
        fst (step o pipe) = Some pipe' /\
        hw = hwpipe pipe' /\ flags = wakeActual pipe' /\
        ((o = OpReadReady /\ Z.land flags PIPE_WAKE_READ = PIPE_WAKE_READ) \/
         (o = OpWriteReady /\ Z.land flags PIPE_WAKE_WRITE = PIPE_WAKE_WRITE))).
Proof.
  intros Hread Hwrite.
  split; [|split; [|split; [|split]]].
  - intros pipe. unfold net_pipe_wake_on, net_pipe_read_handler. simpl.
    rewrite land_lor_same.
    destruct (Z.eqb_spec PIPE_WAKE_READ 0) as [|_]; [contradiction|]. simpl.
    rewrite land_clear_same. simpl. repeat split.
  - intros pipe. unfold net_pipe_wake_on, net_pipe_write_handler. simpl.
    rewrite land_lor_same.
    destruct (Z.eqb_spec PIPE_WAKE_WRITE 0) as [|_]; [contradiction|]. simpl.
    rewrite land_clear_same. simpl. repeat split.
  - intros os pipe.
    apply (budget_run PIPE_WAKE_READ read_notifications read_budget_step os (Some pipe)).
  - intros os pipe.
    apply (budget_run PIPE_WAKE_WRITE write_notifications write_budget_step os (Some pipe)).
  - intros o pipe hw flags Hin. destruct o as [f| | |fdv|]; cbn [step] in *.
    + unfold net_pipe_wake_on, net_pipe_reset_state in Hin. simpl in Hin. in_calls Hin.
    + unfold net_pipe_read_handler, net_pipe_reset_state in *. simpl in *.
      destruct (Z.land (wakeWanted pipe) PIPE_WAKE_READ =? 0); simpl in *; in_calls Hin.
      inversion Hin; subst. eexists. split; [reflexivity|]. simpl.
      repeat split. left. split; [reflexivity|apply land_lor_same].
    + unfold net_pipe_write_handler, net_pipe_reset_state in *. simpl in *.
      destruct (Z.land (wakeWanted pipe) PIPE_WAKE_WRITE =? 0); simpl in *; in_calls Hin.
      inversion Hin; subst. eexists. split; [reflexivity|]. simpl.
      repeat split. right. split; [reflexivity|apply land_lor_same].
    + unfold net_pipe_connect_handler, net_pipe_close_from_socket, net_pipe_free,
        net_pipe_reset_state in Hin.
      destruct (fdv <? 0); simpl in Hin.
      * destruct (pipe_state_eqb (state pipe) STATE_CLOSING_GUEST); simpl in Hin.
        -- destruct (fd pipe >=? 0); simpl in Hin; in_calls Hin.
        -- destruct (hwpipe pipe); simpl in Hin; in_calls Hin.
      * in_calls Hin.
    + unfold net_pipe_close_from_guest, net_pipe_free in Hin. simpl in Hin.
      destruct (fd pipe >=? 0); simpl in Hin; in_calls Hin.
Qed.

(** ** Closing from the socket side *)

(** Once the back pointer is cleared it stays cleared, and no event
    force-closes the guest's pipe object again. *)
Lemma no_close_without_hwpipe (o : op) (pipe : NetPipe) :
  hwpipe pipe = None ->
  closes (snd (step o pipe)) = 0%nat /\
  forall pipe', fst (step o pipe) = Some pipe' -> hwpipe pipe' = None.
Proof.
  intros Hh. destruct o as [f| | |fdv|]; cbn [step].
  - unfold net_pipe_wake_on. simpl. split; [reflexivity|].
    intros pipe' E. inversion E. simpl. exact Hh.
  - unfold net_pipe_read_handler. simpl.
    destruct (Z.land (wakeWanted pipe) PIPE_WAKE_READ =? 0); simpl;
      (split; [reflexivity|]; intros pipe' E; inversion E; simpl; exact Hh).
  - unfold net_pipe_write_handler. simpl.
    destruct (Z.land (wakeWanted pipe) PIPE_WAKE_WRITE =? 0); simpl;
      (split; [reflexivity|]; intros pipe' E; inversion E; simpl; exact Hh).
  - unfold net_pipe_connect_handler, net_pipe_close_from_socket, net_pipe_free.
    destruct (fdv <? 0).
    + destruct (pipe_state_eqb (state pipe) STATE_CLOSING_GUEST).
      * destruct (fd pipe >=? 0); simpl; (split; [reflexivity|]; intros pipe' E; discriminate E).
      * rewrite Hh. simpl. split; [reflexivity|].
        intros pipe' E. inversion E. simpl. exact Hh.
    + simpl. split; [reflexivity|]. intros pipe' E. inversion E. simpl. exact Hh.
  - unfold net_pipe_close_from_guest, net_pipe_free.
    destruct (fd pipe >=? 0); simpl; (split; [reflexivity|]; intros pipe' E; discriminate E).
Qed.

Lemma no_close_after (os : list op) (pipe : NetPipe) :
  hwpipe pipe = None -> total close_notifications (run os (Some pipe)) = 0%nat.
Proof.
  revert pipe. induction os as [|o os IH]; intros pipe Hh.
  - reflexivity.
  - rewrite run_cons, total_cons.
    destruct (no_close_without_hwpipe o pipe Hh) as [Hc Hnext].
    unfold close_notifications at 1. cbn [snd]. rewrite Hc.
    destruct (fst (step o pipe)) as [pipe'|].
    + rewrite IH; [reflexivity|]. apply Hnext. reflexivity.
    + rewrite run_released. reflexivity.
Qed.

(** C7. A connect that completes with a failure while the connection is
    connecting moves it straight to [STATE_CLOSING_SOCKET] and
    force-closes the guest's pipe object exactly once when it is still
    there (not at all when it is gone); whatever happens to the connection
    afterwards, no further force-close is delivered. *)
Theorem failed_connect_closes_once (pipe : NetPipe) (fdv : Z) (os : list op) :
  state pipe = STATE_CONNECTING -> fdv < 0 ->
  exists pipe' cs,
    net_pipe_connect_handler fdv pipe = (Some pipe', cs) /\
    state pipe' = STATE_CLOSING_SOCKET /\
    hwpipe pipe' = None /\
    filter is_close cs =
      match hwpipe pipe with
      | Some h => [android_pipe_close h]
      | None => []
      end /\
    total close_notifications (run os (Some pipe')) = 0%nat /\
    total close_notifications (run (OpConnectDone fdv :: os) (Some pipe)) =
      match hwpipe pipe with Some _ => 1%nat | None => 0%nat end.
Proof.
  intros Hst Hfd.
  assert (Hrun : exists pipe' cs,
             net_pipe_connect_handler fdv pipe = (Some pipe', cs) /\
             state pipe' = STATE_CLOSING_SOCKET /\
             hwpipe pipe' = None /\
             filter is_close cs =
               match hwpipe pipe with
               | Some h => [android_pipe_close h]
               | None => []
               end).
  { unfold net_pipe_connect_handler, net_pipe_close_from_socket.
    replace (fdv <? 0) with true by (symmetry; apply Z.ltb_lt; exact Hfd).
    rewrite Hst. simpl.
    destruct (hwpipe pipe) as [h|] eqn:Hh; simpl;
      eexists _, _; (split; [reflexivity|]); simpl; repeat split; assumption. }
  destruct Hrun as (pipe' & cs & Hrun & Hst' & Hh' & Hcs).
  exists pipe', cs. repeat split; try assumption.
  - apply no_close_after. exact Hh'.
  - rewrite run_cons, total_cons. cbn [step]. rewrite Hrun. cbn [fst snd].
    rewrite (no_close_after os pipe' Hh').
    unfold close_notifications, closes. cbn [snd]. rewrite Hcs.
    destruct (hwpipe pipe); reflexivity.
Qed.

(** ** Opening a connection *)

Lemma substring_whole (s : string) (n : nat) :
  (String.length s <= n)%nat -> substring 0 n s = s.
Proof.
  revert n. induction s as [|c s IH]; intros [|n] H; simpl in *; try reflexivity; try lia.
  f_equal. apply IH. lia.
Qed.

(** C9, as the code has it.  Without an argument, or with an empty one,
    a tcp open fails: no connection and no connect.  Otherwise exactly one
    connect is issued, against ["127.0.0.1:"] followed by the first 53
    characters of the guest's port string (the address is formatted into
    64 bytes), that is by the whole port string when it has no more than
    53 characters; a connection is produced when that connect returns a
    descriptor. *)
Theorem tcp_open_connects_to_localhost (hw : option Z) (a : string) :
  a <> ""%string ->
  net_pipe_init_tcp hw None = (None, []) /\
  net_pipe_init_tcp hw (Some ""%string) = (None, []) /\
  snd (net_pipe_init_tcp hw (Some a)) =
    [inet_nonblocking_connect ("127.0.0.1:" ++ substring 0 53 a)%string] /\
  ((String.length a <= 53)%nat ->
   snd (net_pipe_init_tcp hw (Some a)) =
     [inet_nonblocking_connect ("127.0.0.1:" ++ a)%string]) /\
  (fst (net_pipe_init_tcp hw (Some a)) = None <->
   inet_connect_fd ("127.0.0.1:" ++ substring 0 53 a)%string < 0).
Proof.
  intros Ha.
  assert (He : (a =? "")%string = false).
  { destruct a; [contradiction Ha; reflexivity | reflexivity]. }
  assert (Haddr : snprintf 64 ("127.0.0.1:" ++ a)%string
                  = ("127.0.0.1:" ++ substring 0 53 a)%string) by reflexivity.
  split; [reflexivity|]. split; [reflexivity|].
  unfold net_pipe_init_tcp, net_pipe_init_from. rewrite He, Haddr.
  cbn [set_fd fd].
  destruct (Z.ltb_spec (inet_connect_fd ("127.0.0.1:" ++ substring 0 53 a)%string) 0)
    as [Hneg|Hpos]; cbn [fst snd].
  - split; [reflexivity|]. split.
    + intros Hl. rewrite substring_whole by exact Hl. reflexivity.
    + split; [intros _; exact Hneg | reflexivity].
  - split; [reflexivity|]. split.
    + intros Hl. rewrite substring_whole by exact Hl. reflexivity.
    + split; [discriminate | lia].
Qed.


(** ** The reactor registration over a connection's life *)

(** All the calls of a sequence of events, in order. *)
Definition all_calls (t : list (op * list call)) : list call :=
  List.concat (map snd t).

(** The callbacks that belong to a connection as it stands: a read
    callback when it is connected and read-wake is wanted, a write callback
    when write-wake is wanted. *)
Definition handlers_for (pipe : NetPipe) : option IOHandler * option IOHandler :=
  (if pipe_state_eqb (state pipe) STATE_CONNECTED
      && negb (Z.land (wakeWanted pipe) PIPE_WAKE_READ =? 0)
   then Some io_read_handler else None,
   if negb (Z.land (wakeWanted pipe) PIPE_WAKE_WRITE =? 0)
   then Some io_write_handler else None).

Lemma registered_app (fdv : Z) (before cs : list call) :
  registered fdv (before ++ cs) =
  fold_left
    (fun acc c =>
       match c with
       | qemu_set_fd_handler f r w => if f =? fdv then (r, w) else acc
       | _ => acc
       end)
    cs (registered fdv before).
Proof. unfold registered. apply fold_left_app. Qed.

Lemma registered_reset (pipe : NetPipe) (before : list call) :
  registered (fd pipe) (before ++ net_pipe_reset_state pipe) = handlers_for pipe.
Proof.
  unfold net_pipe_reset_state. rewrite registered_last. reflexivity.
Qed.

(** Every event on a connection that stays alive ends with the
    registration brought in line with the connection. *)
Lemma step_registers (o : op) (pipe pipe' : NetPipe) (before : list call) :
  fst (step o pipe) = Some pipe' ->
  fd pipe' = fd pipe /\
  registered (fd pipe) (before ++ snd (step o pipe)) = handlers_for pipe'.
Proof.
  destruct o as [f| | |fdv|]; cbn [step].
  - unfold net_pipe_wake_on. cbn [fst snd]. intros H. inversion H. subst pipe'.
    split; [reflexivity|].
    apply (registered_reset
             (set_wakeActual (set_wakeWanted pipe (Z.lor (wakeWanted pipe) f))
                (Z.land (wakeActual (set_wakeWanted pipe (Z.lor (wakeWanted pipe) f)))
                   (Z.lnot f)))).
  - unfold net_pipe_read_handler. cbn [wakeWanted set_wakeActual].
    destruct (negb (Z.land (wakeWanted pipe) PIPE_WAKE_READ =? 0)); cbn [fst snd];
      intros H; inversion H; subst pipe'; (split; [reflexivity|]).
    + rewrite app_assoc.
      apply (registered_reset
               (set_wakeWanted
                  (set_wakeActual pipe (Z.lor (wakeActual pipe) PIPE_WAKE_READ))
                  (Z.land (wakeWanted pipe) (Z.lnot PIPE_WAKE_READ)))).
    + apply (registered_reset
               (set_wakeActual pipe (Z.lor (wakeActual pipe) PIPE_WAKE_READ))).
  - unfold net_pipe_write_handler. cbn [wakeWanted set_wakeActual].
    destruct (negb (Z.land (wakeWanted pipe) PIPE_WAKE_WRITE =? 0)); cbn [fst snd];
      intros H; inversion H; subst pipe'; (split; [reflexivity|]).
    + rewrite app_assoc.
      apply (registered_reset
               (set_wakeWanted
                  (set_wakeActual pipe (Z.lor (wakeActual pipe) PIPE_WAKE_WRITE))
                  (Z.land (wakeWanted pipe) (Z.lnot PIPE_WAKE_WRITE)))).
    + apply (registered_reset
               (set_wakeActual pipe (Z.lor (wakeActual pipe) PIPE_WAKE_WRITE))).
  - unfold net_pipe_connect_handler, net_pipe_close_from_socket.
    destruct (fdv <? 0).
    + destruct (pipe_state_eqb (state pipe) STATE_CLOSING_GUEST); [discriminate|].
      destruct (hwpipe pipe) as [h|]; cbn [fst snd];
        intros H; inversion H; subst pipe'; (split; [reflexivity|]).
      * rewrite app_assoc.
        apply (registered_reset (set_state (set_hwpipe pipe None) STATE_CLOSING_SOCKET)).
      * rewrite app_assoc.
        apply (registered_reset (set_state pipe STATE_CLOSING_SOCKET)).
    + cbn [fst snd]. intros H; inversion H; subst pipe'. split; [reflexivity|].
      apply (registered_reset (set_state pipe STATE_CONNECTED)).
  - discriminate.
Qed.

Lemma all_calls_cons (e : op * list call) (t : list (op * list call)) :
  all_calls (e :: t) = snd e ++ all_calls t.
Proof. reflexivity. Qed.

Lemma final_cons (o : op) (os : list op) (pipe : NetPipe) :
  final (o :: os) (Some pipe) = final os (fst (step o pipe)).
Proof. reflexivity. Qed.

Lemma final_released (os : list op) : final os None = None.
Proof. destruct os; reflexivity. Qed.

Lemma run_registers (os : list op) (pipe pipe' : NetPipe) (before : list call) :
  registered (fd pipe) before = handlers_for pipe ->
  final os (Some pipe) = Some pipe' ->
  fd pipe' = fd pipe /\
  registered (fd pipe) (before ++ all_calls (run os (Some pipe))) = handlers_for pipe'.
Proof.
  revert pipe before. induction os as [|o os IH]; intros pipe before Hreg Hfin.
  - simpl in Hfin. inversion Hfin. subst pipe'. split; [reflexivity|].
    simpl. rewrite app_nil_r. exact Hreg.
  - rewrite final_cons in Hfin. rewrite run_cons, all_calls_cons. cbn [snd].
    destruct (fst (step o pipe)) as [p1|] eqn:Hstep.
    + destruct (step_registers o pipe p1 before Hstep) as [Hfd Hreg1].
      rewrite <- Hfd in Hreg1.
      destruct (IH p1 (before ++ snd (step o pipe)) Hreg1 Hfin) as [Hfd' Hreg'].
      rewrite Hfd in Hfd', Hreg'. split; [exact Hfd'|].
      rewrite app_assoc. exact Hreg'.
    + rewrite final_released in Hfin. discriminate Hfin.
Qed.

(** X1. After any non-empty sequence of events that leaves the
    connection alive, whatever the reactor held before, it holds exactly:
    a write-ready callback when write-wake is wanted, a read-ready callback
    when the connection is connected and read-wake is wanted; and the
    descriptor is still the one the connection was created with. *)
Theorem registration_follows_connection (o : op) (os : list op)
    (pipe pipe' : NetPipe) (before : list call) :
  final (o :: os) (Some pipe) = Some pipe' ->
  fd pipe' = fd pipe /\
  registered (fd pipe) (before ++ all_calls (run (o :: os) (Some pipe)))
  = handlers_for pipe'.
Proof.
  intros Hfin. rewrite final_cons in Hfin.
  rewrite run_cons, all_calls_cons. cbn [snd].
  destruct (fst (step o pipe)) as [p1|] eqn:Hstep.
  - destruct (step_registers o pipe p1 before Hstep) as [Hfd Hreg1].
    rewrite <- Hfd in Hreg1.
    destruct (run_registers os p1 pipe' (before ++ snd (step o pipe)) Hreg1 Hfin)
      as [Hfd' Hreg'].
    rewrite Hfd in Hfd', Hreg'. split; [exact Hfd'|].
    rewrite app_assoc. exact Hreg'.
  - rewrite final_released in Hfin. discriminate Hfin.
Qed.

(** X2. The readiness callbacks are one-shot: after a read-ready event
    read-wake is no longer wanted, the readiness is on record in
    [wakeActual] and no read-ready callback is registered any more; the
    same for write. *)
Theorem readiness_callbacks_are_one_shot (pipe : NetPipe) (before : list call) :
  (let after := net_pipe_read_handler pipe in
   Z.land (wakeWanted (fst after)) PIPE_WAKE_READ = 0 /\
   Z.land (wakeActual (fst after)) PIPE_WAKE_READ = PIPE_WAKE_READ /\
   fst (registered (fd pipe) (before ++ snd after)) = None) /\
  (let after := net_pipe_write_handler pipe in
   Z.land (wakeWanted (fst after)) PIPE_WAKE_WRITE = 0 /\
   Z.land (wakeActual (fst after)) PIPE_WAKE_WRITE = PIPE_WAKE_WRITE /\
   snd (registered (fd pipe) (before ++ snd after)) = None).
Proof.
  split; cbv zeta.
  - assert (Hw : Z.land (wakeWanted (fst (net_pipe_read_handler pipe))) PIPE_WAKE_READ = 0).
    { unfold net_pipe_read_handler. cbn [wakeWanted set_wakeActual].
      destruct (Z.eqb_spec (Z.land (wakeWanted pipe) PIPE_WAKE_READ) 0) as [Hz|Hz];
        cbn [negb fst wakeWanted set_wakeWanted set_wakeActual];
        [exact Hz | apply land_clear_same]. }
    split; [exact Hw|]. split.
    + unfold net_pipe_read_handler. cbn [wakeWanted set_wakeActual].
      destruct (negb (Z.land (wakeWanted pipe) PIPE_WAKE_READ =? 0));
        cbn [fst wakeActual set_wakeWanted set_wakeActual]; apply land_lor_same.
    + destruct (step_registers OpReadReady pipe (fst (net_pipe_read_handler pipe)) before)
        as [_ Hreg].
      { cbn [step]. destruct (net_pipe_read_handler pipe). reflexivity. }
      cbn [step] in Hreg.
      replace (snd (let '(p, cs) := net_pipe_read_handler pipe in (Some p, cs)))
        with (snd (net_pipe_read_handler pipe)) in Hreg
        by (destruct (net_pipe_read_handler pipe); reflexivity).
      rewrite Hreg. unfold handlers_for. cbn [fst]. rewrite Hw.
      rewrite andb_false_r. reflexivity.
  - assert (Hw : Z.land (wakeWanted (fst (net_pipe_write_handler pipe))) PIPE_WAKE_WRITE = 0).
    { unfold net_pipe_write_handler. cbn [wakeWanted set_wakeActual].
      destruct (Z.eqb_spec (Z.land (wakeWanted pipe) PIPE_WAKE_WRITE) 0) as [Hz|Hz];
        cbn [negb fst wakeWanted set_wakeWanted set_wakeActual];
        [exact Hz | apply land_clear_same]. }
    split; [exact Hw|]. split.
    + unfold net_pipe_write_handler. cbn [wakeWanted set_wakeActual].
      destruct (negb (Z.land (wakeWanted pipe) PIPE_WAKE_WRITE =? 0));
        cbn [fst wakeActual set_wakeWanted set_wakeActual]; apply land_lor_same.
    + destruct (step_registers OpWriteReady pipe (fst (net_pipe_write_handler pipe)) before)
        as [_ Hreg].
      { cbn [step]. destruct (net_pipe_write_handler pipe). reflexivity. }
      cbn [step] in Hreg.
      replace (snd (let '(p, cs) := net_pipe_write_handler pipe in (Some p, cs)))
        with (snd (net_pipe_write_handler pipe)) in Hreg
        by (destruct (net_pipe_write_handler pipe); reflexivity).
      rewrite Hreg. unfold handlers_for. cbn [snd]. rewrite Hw. reflexivity.
Qed.

(** X3. Read-wake armed while the connection is still connecting is not
    lost: [wake_on] registers no read-ready callback then, and the connect
    completion that succeeds registers it, moves the connection to
    [STATE_CONNECTED], and notifies nobody. *)
Theorem read_wake_waits_for_connect (pipe : NetPipe) (fdv : Z) (before : list call) :
  state pipe = STATE_CONNECTING -> 0 <= fdv -> PIPE_WAKE_READ <> 0 ->
  let armed := net_pipe_wake_on pipe PIPE_WAKE_READ in
  fst (registered (fd pipe) (before ++ snd armed)) = None /\
  exists pipe' cs,
    net_pipe_connect_handler fdv (fst armed) = (Some pipe', cs) /\
    state pipe' = STATE_CONNECTED /\
    hwpipe pipe' = hwpipe pipe /\
    fst (registered (fd pipe) (before ++ snd armed ++ cs)) = Some io_read_handler /\
    wakes cs = 0%nat /\ closes cs = 0%nat.
Proof.
  intros Hst Hfd Hread. cbv zeta.
  unfold net_pipe_wake_on, net_pipe_connect_handler. cbn [fst snd].
  replace (fdv <? 0) with false by (symmetry; apply Z.ltb_ge; exact Hfd).
  split.
  - unfold net_pipe_reset_state. rewrite registered_last.
    cbn [fst state set_wakeActual set_wakeWanted]. rewrite Hst. reflexivity.
  - eexists _, _. split; [reflexivity|].
    split; [reflexivity|]. split; [reflexivity|]. split; [|split; reflexivity].
    rewrite app_assoc. unfold net_pipe_reset_state at 2. rewrite registered_last.
    cbn [fst state set_state wakeWanted set_wakeActual set_wakeWanted pipe_state_eqb].
    rewrite land_lor_same.
    destruct (Z.eqb_spec PIPE_WAKE_READ 0); [contradiction|reflexivity].
Qed.


(** ** Polling *)

Lemma land_uint32_clear (a f : Z) :
  Z.land (to_uint32 (Z.land a (Z.lnot f))) f = 0.
Proof.
  unfold to_uint32. rewrite <- Z.land_ones by lia.
  apply Z.bits_inj'. intros n Hn.
  rewrite !Z.land_spec, Z.lnot_spec, Z.bits_0 by exact Hn.
  destruct (Z.testbit a n), (Z.testbit f n), (Z.testbit (Z.ones 32) n); reflexivity.
Qed.

Lemma land_uint32_set (a m : Z) :
  0 <= m < 2 ^ 32 -> Z.land (to_uint32 (Z.lor a m)) m = m.
Proof.
  intros Hm.
  assert (Hlow : Z.land m (Z.ones 32) = m)
    by (rewrite Z.land_ones by lia; apply Z.mod_small; exact Hm).
  unfold to_uint32. rewrite <- Z.land_ones by lia.
  apply Z.bits_inj'. intros n Hn.
  apply (f_equal (fun z => Z.testbit z n)) in Hlow.
  rewrite Z.land_spec in Hlow.
  rewrite !Z.land_spec, Z.lor_spec.
  destruct (Z.testbit a n), (Z.testbit m n), (Z.testbit (Z.ones 32) n);
    simpl in *; congruence.
Qed.

Lemma land_lor_clear (a m k : Z) :
  Z.land a k = 0 -> Z.land m k = 0 -> Z.land (Z.lor a m) k = 0.
Proof.
  intros Ha Hm. rewrite Z.land_lor_distr_l, Ha, Hm. reflexivity.
Qed.

Lemma land_lnot_lor_l (r w : Z) : Z.land r (Z.lnot (Z.lor r w)) = 0.
Proof.
  apply Z.bits_inj'. intros n Hn.
  rewrite Z.land_spec, Z.lnot_spec, Z.lor_spec, Z.bits_0 by exact Hn.
  destruct (Z.testbit r n), (Z.testbit w n); reflexivity.
Qed.

Lemma land_lnot_lor_r (r w : Z) : Z.land w (Z.lnot (Z.lor r w)) = 0.
Proof.
  apply Z.bits_inj'. intros n Hn.
  rewrite Z.land_spec, Z.lnot_spec, Z.lor_spec, Z.bits_0 by exact Hn.
  destruct (Z.testbit r n), (Z.testbit w n); reflexivity.
Qed.

(** No flag other than the two directions is on record. *)
Definition only_directions (pipe : NetPipe) : Prop :=
  Z.land (wakeActual pipe) (Z.lnot (Z.lor PIPE_WAKE_READ PIPE_WAKE_WRITE)) = 0.

Lemma only_directions_step (o : op) (pipe pipe' : NetPipe) :
  only_directions pipe -> fst (step o pipe) = Some pipe' -> only_directions pipe'.
Proof.
  unfold only_directions. intros Hok. destruct o as [f| | |fdv|]; cbn [step].
  - unfold net_pipe_wake_on. cbn [fst]. intros H; inversion H; subst pipe'.
    cbn [wakeActual set_wakeActual set_wakeWanted].
    apply land_clear_other. exact Hok.
  - unfold net_pipe_read_handler. cbn [wakeWanted set_wakeActual].
    destruct (negb (Z.land (wakeWanted pipe) PIPE_WAKE_READ =? 0)); cbn [fst];
      intros H; inversion H; subst pipe';
      cbn [wakeActual set_wakeActual set_wakeWanted];
      (apply land_lor_clear; [exact Hok | apply land_lnot_lor_l]).
  - unfold net_pipe_write_handler. cbn [wakeWanted set_wakeActual].
    destruct (negb (Z.land (wakeWanted pipe) PIPE_WAKE_WRITE =? 0)); cbn [fst];
      intros H; inversion H; subst pipe';
      cbn [wakeActual set_wakeActual set_wakeWanted];
      (apply land_lor_clear; [exact Hok | apply land_lnot_lor_r]).
  - unfold net_pipe_connect_handler, net_pipe_close_from_socket.
    destruct (fdv <? 0).
    + destruct (pipe_state_eqb (state pipe) STATE_CLOSING_GUEST); [discriminate|].
      destruct (hwpipe pipe); cbn [fst]; intros H; inversion H; subst pipe'; exact Hok.
    + cbn [fst]. intros H; inversion H; subst pipe'. exact Hok.
  - discriminate.
Qed.

Lemma only_directions_final (os : list op) (pipe pipe' : NetPipe) :
  only_directions pipe -> final os (Some pipe) = Some pipe' -> only_directions pipe'.
Proof.
  revert pipe. induction os as [|o os IH]; intros pipe Hok Hfin.
  - simpl in Hfin. inversion Hfin. subst. exact Hok.
  - rewrite final_cons in Hfin.
    destruct (fst (step o pipe)) as [p1|] eqn:Hstep.
    + apply (IH p1); [|exact Hfin]. apply (only_directions_step o pipe p1 Hok Hstep).
    + rewrite final_released in Hfin. discriminate Hfin.
Qed.

(** X4. [net_pipe_poll] answers from the record the callbacks keep:
    right after a read-ready (write-ready) event it reports read (write);
    right after [wake_on] it reports none of the directions just armed;
    and on a connection that started with nothing on record it never
    reports anything but the two directions, whatever happened since. *)
Theorem poll_reports_recorded_readiness (pipe : NetPipe) (flags : Z) (os : list op)
    (pipe' : NetPipe) :
  0 <= PIPE_WAKE_READ < 2 ^ 32 -> 0 <= PIPE_WAKE_WRITE < 2 ^ 32 ->
  Z.land (net_pipe_poll (fst (net_pipe_read_handler pipe))) PIPE_WAKE_READ
  = PIPE_WAKE_READ /\
  Z.land (net_pipe_poll (fst (net_pipe_write_handler pipe))) PIPE_WAKE_WRITE
  = PIPE_WAKE_WRITE /\
  Z.land (net_pipe_poll (fst (net_pipe_wake_on pipe flags))) flags = 0 /\
  (wakeActual pipe = 0 -> final os (Some pipe) = Some pipe' ->
   0 <= wakeActual pipe' < 2 ^ 32 /\
   net_pipe_poll pipe' = wakeActual pipe' /\
   Z.land (net_pipe_poll pipe') (Z.lnot (Z.lor PIPE_WAKE_READ PIPE_WAKE_WRITE)) = 0).
Proof.
  intros Hr Hw. split; [|split; [|split]].
  - unfold net_pipe_poll, net_pipe_read_handler. cbn [wakeWanted set_wakeActual].
    destruct (negb (Z.land (wakeWanted pipe) PIPE_WAKE_READ =? 0));
      cbn [fst wakeActual set_wakeActual set_wakeWanted];
      apply land_uint32_set; exact Hr.
  - unfold net_pipe_poll, net_pipe_write_handler. cbn [wakeWanted set_wakeActual].
    destruct (negb (Z.land (wakeWanted pipe) PIPE_WAKE_WRITE =? 0));
      cbn [fst wakeActual set_wakeActual set_wakeWanted];
      apply land_uint32_set; exact Hw.
  - unfold net_pipe_poll, net_pipe_wake_on.
    cbn [fst wakeActual set_wakeActual set_wakeWanted].
    apply land_uint32_clear.
  - intros Hzero Hfin.
    assert (Hok : only_directions pipe') .
    { apply (only_directions_final os pipe pipe'); [|exact Hfin].
      unfold only_directions. rewrite Hzero. apply Z.land_0_l. }
    unfold only_directions in Hok.
    assert (Hsub : Z.land (wakeActual pipe') (Z.lor PIPE_WAKE_READ PIPE_WAKE_WRITE)
                   = wakeActual pipe').
    { apply Z.bits_inj'. intros n Hn.
      apply (f_equal (fun z => Z.testbit z n)) in Hok.
      rewrite Z.land_spec, Z.lnot_spec, Z.bits_0 in Hok by exact Hn.
      rewrite Z.land_spec.
      destruct (Z.testbit (wakeActual pipe') n),
        (Z.testbit (Z.lor PIPE_WAKE_READ PIPE_WAKE_WRITE) n); simpl in *; congruence. }
    assert (Hrw : Z.land (Z.lor PIPE_WAKE_READ PIPE_WAKE_WRITE) (Z.ones 32)
                  = Z.lor PIPE_WAKE_READ PIPE_WAKE_WRITE).
    { rewrite Z.land_lor_distr_l, !Z.land_ones by lia.
      rewrite !Z.mod_small by assumption. reflexivity. }
    assert (Hrange : 0 <= wakeActual pipe' < 2 ^ 32).
    { rewrite <- Hsub, <- Hrw, Z.land_assoc, Z.land_ones by lia.
      apply Z.mod_pos_bound. lia. }
    split; [exact Hrange|].
    unfold net_pipe_poll. rewrite to_uint32_small by exact Hrange.
    split; [reflexivity | exact Hok].
Qed.


(** ** Releasing the socket *)

Definition is_closesocket (c : call) : bool :=
  match c with closesocket _ => true | _ => false end.

(** No [closesocket] among the calls. *)
Definition keeps_socket (cs : list call) : Prop :=
  forallb (fun c => negb (is_closesocket c)) cs = true.

Lemma keeps_socket_split (l1 l2 pre post : list call) (f : Z) :
  keeps_socket l1 ->
  l1 ++ l2 = pre ++ closesocket f :: post ->
  exists pre', pre = l1 ++ pre' /\ l2 = pre' ++ closesocket f :: post.
Proof.
  unfold keeps_socket. revert pre. induction l1 as [|c l1 IH]; intros pre Hk Heq.
  - exists pre. split; [reflexivity|exact Heq].
  - simpl in Hk. apply andb_prop in Hk. destruct Hk as [Hc Hk].
    destruct pre as [|p pre]; simpl in Heq; inversion Heq; subst.
    + discriminate Hc.
    + destruct (IH pre Hk H1) as (pre' & -> & Hl2).
      exists pre'. split; [reflexivity|exact Hl2].
Qed.

Lemma live_step_keeps_socket (o : op) (pipe pipe' : NetPipe) :
  fst (step o pipe) = Some pipe' -> keeps_socket (snd (step o pipe)).
Proof.
  unfold keeps_socket. destruct o as [f| | |fdv|]; cbn [step].
  - reflexivity.
  - unfold net_pipe_read_handler. cbn [wakeWanted set_wakeActual].
    destruct (negb (Z.land (wakeWanted pipe) PIPE_WAKE_READ =? 0)); reflexivity.
  - unfold net_pipe_write_handler. cbn [wakeWanted set_wakeActual].
    destruct (negb (Z.land (wakeWanted pipe) PIPE_WAKE_WRITE =? 0)); reflexivity.
  - unfold net_pipe_connect_handler, net_pipe_close_from_socket.
    destruct (fdv <? 0); [|reflexivity].
    destruct (pipe_state_eqb (state pipe) STATE_CLOSING_GUEST); [discriminate|].
    destruct (hwpipe pipe); reflexivity.
  - discriminate.
Qed.

Lemma released_step_frees (o : op) (pipe : NetPipe) :
  fst (step o pipe) = None -> snd (step o pipe) = net_pipe_free pipe.
Proof.
  destruct o as [f| | |fdv|]; cbn [step].
  - unfold net_pipe_wake_on. discriminate.
  - destruct (net_pipe_read_handler pipe). discriminate.
  - destruct (net_pipe_write_handler pipe). discriminate.
  - unfold net_pipe_connect_handler, net_pipe_close_from_socket.
    destruct (fdv <? 0); [|discriminate].
    destruct (pipe_state_eqb (state pipe) STATE_CLOSING_GUEST); [reflexivity|].
    destruct (hwpipe pipe); discriminate.
  - reflexivity.
Qed.

Lemma step_keeps_fd (o : op) (pipe pipe' : NetPipe) :
  fst (step o pipe) = Some pipe' -> fd pipe' = fd pipe.
Proof.
  intros H. apply (step_registers o pipe pipe' [] H).
Qed.

Lemma close_is_last (os : list op) (pipe : NetPipe) (before pre post : list call) (f : Z) :
  all_calls (run os (Some pipe)) = pre ++ closesocket f :: post ->
  post = [] /\ f = fd pipe /\ 0 <= f /\ registered f (before ++ pre) = (None, None).
Proof.
  revert pipe before pre. induction os as [|o os IH]; intros pipe before pre Heq.
  - destruct pre; discriminate Heq.
  - rewrite run_cons, all_calls_cons in Heq. cbn [snd] in Heq.
    destruct (fst (step o pipe)) as [p1|] eqn:Hstep.
    + destruct (keeps_socket_split _ _ _ _ _ (live_step_keeps_socket o pipe p1 Hstep) Heq)
        as (pre' & -> & Hrest).
      destruct (IH p1 (before ++ snd (step o pipe)) pre' Hrest) as (Hp & Hf & H0 & Hreg).
      rewrite (step_keeps_fd o pipe p1 Hstep) in Hf.
      repeat split; try assumption.
      rewrite app_assoc. exact Hreg.
    + rewrite run_released in Heq. unfold all_calls in Heq. simpl in Heq.
      rewrite app_nil_r in Heq. rewrite (released_step_frees o pipe Hstep) in Heq.
      unfold net_pipe_free in Heq.
      destruct (Z.geb_spec (fd pipe) 0) as [Hfd|Hfd].
      * destruct pre as [|p0 [|p1 pre]]; simpl in Heq; inversion Heq; subst.
        -- repeat split; try reflexivity; try lia.
           apply registered_last.
        -- destruct pre; discriminate.
      * destruct pre; discriminate Heq.
Qed.

(** X5. Over any sequence of events the socket is closed at most once,
    as the very last thing that happens to the connection, only when its
    descriptor is valid, and only after its callbacks have been taken
    out of the reactor. *)
Theorem socket_closed_last_and_unregistered (os : list op) (pipe : NetPipe)
    (before pre post : list call) (f : Z) :
  all_calls (run os (Some pipe)) = pre ++ closesocket f :: post ->
  post = [] /\ f = fd pipe /\ 0 <= f /\ keeps_socket pre /\
  registered f (before ++ pre) = (None, None).
Proof.
  intros Heq.
  destruct (close_is_last os pipe before pre post f Heq) as (Hp & Hf & H0 & Hreg).
  repeat split; try assumption.
  unfold keeps_socket.
  destruct (forallb (fun c => negb (is_closesocket c)) pre) eqn:E; [reflexivity|].
  exfalso.
  assert (Hex : existsb is_closesocket pre = true).
  { clear -E. induction pre as [|c pre IH]; simpl in *; [discriminate|].
    destruct (is_closesocket c); simpl in *; [reflexivity|]. apply IH. exact E. }
  apply existsb_exists in Hex. destruct Hex as (c & Hin & Hc).
  destruct c; try discriminate Hc.
  apply in_split in Hin. destruct Hin as (l1 & l2 & ->).
  rewrite <- app_assoc in Heq. simpl in Heq.
  destruct (close_is_last os pipe [] l1 (l2 ++ closesocket f :: post) fdv Heq)
    as (Hnil & _).
  destruct l2; discriminate Hnil.
Qed.

(** X6. A failed connect leaves a connection that still wants
    write-wake with its write-ready callback registered and without its
    guest pipe object: the next write-ready event calls
    [android_pipe_wake] on a [NULL] pipe object. *)
Theorem closing_connection_wakes_null (pipe : NetPipe) (fdv : Z) (before : list call) :
  state pipe = STATE_CONNECTING -> fdv < 0 ->
  Z.land (wakeWanted pipe) PIPE_WAKE_WRITE <> 0 ->
  exists closing cs,
    net_pipe_connect_handler fdv pipe = (Some closing, cs) /\
    state closing = STATE_CLOSING_SOCKET /\
    hwpipe closing = None /\
    snd (registered (fd pipe) (before ++ cs)) = Some io_write_handler /\
    filter is_wake (snd (net_pipe_write_handler closing))
    = [android_pipe_wake None (Z.lor (wakeActual pipe) PIPE_WAKE_WRITE)].
Proof.
  intros Hst Hfd Hw.
  unfold net_pipe_connect_handler, net_pipe_close_from_socket.
  replace (fdv <? 0) with true by (symmetry; apply Z.ltb_lt; exact Hfd).
  rewrite Hst. cbn [pipe_state_eqb].
  assert (Hwb : negb (Z.land (wakeWanted pipe) PIPE_WAKE_WRITE =? 0) = true).
  { apply negb_true_iff, Z.eqb_neq. exact Hw. }
  destruct (hwpipe pipe) as [h|] eqn:Hh;
    (eexists _, _; split; [reflexivity|]);
    (split; [reflexivity|]); (split; [first [reflexivity | exact Hh]|]); split.
  - rewrite app_assoc. unfold net_pipe_reset_state. rewrite registered_last.
    cbn [snd wakeWanted set_state set_hwpipe]. rewrite Hwb. reflexivity.
  - unfold net_pipe_write_handler, net_pipe_reset_state.
    cbn [wakeWanted wakeActual hwpipe set_wakeActual set_state set_hwpipe].
    rewrite Hwb. reflexivity.
  - cbn [app]. unfold net_pipe_reset_state. rewrite registered_last.
    cbn [snd wakeWanted set_state set_hwpipe]. rewrite Hwb. reflexivity.
  - unfold net_pipe_write_handler, net_pipe_reset_state.
    cbn [wakeWanted wakeActual hwpipe set_wakeActual set_state set_hwpipe].
    rewrite Hwb, Hh. reflexivity.
Qed.

(** ** Opening *)

(** What an open produces.  A connection comes out exactly when there
    is a non-empty argument and the connect call returns a descriptor; it
    is then connecting, holds the guest's pipe object and that descriptor,
    and has nothing wanted or on record.  A unix open passes the guest's
    path on as it is, whatever its length. *)
Lemma open_result (hw : option Z) (args : option string) (is_unix : bool) :
  let target a :=
    if is_unix then a else snprintf 64 ("127.0.0.1:" ++ a)%string in
  let connect_fd a :=
    if is_unix then unix_connect_fd a else inet_connect_fd (target a) in
  match args with
  | None => net_pipe_init_from hw args is_unix = (None, [])
  | Some a =>
      if (a =? "")%string then net_pipe_init_from hw args is_unix = (None, [])
      else
        snd (net_pipe_init_from hw args is_unix)
        = [if is_unix then unix_nonblocking_connect a
           else inet_nonblocking_connect (target a)] /\
        fst (net_pipe_init_from hw args is_unix)
        = if connect_fd a <? 0 then None
          else Some (mkNetPipe hw STATE_CONNECTING 0 0 (connect_fd a))
  end.
Proof.
  cbv zeta. unfold net_pipe_init_from.
  destruct args as [a|]; [|reflexivity].
  destruct (a =? "")%string; [reflexivity|].
  destruct is_unix; cbn [set_fd set_state set_hwpipe fd hwpipe state wakeWanted wakeActual];
    match goal with
    | |- context [?x <? 0] => destruct (x <? 0)
    end; split; reflexivity.
Qed.


Lemma opened_connection (hw : option Z) (args : option string) (is_unix : bool)
    (pipe : NetPipe) :
  fst (net_pipe_init_from hw args is_unix) = Some pipe ->
  pipe = mkNetPipe hw STATE_CONNECTING 0 0 (fd pipe) /\ 0 <= fd pipe.
Proof.
  pose proof (open_result hw args is_unix) as H. cbv zeta in H.
  destruct args as [a|]; [|rewrite H; discriminate].
  destruct (a =? "")%string; [rewrite H; discriminate|].
  destruct H as [_ H]. rewrite H.
  match goal with
  | |- context [?x <? 0] => destruct (Z.ltb_spec x 0)
  end; [discriminate|].
  intros E. inversion E. subst pipe. cbn [fd]. split; [reflexivity|assumption].
Qed.

(** X7. The first write after an open.  On a connection just opened,
    a send makes no system call and answers [PIPE_ERROR_AGAIN]; once the
    guest has armed write-wake, the connect has completed and the socket
    has become writable, the guest's pipe object has received exactly one
    wake notification, carrying the write direction alone, the connection
    is connected, write-wake is no longer wanted and no callback is left
    in the reactor. *)
Theorem first_write_after_open (hw : option Z) (args : option string) (is_unix : bool)
    (pipe : NetPipe) (fdv : Z) (fuel : nat) (sk : Sock)
    (buffers : list AndroidPipeBuffer) :
  PIPE_ERROR_AGAIN <> 0 -> PIPE_WAKE_WRITE <> 0 ->
  Z.land PIPE_WAKE_WRITE PIPE_WAKE_READ = 0 ->
  0 <= fdv ->
  fst (net_pipe_init_from hw args is_unix) = Some pipe ->
  let os := [OpWakeOn PIPE_WAKE_WRITE; OpConnectDone fdv; OpWriteReady] in
  net_pipe_send_buffers fuel pipe sk buffers = Some (PIPE_ERROR_AGAIN, [], sk) /\
  filter is_wake (all_calls (run os (Some pipe)))
  = [android_pipe_wake hw PIPE_WAKE_WRITE] /\
  closes (all_calls (run os (Some pipe))) = 0%nat /\
  registered (fd pipe) (all_calls (run os (Some pipe))) = (None, None) /\
  final os (Some pipe)
  = Some (mkNetPipe hw STATE_CONNECTED 0 PIPE_WAKE_WRITE (fd pipe)).
Proof.
  intros Hagain Hw Hdisj Hfd Hopen.
  destruct (opened_connection hw args is_unix pipe Hopen) as [Hpipe _].
  set (f := fd pipe) in *. rewrite Hpipe. clearbody f. clear Hpipe Hopen pipe.
  assert (Hnz : (PIPE_WAKE_WRITE =? 0) = false) by (apply Z.eqb_neq; exact Hw).
  assert (Hge : (fdv <? 0) = false) by (apply Z.ltb_ge; exact Hfd).
  assert (Hself : Z.land PIPE_WAKE_WRITE (Z.lnot PIPE_WAKE_WRITE) = 0).
  { apply Z.bits_inj'. intros n Hn.
    rewrite Z.land_spec, Z.lnot_spec, Z.bits_0 by exact Hn.
    destruct (Z.testbit PIPE_WAKE_WRITE n); reflexivity. }
  assert (H1 : net_pipe_wake_on (mkNetPipe hw STATE_CONNECTING 0 0 f) PIPE_WAKE_WRITE
               = (mkNetPipe hw STATE_CONNECTING PIPE_WAKE_WRITE 0 f,
                  [qemu_set_fd_handler f None (Some io_write_handler)])).
  { unfold net_pipe_wake_on, net_pipe_reset_state, set_wakeWanted, set_wakeActual.
    cbn [wakeWanted wakeActual hwpipe state fd pipe_state_eqb andb].
    rewrite Z.lor_0_l, Z.land_0_l, Z.land_diag, Hnz. reflexivity. }
  assert (H2 : net_pipe_connect_handler fdv
                 (mkNetPipe hw STATE_CONNECTING PIPE_WAKE_WRITE 0 f)
               = (Some (mkNetPipe hw STATE_CONNECTED PIPE_WAKE_WRITE 0 f),
                  [qemu_set_fd_handler f None (Some io_write_handler)])).
  { unfold net_pipe_connect_handler, net_pipe_reset_state, set_state.
    rewrite Hge.
    cbn [wakeWanted wakeActual hwpipe state fd pipe_state_eqb andb].
    rewrite Z.land_diag, Hnz, Hdisj. reflexivity. }
  assert (H3 : net_pipe_write_handler (mkNetPipe hw STATE_CONNECTED PIPE_WAKE_WRITE 0 f)
               = (mkNetPipe hw STATE_CONNECTED 0 PIPE_WAKE_WRITE f,
                  [android_pipe_wake hw PIPE_WAKE_WRITE;
                   qemu_set_fd_handler f None None])).
  { unfold net_pipe_write_handler, net_pipe_reset_state, set_wakeWanted, set_wakeActual.
    cbn [wakeWanted wakeActual hwpipe state fd pipe_state_eqb andb].
    rewrite Z.lor_0_l, Z.land_diag, Hnz. cbn [negb].
    cbn [wakeWanted wakeActual hwpipe state fd pipe_state_eqb andb app].
    rewrite Hself, !Z.land_0_l. reflexivity. }
  assert (Hrun : run [OpWakeOn PIPE_WAKE_WRITE; OpConnectDone fdv; OpWriteReady]
                   (Some (mkNetPipe hw STATE_CONNECTING 0 0 f))
                 = [(OpWakeOn PIPE_WAKE_WRITE,
                     [qemu_set_fd_handler f None (Some io_write_handler)]);
                    (OpConnectDone fdv,
                     [qemu_set_fd_handler f None (Some io_write_handler)]);
                    (OpWriteReady,
                     [android_pipe_wake hw PIPE_WAKE_WRITE;
                      qemu_set_fd_handler f None None])]).
  { cbn [run step]. rewrite H1, H2, H3. reflexivity. }
  cbv zeta. rewrite Hrun. split; [|split; [|split; [|split]]].
  - unfold net_pipe_send_buffers, net_pipe_ready_send. cbn [state pipe_state_eqb].
    replace (PIPE_ERROR_AGAIN =? 0) with false
      by (symmetry; apply Z.eqb_neq; exact Hagain).
    reflexivity.
  - reflexivity.
  - reflexivity.
  - unfold registered, all_calls. cbn [map snd List.concat app fold_left fd].
    rewrite Z.eqb_refl. reflexivity.
  - cbn [final step fst]. rewrite H1. cbn [fst]. rewrite H2. cbn [fst].
    rewrite H3. reflexivity.
Qed.


(** ** More on the byte mover *)

(** Whatever a transfer loop returns, it has moved no more than was
    left to move, in no more system calls than bytes left. *)
Lemma move_buffers_bound (io : Sock -> Z -> Z -> Z -> sysres * Sock) (fdv : Z) :
  bounded_io io ->
  forall (fuel : nat) (sk : Sock) (buff : list AndroidPipeBuffer)
         (buff_start count ret : Z) (t : list sysres) rv t' sk',
    mover_inv buff buff_start count ret t ->
    move_buffers fuel io fdv sk buff buff_start count ret t = Some (rv, t', sk') ->
    moved t' <= ret + count /\
    Z.of_nat (List.length t') <= Z.of_nat (List.length t) + count.
Proof.
  intros Hio. induction fuel as [|fuel IH];
    intros sk buff buff_start count ret t rv t' sk' Hinv Hrun.
  - simpl in Hrun. destruct (Z.gtb_spec count 0) as [Hc|Hc]; [discriminate|].
    inversion Hrun; subst.
    destruct Hinv as (Hsz & Hbs & Hcur & Hcount & Hret & _).
    pose proof (sum_sizes_nonneg buff Hsz) as Hnn.
    assert (count = 0).
    { destruct Hcur as [-> | (b & rest & -> & Hlt)]; [lia|].
      inversion Hsz; subst. pose proof (sum_sizes_nonneg rest H2). simpl in *. lia. }
    lia.
  - destruct Hinv as (Hsz & Hbs & Hcur & Hcount & Hret & Hpos & Hmax & Hsum).
    pose proof (moved_nonneg t) as Hmv.
    cbn [move_buffers] in Hrun. destruct (Z.gtb_spec count 0) as [Hc|Hc].
    2:{ inversion Hrun; subst.
        pose proof (sum_sizes_nonneg buff Hsz) as Hnn.
        assert (sum_sizes buff - buff_start = 0).
        { destruct Hcur as [-> | (b & rest & -> & Hlt)]; [lia|].
          inversion Hsz; subst. pose proof (sum_sizes_nonneg rest H2). simpl in *. lia. }
        lia. }
    destruct buff as [|b rest].
    { simpl in Hcount. lia. }
    inversion Hsz as [|b' rest' Hb Hrest]; subst b' rest'.
    pose proof (sum_sizes_nonneg rest Hrest) as Hrs.
    simpl in Hcount, Hsum.
    assert (Hbs' : buff_start <= size b).
    { destruct Hcur as [-> | (b0 & r0 & E & Hlt)]; [lia|]. inversion E; subst; lia. }
    rewrite (to_int_small (size b - buff_start)) in Hrun
      by (unfold INT_MIN, INT_MAX in *; lia).
    rewrite (to_uint64_small (size b - buff_start)) in Hrun
      by (unfold INT_MAX in *; lia).
    pose proof (Hio sk fdv (data b + buff_start) (size b - buff_start)
                  ltac:(lia)) as Hle.
    destruct (io sk fdv (data b + buff_start) (size b - buff_start)) as [r sk1].
    simpl in Hle.
    destruct (Z.gtb_spec (len r) 0) as [Hlen|Hlen].
    + rewrite (to_int_small (len r)) in Hrun by (unfold INT_MIN, INT_MAX in *; lia).
      rewrite (to_int_small (buff_start + len r)) in Hrun
        by (unfold INT_MIN, INT_MAX in *; lia).
      rewrite (to_uint64_small (buff_start + len r)) in Hrun
        by (unfold INT_MAX in *; lia).
      rewrite (to_int_small (count - len r)) in Hrun
        by (unfold INT_MIN, INT_MAX in *; lia).
      rewrite (to_int_small (ret + len r)) in Hrun
        by (unfold INT_MIN, INT_MAX in *; lia).
      assert (Hmv' : ret + len r = moved (t ++ [r])).
      { rewrite moved_app.
        replace (len r >? 0) with true by (symmetry; apply Z.gtb_lt; lia). lia. }
      assert (Hpos' : Forall (fun r => 0 < len r) (t ++ [r])).
      { apply Forall_app. split; [assumption|]. constructor; [lia|constructor]. }
      assert (Hlen1 : Z.of_nat (List.length (t ++ [r])) = Z.of_nat (List.length t) + 1).
      { rewrite length_app. simpl. lia. }
      destruct (Z.geb_spec (buff_start + len r) (size b)) as [Hadv|Hstay].
      * apply IH in Hrun; [lia|].
        unfold mover_inv. repeat split; try assumption; lia.
      * apply IH in Hrun; [lia|].
        unfold mover_inv. simpl sum_sizes.
        repeat split; try assumption; try lia.
        right. exists b, rest. split; [reflexivity|lia].
    + assert (Hmv' : moved (t ++ [r]) = ret).
      { rewrite moved_app.
        replace (len r >? 0) with false
          by (symmetry; destruct (Z.gtb_spec (len r) 0); [lia|reflexivity]).
        lia. }
      assert (Hlen1 : Z.of_nat (List.length (t ++ [r])) = Z.of_nat (List.length t) + 1).
      { rewrite length_app. simpl. lia. }
      destruct (len r =? 0); [|destruct (ret >? 0); [|destruct (err r)]];
        inversion Hrun; subst; lia.
Qed.

(** X8. A send or a recv never moves more bytes than the segments hold
    and makes no more system calls than that; its return value is never
    above the sum of the segment lengths. *)
Theorem transfer_within_request (fuel : nat) (pipe : NetPipe) (sk : Sock)
    (buffers : list AndroidPipeBuffer) :
  PIPE_ERROR_INVAL < 0 -> PIPE_ERROR_AGAIN < 0 -> PIPE_ERROR_IO < 0 ->
  bounded_io sys_send -> bounded_io sys_recv ->
  buffers_ok buffers ->
  sum_sizes buffers < Z.of_nat fuel ->
  (exists rv t sk',
      net_pipe_send_buffers fuel pipe sk buffers = Some (rv, t, sk') /\
      moved t <= sum_sizes buffers /\
      Z.of_nat (List.length t) <= sum_sizes buffers /\
      rv <= sum_sizes buffers) /\
  (exists rv t sk',
      net_pipe_recv_buffers fuel pipe sk buffers = Some (rv, t, sk') /\
      moved t <= sum_sizes buffers /\
      Z.of_nat (List.length t) <= sum_sizes buffers /\
      rv <= sum_sizes buffers).
Proof.
  intros Hinval Hagain Hioerr Hsend Hrecv Hok Hfuel.
  pose proof (mover_inv_start buffers Hok) as Hinv.
  destruct Hok as [Hsz Hsum].
  pose proof (sum_sizes_nonneg buffers Hsz) as Hnn.
  assert (Hcount : count_buffers buffers 0 = sum_sizes buffers).
  { rewrite count_buffers_sum by (try assumption; lia). lia. }
  assert (Hloop : forall io, bounded_io io ->
            exists rv t sk',
              move_buffers fuel io (fd pipe) sk buffers 0 (count_buffers buffers 0) 0 []
              = Some (rv, t, sk') /\
              moved t <= sum_sizes buffers /\
              Z.of_nat (List.length t) <= sum_sizes buffers /\
              rv <= sum_sizes buffers).
  { intros io Hio.
    destruct (move_buffers_spec io (fd pipe) Hio fuel sk buffers
                0 (count_buffers buffers 0) 0 [] Hinv ltac:(lia))
      as (rv & t & sk' & Hrun & Hres).
    destruct (move_buffers_bound io (fd pipe) Hio fuel sk buffers
                0 (count_buffers buffers 0) 0 [] rv t sk' Hinv Hrun) as [Hm Hl].
    rewrite Hcount in Hm, Hl. simpl in Hl.
    exists rv, t, sk'. split; [exact Hrun|]. split; [lia|]. split; [lia|].
    destruct Hres as [Hpos Hzero]. pose proof (moved_nonneg t).
    destruct (Z.eq_dec (moved t) 0) as [E|E].
    - destruct (Hzero E) as [[_ ->] | (r & _ & _ & ->)]; [lia|].
      destruct (len r =? 0); [lia|]. destruct (err r); lia.
    - rewrite Hpos by lia. lia. }
  split.
  - unfold net_pipe_send_buffers.
    destruct (negb (net_pipe_ready_send pipe =? 0)) eqn:Hready.
    + exists (net_pipe_ready_send pipe), [], sk. split; [reflexivity|].
      simpl. split; [lia|]. split; [lia|].
      unfold net_pipe_ready_send in *.
      destruct (pipe_state_eqb (state pipe) STATE_CONNECTED); [discriminate Hready|].
      destruct (pipe_state_eqb (state pipe) STATE_CONNECTING); [lia|].
      destruct (hwpipe pipe); lia.
    + apply Hloop. exact Hsend.
  - unfold net_pipe_recv_buffers. apply Hloop. exact Hrecv.
Qed.

(** A socket that takes or gives all it is asked for. *)
Definition greedy_io (io : Sock -> Z -> Z -> Z -> sysres * Sock) : Prop :=
  forall sk fdv ptr n, 0 < n -> len (fst (io sk fdv ptr n)) = n.

Lemma move_buffers_greedy (io : Sock -> Z -> Z -> Z -> sysres * Sock) (fdv : Z) :
  greedy_io io ->
  forall (buff : list AndroidPipeBuffer) (fuel : nat) (sk : Sock)
         (count ret : Z) (t : list sysres),
    Forall (fun b => 0 < size b) buff ->
    count = sum_sizes buff -> 0 <= ret -> ret + count <= INT_MAX ->
    (List.length buff <= fuel)%nat ->
    exists ts sk',
      move_buffers fuel io fdv sk buff 0 count ret t = Some (ret + count, t ++ ts, sk') /\
      map len ts = map size buff.
Proof.
  intros Hio. induction buff as [|b rest IH];
    intros fuel sk count ret t Hpos Hcount Hret Hmax Hfuel.
  - simpl in Hcount. subst count. exists [], sk.
    rewrite app_nil_r, Z.add_0_r. split; [|reflexivity].
    destruct fuel; reflexivity.
  - inversion Hpos as [|b' rest' Hb Hrest]; subst b' rest'.
    assert (Hrs : 0 <= sum_sizes rest).
    { apply sum_sizes_nonneg. eapply Forall_impl; [|exact Hrest]. simpl. intros; lia. }
    simpl in Hcount. destruct fuel as [|fuel]; [simpl in Hfuel; lia|].
    cbn [move_buffers].
    replace (count >? 0) with true by (symmetry; apply Z.gtb_lt; lia).
    rewrite Z.sub_0_r, Z.add_0_r.
    rewrite (to_int_small (size b)) by (unfold INT_MIN, INT_MAX in *; lia).
    rewrite (to_uint64_small (size b)) by (unfold INT_MAX in *; lia).
    pose proof (Hio sk fdv (data b) (size b) Hb) as Hlen.
    destruct (io sk fdv (data b) (size b)) as [r sk1]. simpl in Hlen.
    rewrite Hlen, Z.add_0_l.
    replace (size b >? 0) with true by (symmetry; apply Z.gtb_lt; lia).
    rewrite (to_int_small (size b)) by (unfold INT_MIN, INT_MAX in *; lia).
    rewrite (to_uint64_small (size b)) by (unfold INT_MAX in *; lia).
    rewrite (to_int_small (count - size b)) by (unfold INT_MIN, INT_MAX in *; lia).
    rewrite (to_int_small (ret + size b)) by (unfold INT_MIN, INT_MAX in *; lia).
    replace (size b >=? size b) with true by (symmetry; apply Z.geb_le; lia).
    destruct (IH fuel sk1 (count - size b) (ret + size b) (t ++ [r]) Hrest)
      as (ts & sk' & Hrun & Hmap); try lia.
    { simpl in Hfuel. lia. }
    exists (r :: ts), sk'. split.
    + rewrite Hrun. f_equal. f_equal. f_equal; [lia|].
      rewrite <- app_assoc. reflexivity.
    + simpl. rewrite Hlen, Hmap. reflexivity.
Qed.

(** X9. On a connected connection whose socket takes (gives) all it is
    asked for, a send (recv) over segments that are all non-empty moves
    everything: it returns the sum of the segment lengths after exactly
    one system call per segment, each of the segment's length. *)
Theorem transfer_completes_on_greedy_socket (fuel : nat) (pipe : NetPipe) (sk : Sock)
    (buffers : list AndroidPipeBuffer) :
  greedy_io sys_send -> greedy_io sys_recv ->
  state pipe = STATE_CONNECTED ->
  Forall (fun b => 0 < size b) buffers ->
  sum_sizes buffers <= INT_MAX ->
  (List.length buffers <= fuel)%nat ->
  (exists t sk',
      net_pipe_send_buffers fuel pipe sk buffers = Some (sum_sizes buffers, t, sk') /\
      map len t = map size buffers) /\
  (exists t sk',
      net_pipe_recv_buffers fuel pipe sk buffers = Some (sum_sizes buffers, t, sk') /\
      map len t = map size buffers).
Proof.
  intros Hsend Hrecv Hst Hpos Hsum Hfuel.
  assert (Hsz : Forall (fun b => 0 <= size b) buffers).
  { eapply Forall_impl; [|exact Hpos]. simpl. intros; lia. }
  pose proof (sum_sizes_nonneg buffers Hsz) as Hnn.
  assert (Hcount : count_buffers buffers 0 = sum_sizes buffers).
  { rewrite count_buffers_sum by (try assumption; lia). lia. }
  split.
  - unfold net_pipe_send_buffers, net_pipe_ready_send. rewrite Hst. cbn [pipe_state_eqb].
    change (negb (0 =? 0)) with false. cbv iota.
    destruct (move_buffers_greedy sys_send (fd pipe) Hsend buffers fuel sk
                (count_buffers buffers 0) 0 [] Hpos Hcount ltac:(lia) ltac:(lia) Hfuel)
      as (ts & sk' & Hrun & Hmap).
    exists ts, sk'. rewrite Hrun, Hcount. split; [reflexivity|exact Hmap].
  - unfold net_pipe_recv_buffers.
    destruct (move_buffers_greedy sys_recv (fd pipe) Hrecv buffers fuel sk
                (count_buffers buffers 0) 0 [] Hpos Hcount ltac:(lia) ltac:(lia) Hfuel)
      as (ts & sk' & Hrun & Hmap).
    exists ts, sk'. rewrite Hrun, Hcount. split; [reflexivity|exact Hmap].
Qed.

(** X10. An empty segment ahead of data stops the transfer: the system
    call for it is asked for zero bytes, answers zero, and that is taken
    for the end of the stream, so the call returns [PIPE_ERROR_IO] with
    nothing moved, whatever the socket could have taken. *)
Theorem empty_segment_reads_as_end_of_stream (fuel : nat) (pipe : NetPipe) (sk : Sock)
    (b : AndroidPipeBuffer) (rest : list AndroidPipeBuffer) :
  (forall s fdv ptr, len (fst (sys_send s fdv ptr 0)) = 0) ->
  (forall s fdv ptr, len (fst (sys_recv s fdv ptr 0)) = 0) ->
  state pipe = STATE_CONNECTED ->
  size b = 0 -> buffers_ok rest -> 0 < sum_sizes rest ->
  (0 < fuel)%nat ->
  net_pipe_send_buffers fuel pipe sk (b :: rest)
  = Some (PIPE_ERROR_IO, [fst (sys_send sk (fd pipe) (data b) 0)],
          snd (sys_send sk (fd pipe) (data b) 0)) /\
  net_pipe_recv_buffers fuel pipe sk (b :: rest)
  = Some (PIPE_ERROR_IO, [fst (sys_recv sk (fd pipe) (data b) 0)],
          snd (sys_recv sk (fd pipe) (data b) 0)).
Proof.
  intros Hs0 Hr0 Hst Hb [Hsz Hsum] Hpos Hfuel.
  assert (Hcount : count_buffers (b :: rest) 0 = sum_sizes rest).
  { rewrite count_buffers_sum.
    - simpl. lia.
    - constructor; [lia|exact Hsz].
    - lia.
    - simpl. lia. }
  destruct fuel as [|fuel]; [lia|].
  assert (Hloop : forall io,
            (forall s fdv ptr, len (fst (io s fdv ptr 0)) = 0) ->
            move_buffers (S fuel) io (fd pipe) sk (b :: rest) 0
              (count_buffers (b :: rest) 0) 0 []
            = Some (PIPE_ERROR_IO, [fst (io sk (fd pipe) (data b) 0)],
                    snd (io sk (fd pipe) (data b) 0))).
  { intros io Hio. rewrite Hcount. cbn [move_buffers].
    replace (sum_sizes rest >? 0) with true by (symmetry; apply Z.gtb_lt; lia).
    rewrite Hb, Z.add_0_r. change (to_uint64 (to_int (0 - 0))) with 0.
    pose proof (Hio sk (fd pipe) (data b)) as Hlen.
    destruct (io sk (fd pipe) (data b) 0) as [r sk1]. cbn [fst snd] in *.
    rewrite Hlen. reflexivity. }
  split.
  - unfold net_pipe_send_buffers, net_pipe_ready_send. rewrite Hst. cbn [pipe_state_eqb].
    change (negb (0 =? 0)) with false. cbv iota. apply Hloop. exact Hs0.
  - unfold net_pipe_recv_buffers. apply Hloop. exact Hr0.
Qed.


End Pipe.

(** ** The model at work

    The scripted socket, with the error codes and wake flags set to
    -1, -2, -4 and 2, 4. *)

Lemma script_io_bounded : bounded_io script script_io.
Proof. intros sk fdv ptr n Hn. destruct sk as [|r sk]; simpl; lia. Qed.

Lemma mover_returns_bytes_moved_witness :
  let pipe := mkNetPipe (Some 1) STATE_CONNECTED 0 0 5 in
  let answers := [mkRes 3 EOTHER; mkRes (-1) EAGAIN] in
  let buffers := [mkBuffer 4096 4; mkBuffer 8192 2] in
  (exists rv t sk',
      net_pipe_send_buffers (-1) (-2) (-4) script script_io 8 pipe answers buffers
      = Some (rv, t, sk') /\
      mover_claim (-2) (-4) rv t) /\
  (exists rv t sk',
      net_pipe_recv_buffers (-2) (-4) script script_io 8 pipe answers buffers
      = Some (rv, t, sk') /\
      mover_claim (-2) (-4) rv t).
Proof.
  apply (mover_returns_bytes_moved (-1) (-2) (-4) script script_io script_io).
  - lia.
  - exact script_io_bounded.
  - exact script_io_bounded.
  - split.
    + repeat constructor; simpl; lia.
    + unfold INT_MAX. simpl. lia.
  - simpl. lia.
Defined.

Lemma zero_length_transfer_witness :
  let pipe := mkNetPipe (Some 1) STATE_CONNECTED 0 0 5 in
  let answers := [mkRes 3 EOTHER] in
  let buffers := [mkBuffer 4096 0] in
  net_pipe_send_buffers (-1) (-2) (-4) script script_io 0 pipe answers buffers
  = Some (0, [], answers) /\
  net_pipe_recv_buffers (-2) (-4) script script_io 0 pipe answers buffers
  = Some (0, [], answers) /\
  0 <> -2 /\ 0 <> -4 /\ 0 <> -1.
Proof.
  apply (zero_length_transfer (-1) (-2) (-4) script script_io script_io).
  - lia.
  - lia.
  - lia.
  - reflexivity.
  - repeat constructor; simpl; lia.
  - reflexivity.
Defined.

(** C2. [net_pipe_send_buffers] refuses to run while the connection is
    connecting and answers [PIPE_ERROR_AGAIN] without a system call;
    [net_pipe_recv_buffers] has no such check: on the same connection it
    calls [recv] (twice, the second call would block), and returns the 3
    bytes the socket hands over, or
    [PIPE_ERROR_IO] when the socket fails. *)
Theorem recv_runs_while_connecting (INVAL AGAIN IO : Z) :
  AGAIN < 0 ->
  let pipe := mkNetPipe (Some 1) STATE_CONNECTING 0 0 5 in
  let buffers := [mkBuffer 4096 4] in
  net_pipe_send_buffers INVAL AGAIN IO script script_io 8 pipe [mkRes 3 EOTHER] buffers
  = Some (AGAIN, [], [mkRes 3 EOTHER]) /\
  net_pipe_recv_buffers AGAIN IO script script_io 8 pipe [mkRes 3 EOTHER] buffers
  = Some (3, [mkRes 3 EOTHER; mkRes (-1) EAGAIN], []) /\
  3 <> AGAIN /\
  net_pipe_recv_buffers AGAIN IO script script_io 8 pipe [mkRes (-1) EOTHER] buffers
  = Some (IO, [mkRes (-1) EOTHER], []).
Proof.
  intros Hneg. cbv zeta. split; [|split; [|split]].
  - unfold net_pipe_send_buffers, net_pipe_ready_send. simpl.
    replace (AGAIN =? 0) with false by (symmetry; apply Z.eqb_neq; lia).
    reflexivity.
  - reflexivity.
  - lia.
  - reflexivity.
Qed.

Lemma recv_runs_while_connecting_witness :
  let pipe := mkNetPipe (Some 1) STATE_CONNECTING 0 0 5 in
  let buffers := [mkBuffer 4096 4] in
  net_pipe_send_buffers (-1) (-2) (-4) script script_io 8 pipe [mkRes 3 EOTHER] buffers
  = Some (-2, [], [mkRes 3 EOTHER]) /\
  net_pipe_recv_buffers (-2) (-4) script script_io 8 pipe [mkRes 3 EOTHER] buffers
  = Some (3, [mkRes 3 EOTHER; mkRes (-1) EAGAIN], []) /\
  3 <> -2 /\
  net_pipe_recv_buffers (-2) (-4) script script_io 8 pipe [mkRes (-1) EOTHER] buffers
  = Some (-4, [mkRes (-1) EOTHER], []).
Proof.
  apply (recv_runs_while_connecting (-1) (-2) (-4)). lia.
Defined.

Lemma wake_once_per_arm_witness :
  let pipe := mkNetPipe (Some 1) STATE_CONNECTED 0 0 5 in
  let armed := fst (net_pipe_wake_on 2 4 pipe 2) in
  let first := net_pipe_read_handler 2 4 armed in
  let second := net_pipe_read_handler 2 4 (fst first) in
  wakes (snd first) = 1%nat /\
  Z.land (wakeWanted (fst first)) 2 = 0 /\
  wakes (snd second) = 0%nat.
Proof.
  apply (proj1 (wake_once_per_arm 2 4 ltac:(lia) ltac:(lia))).
Defined.

Lemma failed_connect_closes_once_witness :
  let pipe := mkNetPipe (Some 1) STATE_CONNECTING 4 0 5 in
  let os := [OpWriteReady; OpWakeOn 6; OpConnectDone (-1); OpCloseFromGuest] in
  exists pipe' cs,
    net_pipe_connect_handler 2 4 (-1) pipe = (Some pipe', cs) /\
    state pipe' = STATE_CLOSING_SOCKET /\
    hwpipe pipe' = None /\
    filter is_close cs = [android_pipe_close 1] /\
    total close_notifications (run 2 4 os (Some pipe')) = 0%nat /\
    total close_notifications (run 2 4 (OpConnectDone (-1) :: os) (Some pipe)) = 1%nat.
Proof.
  apply (failed_connect_closes_once 2 4
           (mkNetPipe (Some 1) STATE_CONNECTING 4 0 5) (-1)).
  - reflexivity.
  - lia.
Defined.

Lemma tcp_open_connects_to_localhost_witness :
  snd (net_pipe_init_tcp (fun _ => 7) (fun _ => 7) (Some 1) (Some "5555"%string)) =
  [inet_nonblocking_connect "127.0.0.1:5555"%string].
Proof.
  apply (proj1 (proj2 (proj2 (tcp_open_connects_to_localhost
                                (fun _ => 7) (fun _ => 7) (Some 1) "5555"%string
                                ltac:(discriminate))))).
Defined.

(** C9, as the specification words it, fails on a port string of 54
    characters: the connect is issued against an address that lacks
    its last character. *)
Lemma tcp_open_long_port_is_cut :
  let port := "000000000000000000000000000000000000000000000000005555"%string in
  snd (net_pipe_init_tcp (fun _ => 7) (fun _ => 7) (Some 1) (Some port)) =
    [inet_nonblocking_connect "127.0.0.1:00000000000000000000000000000000000000000000000000555"%string] /\
  snd (net_pipe_init_tcp (fun _ => 7) (fun _ => 7) (Some 1) (Some port)) <>
    [inet_nonblocking_connect ("127.0.0.1:" ++ port)%string].
Proof.
  split.
  - reflexivity.
  - intros H. vm_compute in H. discriminate H.
Qed.


(** The scripted socket hands over what it has; a socket that always
    takes, resp. gives, all it is asked for. *)
Definition eager_io (sk : unit) (fdv ptr n : Z) : sysres * unit := (mkRes n EOTHER, sk).

Lemma registration_follows_connection_witness :
  let pipe := mkNetPipe (Some 1) STATE_CONNECTING 0 0 5 in
  let pipe' := mkNetPipe (Some 1) STATE_CONNECTED 2 0 5 in
  let os := [OpWakeOn 2; OpConnectDone 5] in
  fd pipe' = fd pipe /\
  registered (fd pipe) ([] ++ all_calls (run 2 4 os (Some pipe))) = handlers_for 2 4 pipe'.
Proof.
  apply (registration_follows_connection 2 4 (OpWakeOn 2) [OpConnectDone 5]
           (mkNetPipe (Some 1) STATE_CONNECTING 0 0 5)
           (mkNetPipe (Some 1) STATE_CONNECTED 2 0 5) []).
  reflexivity.
Defined.

Lemma read_wake_waits_for_connect_witness :
  let pipe := mkNetPipe (Some 1) STATE_CONNECTING 0 0 5 in
  let armed := net_pipe_wake_on 2 4 pipe 2 in
  fst (registered (fd pipe) ([] ++ snd armed)) = None /\
  exists pipe' cs,
    net_pipe_connect_handler 2 4 5 (fst armed) = (Some pipe', cs) /\
    state pipe' = STATE_CONNECTED /\
    hwpipe pipe' = hwpipe pipe /\
    fst (registered (fd pipe) ([] ++ snd armed ++ cs)) = Some io_read_handler /\
    wakes cs = 0%nat /\ closes cs = 0%nat.
Proof.
  apply (read_wake_waits_for_connect 2 4 (mkNetPipe (Some 1) STATE_CONNECTING 0 0 5) 5 []).
  - reflexivity.
  - lia.
  - lia.
Defined.

Lemma poll_reports_recorded_readiness_witness :
  let pipe := mkNetPipe (Some 1) STATE_CONNECTED 0 0 5 in
  let pipe' := mkNetPipe (Some 1) STATE_CONNECTED 0 2 5 in
  Z.land (net_pipe_poll (fst (net_pipe_read_handler 2 4 pipe))) 2 = 2 /\
  Z.land (net_pipe_poll (fst (net_pipe_write_handler 2 4 pipe))) 4 = 4 /\
  Z.land (net_pipe_poll (fst (net_pipe_wake_on 2 4 pipe 6))) 6 = 0 /\
  0 <= wakeActual pipe' < 2 ^ 32 /\
  net_pipe_poll pipe' = wakeActual pipe' /\
  Z.land (net_pipe_poll pipe') (Z.lnot (Z.lor 2 4)) = 0.
Proof.
  pose proof (poll_reports_recorded_readiness 2 4
                (mkNetPipe (Some 1) STATE_CONNECTED 0 0 5) 6 [OpWakeOn 2; OpReadReady]
                (mkNetPipe (Some 1) STATE_CONNECTED 0 2 5)
                ltac:(lia) ltac:(lia)) as (H1 & H2 & H3 & H4).
  split; [exact H1|]. split; [exact H2|]. split; [exact H3|].
  apply H4; reflexivity.
Defined.

Lemma socket_closed_last_and_unregistered_witness :
  let pipe := mkNetPipe (Some 1) STATE_CONNECTING 0 0 5 in
  let pre := [qemu_set_fd_handler 5 None None;
              qemu_set_fd_handler 5 (Some io_read_handler) None;
              qemu_set_fd_handler 5 None None] in
  @nil call = [] /\ 5 = fd pipe /\ 0 <= 5 /\ keeps_socket pre /\
  registered 5 ([] ++ pre) = (None, None).
Proof.
  apply (socket_closed_last_and_unregistered 2 4
           [OpWakeOn 2; OpConnectDone 5; OpCloseFromGuest]
           (mkNetPipe (Some 1) STATE_CONNECTING 0 0 5) []
           [qemu_set_fd_handler 5 None None;
            qemu_set_fd_handler 5 (Some io_read_handler) None;
            qemu_set_fd_handler 5 None None] [] 5).
  reflexivity.
Defined.

Lemma closing_connection_wakes_null_witness :
  let pipe := mkNetPipe (Some 1) STATE_CONNECTING 4 0 5 in
  exists closing cs,
    net_pipe_connect_handler 2 4 (-1) pipe = (Some closing, cs) /\
    state closing = STATE_CLOSING_SOCKET /\
    hwpipe closing = None /\
    snd (registered (fd pipe) ([] ++ cs)) = Some io_write_handler /\
    filter is_wake (snd (net_pipe_write_handler 2 4 closing))
    = [android_pipe_wake None (Z.lor (wakeActual pipe) 4)].
Proof.
  apply (closing_connection_wakes_null 2 4 (mkNetPipe (Some 1) STATE_CONNECTING 4 0 5)
           (-1) []).
  - reflexivity.
  - lia.
  - simpl. lia.
Defined.

Lemma first_write_after_open_witness :
  let pipe := mkNetPipe (Some 1) STATE_CONNECTING 0 0 7 in
  let os := [OpWakeOn 4; OpConnectDone 7; OpWriteReady] in
  net_pipe_send_buffers (-1) (-2) (-4) script script_io 8 pipe [mkRes 3 EOTHER]
    [mkBuffer 4096 4]
  = Some (-2, [], [mkRes 3 EOTHER]) /\
  filter is_wake (all_calls (run 2 4 os (Some pipe))) = [android_pipe_wake (Some 1) 4] /\
  closes (all_calls (run 2 4 os (Some pipe))) = 0%nat /\
  registered (fd pipe) (all_calls (run 2 4 os (Some pipe))) = (None, None) /\
  final 2 4 os (Some pipe) = Some (mkNetPipe (Some 1) STATE_CONNECTED 0 4 (fd pipe)).
Proof.
  apply (first_write_after_open (-1) (-2) (-4) 2 4 script script_io
           (fun _ => 7) (fun _ => 7) (Some 1) (Some "5555"%string) false
           (mkNetPipe (Some 1) STATE_CONNECTING 0 0 7) 7 8%nat [mkRes 3 EOTHER]
           [mkBuffer 4096 4]).
  - lia.
  - lia.
  - reflexivity.
  - lia.
  - reflexivity.
Defined.

Lemma transfer_within_request_witness :
  let pipe := mkNetPipe (Some 1) STATE_CONNECTED 0 0 5 in
  let answers := [mkRes 3 EOTHER; mkRes (-1) EAGAIN] in
  let buffers := [mkBuffer 4096 4; mkBuffer 8192 2] in
  (exists rv t sk',
      net_pipe_send_buffers (-1) (-2) (-4) script script_io 8 pipe answers buffers
      = Some (rv, t, sk') /\
      moved t <= sum_sizes buffers /\
      Z.of_nat (List.length t) <= sum_sizes buffers /\ rv <= sum_sizes buffers) /\
  (exists rv t sk',
      net_pipe_recv_buffers (-2) (-4) script script_io 8 pipe answers buffers
      = Some (rv, t, sk') /\
      moved t <= sum_sizes buffers /\
      Z.of_nat (List.length t) <= sum_sizes buffers /\ rv <= sum_sizes buffers).
Proof.
  apply (transfer_within_request (-1) (-2) (-4) script script_io script_io).
  - lia.
  - lia.
  - lia.
  - exact script_io_bounded.
  - exact script_io_bounded.
  - split.
    + repeat constructor; simpl; lia.
    + unfold INT_MAX. simpl. lia.
  - simpl. lia.
Defined.

Lemma eager_io_greedy : greedy_io unit eager_io.
Proof. intros sk fdv ptr n Hn. reflexivity. Qed.

Lemma transfer_completes_on_greedy_socket_witness :
  let pipe := mkNetPipe (Some 1) STATE_CONNECTED 0 0 5 in
  let buffers := [mkBuffer 4096 4; mkBuffer 8192 2] in
  (exists t sk',
      net_pipe_send_buffers (-1) (-2) (-4) unit eager_io 2 pipe tt buffers
      = Some (sum_sizes buffers, t, sk') /\ map len t = map size buffers) /\
  (exists t sk',
      net_pipe_recv_buffers (-2) (-4) unit eager_io 2 pipe tt buffers
      = Some (sum_sizes buffers, t, sk') /\ map len t = map size buffers).
Proof.
  apply (transfer_completes_on_greedy_socket (-1) (-2) (-4) unit eager_io eager_io).
  - exact eager_io_greedy.
  - exact eager_io_greedy.
  - reflexivity.
  - repeat constructor; simpl; lia.
  - unfold INT_MAX. simpl. lia.
  - simpl. lia.
Defined.

Lemma empty_segment_reads_as_end_of_stream_witness :
  let pipe := mkNetPipe (Some 1) STATE_CONNECTED 0 0 5 in
  let b := mkBuffer 4096 0 in
  let rest := [mkBuffer 8192 2] in
  net_pipe_send_buffers (-1) (-2) (-4) unit eager_io 8 pipe tt (b :: rest)
  = Some (-4, [fst (eager_io tt (fd pipe) (data b) 0)],
          snd (eager_io tt (fd pipe) (data b) 0)) /\
  net_pipe_recv_buffers (-2) (-4) unit eager_io 8 pipe tt (b :: rest)
  = Some (-4, [fst (eager_io tt (fd pipe) (data b) 0)],
          snd (eager_io tt (fd pipe) (data b) 0)).
Proof.
  apply (empty_segment_reads_as_end_of_stream (-1) (-2) (-4) unit eager_io eager_io).
  - reflexivity.
  - reflexivity.
  - reflexivity.
  - reflexivity.
  - split.
    + repeat constructor; simpl; lia.
    + unfold INT_MAX. simpl. lia.
  - simpl. lia.
  - lia.
Defined.


End NetPipe.

(** * The goldfish tty device ([hw/char/goldfish_tty.c]) *)

Module GoldfishTty.

(** Register offsets and commands. *)
Definition TTY_PUT_CHAR : Z := 0x00.
Definition TTY_BYTES_READY : Z := 0x04.
Definition TTY_CMD : Z := 0x08.
Definition TTY_DATA_PTR : Z := 0x10.
Definition TTY_DATA_LEN : Z := 0x14.
Definition TTY_DATA_PTR_HIGH : Z := 0x18.

Definition TTY_CMD_INT_DISABLE : Z := 0.
Definition TTY_CMD_INT_ENABLE : Z := 1.
Definition TTY_CMD_WRITE_BUFFER : Z := 2.
Definition TTY_CMD_READ_BUFFER : Z := 3.

Definition GOLDFISH_TTY_SAVE_VERSION : Z := 2.

(** [sizeof(s->data)]. *)
Definition DATA_SIZE : Z := 128.

(** [struct tty_state], without the bus plumbing.  [cs] tells whether a
    host character stream is attached; [data] is the 128-byte array, of
    which the first [data_count] bytes are the receive queue. *)
Record tty_state : Type := mkTty {
  cs : bool;
  ptr : Z;
  ptr_len : Z;
  ready : Z;
  data : list byte;
  data_count : Z
}.

(** The device in its surroundings: the level of its interrupt line
    (what [qemu_set_irq] last set), the bytes written to the host stream,
    the guest's memory, and the flag [goldfish_64bit_guest] of
    [hw/misc/vmem.c]. *)
Record machine : Type := mkMachine {
  tty : tty_state;
  irq : bool;
  chr_out : list byte;
  guest_mem : Z -> byte;
  goldfish_64bit_guest : Z
}.

Definition set_tty (m : machine) (s : tty_state) : machine :=
  mkMachine s (irq m) (chr_out m) (guest_mem m) (goldfish_64bit_guest m).
Definition qemu_set_irq (m : machine) (level : bool) : machine :=
  mkMachine (tty m) level (chr_out m) (guest_mem m) (goldfish_64bit_guest m).
Definition qemu_chr_fe_write (m : machine) (bs : list byte) : machine :=
  mkMachine (tty m) (irq m) (chr_out m ++ bs) (guest_mem m) (goldfish_64bit_guest m).
Definition set_guest_mem (m : machine) (mem : Z -> byte) : machine :=
  mkMachine (tty m) (irq m) (chr_out m) mem (goldfish_64bit_guest m).
Definition set_64bit_guest (m : machine) (v : Z) : machine :=
  mkMachine (tty m) (irq m) (chr_out m) (guest_mem m) v.

Definition set_ptr (s : tty_state) (v : Z) : tty_state :=
  mkTty (cs s) v (ptr_len s) (ready s) (data s) (data_count s).
Definition set_ptr_len (s : tty_state) (v : Z) : tty_state :=
  mkTty (cs s) (ptr s) v (ready s) (data s) (data_count s).
Definition set_ready (s : tty_state) (v : Z) : tty_state :=
  mkTty (cs s) (ptr s) (ptr_len s) v (data s) (data_count s).
Definition set_data (s : tty_state) (d : list byte) : tty_state :=
  mkTty (cs s) (ptr s) (ptr_len s) (ready s) d (data_count s).
Definition set_data_count (s : tty_state) (v : Z) : tty_state :=
  mkTty (cs s) (ptr s) (ptr_len s) (ready s) (data s) v.

(** Why [cpu_abort] was called. *)
Inductive abort_reason : Set :=
| BadOffset
| BadCommand
| ReadingMoreThanAvailable.

(** How a device access ends: it returns, or it calls [cpu_abort], which
    does not return ([Fatal] keeps the machine as it is at that point),
    or it runs into undefined behaviour of the C code (a copy past the
    end of [data], a negative length handed to the host stream). *)
Inductive outcome (A : Type) : Type :=
| Done (a : A)
| Fatal (why : abort_reason) (m : machine)
| Undefined.
Arguments Done {A} a.
Arguments Fatal {A} why m.
Arguments Undefined {A}.

(** Guest memory: bytes at flat addresses. *)
Fixpoint mem_write (mem : Z -> byte) (addr : Z) (bs : list byte) : Z -> byte :=
  match bs with
  | [] => mem
  | b :: rest => mem_write (fun a => if a =? addr then b else mem a) (addr + 1) rest
  end.

Fixpoint mem_read (mem : Z -> byte) (addr : Z) (n : nat) : list byte :=
  match n with
  | O => []
  | S k => mem addr :: mem_read mem (addr + 1) k
  end.

(** [deposit64(value, start, length, fieldval)] of [qemu/bitops.h]. *)
Definition deposit64 (value start length fieldval : Z) : Z :=
  let mask := Z.shiftl (Z.ones length) start in
  to_uint64 (Z.lor (Z.land value (Z.lnot mask)) (Z.land (Z.shiftl fieldval start) mask)).

Definition to_int64 (z : Z) : Z := (z + 2 ^ 63) mod 2 ^ 64 - 2 ^ 63.

(** [memcpy(dst + at, src, size)] within an array. *)
Definition array_store (dst : list byte) (at_ : nat) (src : list byte) : list byte :=
  firstn at_ dst ++ src ++ skipn (at_ + List.length src) dst.

(** [memmove(dst, dst + from, n)]. *)
Definition array_shift (dst : list byte) (from n : nat) : list byte :=
  firstn n (skipn from dst) ++ skipn n dst.

(** ** The snapshot file

    A [QEMUFile] is the sequence of bytes still to be read, resp. written
    so far; integers are big-endian.  Reading past the end yields zero
    bytes, and [qemu_get_buffer] returns how many bytes it could read. *)
Definition QEMUFile : Type := list byte.

Definition be_bytes (n : nat) (v : Z) : list byte := rev (le_split n v).
Definition be_value (bs : list byte) : Z := le_combine (rev bs).

Definition take_bytes (n : nat) (f : QEMUFile) : list byte :=
  firstn n (f ++ repeat Byte.x00 n).

Definition qemu_put_be64 (f : QEMUFile) (v : Z) : QEMUFile := f ++ be_bytes 8 v.
Definition qemu_put_be32 (f : QEMUFile) (v : Z) : QEMUFile := f ++ be_bytes 4 v.
Definition qemu_put_byte (f : QEMUFile) (v : Z) : QEMUFile := f ++ [byte.of_Z v].
Definition qemu_put_buffer (f : QEMUFile) (buf : list byte) (size : nat) : QEMUFile :=
  f ++ firstn size buf.

Definition qemu_get_be64 (f : QEMUFile) : Z * QEMUFile :=
  (be_value (take_bytes 8 f), skipn 8 f).
Definition qemu_get_be32 (f : QEMUFile) : Z * QEMUFile :=
  (be_value (take_bytes 4 f), skipn 4 f).
Definition qemu_get_byte (f : QEMUFile) : Z * QEMUFile :=
  (be_value (take_bytes 1 f), skipn 1 f).
Definition qemu_get_buffer (f : QEMUFile) (size : nat) : list byte * QEMUFile :=
  (firstn size f, skipn size f).

(** The accesses a device sees: register writes and reads by the guest,
    and bytes arriving from the host stream. *)
Inductive event : Type :=
| EvWrite (offset value : Z)
| EvRead (offset : Z)
| EvReceive (buf : list byte).

(** Guest memory that is all zero. *)
Definition blank_memory : Z -> byte := fun _ => Byte.x00.

(** Enable, receive five bytes, disable, enable, drain them all. *)
Definition enable_receive_drain : list event :=
  [EvWrite TTY_CMD TTY_CMD_INT_ENABLE;
   EvReceive [Byte.x68; Byte.x65; Byte.x6c; Byte.x6c; Byte.x6f];
   EvWrite TTY_CMD TTY_CMD_INT_DISABLE;
   EvWrite TTY_CMD TTY_CMD_INT_ENABLE;
   EvWrite TTY_DATA_PTR 4096;
   EvWrite TTY_DATA_LEN 5;
   EvWrite TTY_CMD TTY_CMD_READ_BUFFER].

(** A device with 40 buffered bytes and interrupts enabled. *)
Definition forty_bytes : machine :=
  mkMachine (mkTty true 4096 40 1 (repeat Byte.x61 128) 40) true [] blank_memory 0.

(** Three bytes buffered, five asked for. *)
Definition three_bytes : machine :=
  mkMachine
    (mkTty true 4096 5 1 ([Byte.x61; Byte.x62; Byte.x63] ++ repeat Byte.x00 125) 3)
    true [] blank_memory 0.

Section Device.

(** The target the emulator is built for: whether [TARGET_MIPS64] is
    defined, and the width of [target_ulong]. *)
Variable TARGET_MIPS64 : bool.
Variable TARGET_LONG_BITS : Z.

Definition to_target_ulong (z : Z) : Z := z mod 2 ^ TARGET_LONG_BITS.

(** The address [safe_memory_rw_debug] of [hw/misc/vmem.c] hands on to
    [cpu_memory_rw_debug]: a 32-bit guest on a 64-bit MIPS has its
    addresses sign-extended. *)
Definition safe_addr (m : machine) (addr : Z) : Z :=
  let addr := to_target_ulong addr in
  if TARGET_MIPS64 && (goldfish_64bit_guest m =? 0)
  then to_target_ulong (Z.shiftr (to_int64 (to_target_ulong (Z.shiftl addr 32))) 32)
  else addr.

(** [safe_memory_rw_debug] with [is_write = 0], resp. [1]; the result
    code, which the device ignores, is left out. *)
Definition safe_memory_read (m : machine) (addr : Z) (len : nat) : list byte :=
  mem_read (guest_mem m) (safe_addr m addr) len.

Definition safe_memory_write (m : machine) (addr : Z) (buf : list byte) : machine :=
  set_guest_mem m (mem_write (guest_mem m) (safe_addr m addr) buf).

Definition goldfish_tty_save (f : QEMUFile) (s : tty_state) : QEMUFile :=
  let f := qemu_put_be64 f (ptr s) in
  let f := qemu_put_be32 f (ptr_len s) in
  let f := qemu_put_byte f (ready s) in
  let f := qemu_put_byte f (data_count s) in
  qemu_put_buffer f (data s) (Z.to_nat (data_count s)).

(** The result is the returned [int], the rest of the file and the
    machine; reading more than 128 buffered bytes would run over [data]. *)
Definition goldfish_tty_load (f : QEMUFile) (m : machine) (version_id : Z)
  : outcome (Z * QEMUFile * machine) :=
  if negb (version_id =? GOLDFISH_TTY_SAVE_VERSION)
     && negb (version_id =? GOLDFISH_TTY_SAVE_VERSION - 1)
  then Done (-1, f, m)
  else
    let s := tty m in
    let '(v, f) :=
      if version_id =? GOLDFISH_TTY_SAVE_VERSION - 1
      then let '(v32, f) := qemu_get_be32 f in (to_uint64 v32, f)
      else qemu_get_be64 f in
    let s := set_ptr s v in
    let '(v, f) := qemu_get_be32 f in
    let s := set_ptr_len s v in
    let '(v, f) := qemu_get_byte f in
    let s := set_ready s (to_uint32 v) in
    let '(v, f) := qemu_get_byte f in
    let s := set_data_count s (to_uint32 v) in
    if data_count s >? DATA_SIZE then Undefined
    else
      let '(got, f) := qemu_get_buffer f (Z.to_nat (data_count s)) in
      let s := set_data s (array_store (data s) 0 got) in
      if Z.of_nat (List.length got) <? 0 then Done (-1, f, set_tty m s)
      else
        let m := set_tty m s in
        let m := qemu_set_irq m (negb (ready s =? 0) && (data_count s >? 0)) in
        Done (0, f, m).

Definition goldfish_tty_read (offset : Z) (m : machine) : outcome Z :=
  if offset =? TTY_BYTES_READY then Done (data_count (tty m))
  else Fatal BadOffset m.

(** The loop of [TTY_CMD_WRITE_BUFFER]: chunks of at most 64 bytes go
    from guest memory to the host stream.  [None] when [fuel] runs out. *)
Fixpoint write_chunks (fuel : nat) (m : machine) (buf len : Z) : option machine :=
  if len =? 0 then Some m
  else
    match fuel with
    | O => None
    | S fuel' =>
        let to_write := if 64 >? len then len else 64 in
        let temp := safe_memory_read m buf (Z.to_nat to_write) in
        let m := qemu_chr_fe_write m temp in
        write_chunks fuel' m (to_target_ulong (buf + to_write)) (to_int (len - to_write))
    end.

Definition goldfish_tty_write (offset value : Z) (m : machine) : outcome machine :=
  let s := tty m in
  if offset =? TTY_PUT_CHAR then
    Done (if cs s then qemu_chr_fe_write m [byte.of_Z value] else m)
  else if offset =? TTY_CMD then
    if value =? TTY_CMD_INT_DISABLE then
      if negb (ready s =? 0) then
        let m := if data_count s >? 0 then qemu_set_irq m false else m in
        Done (set_tty m (set_ready s 0))
      else Done m
    else if value =? TTY_CMD_INT_ENABLE then
      if ready s =? 0 then
        let m := if data_count s >? 0 then qemu_set_irq m true else m in
        Done (set_tty m (set_ready s 1))
      else Done m
    else if value =? TTY_CMD_WRITE_BUFFER then
      if cs s then
        let buf := to_target_ulong (ptr s) in
        let len := to_int (ptr_len s) in
        if len <? 0 then Undefined
        else match write_chunks (Z.to_nat len) m buf len with
             | Some m' => Done m'
             | None => Undefined
             end
      else Done m
    else if value =? TTY_CMD_READ_BUFFER then
      if ptr_len s >? data_count s then Fatal ReadingMoreThanAvailable m
      else if data_count s >? DATA_SIZE then Undefined
      else
        let m := safe_memory_write m (ptr s) (firstn (Z.to_nat (ptr_len s)) (data s)) in
        let s :=
          if data_count s >? ptr_len s
          then set_data s (array_shift (data s) (Z.to_nat (ptr_len s))
                             (Z.to_nat (data_count s - ptr_len s)))
          else s in
        let s := set_data_count s (to_uint32 (data_count s - ptr_len s)) in
        let m := set_tty m s in
        Done (if (data_count s =? 0) && negb (ready s =? 0)
              then qemu_set_irq m false else m)
    else Fatal BadCommand m
  else if offset =? TTY_DATA_PTR then
    Done (set_tty m (set_ptr s (deposit64 (ptr s) 0 32 value)))
  else if offset =? TTY_DATA_PTR_HIGH then
    let m := set_64bit_guest m 1 in
    Done (set_tty m (set_ptr s (deposit64 (ptr s) 32 32 value)))
  else if offset =? TTY_DATA_LEN then
    Done (set_tty m (set_ptr_len s (to_uint32 value)))
  else Fatal BadOffset m.

Definition tty_can_receive (s : tty_state) : Z :=
  to_int (DATA_SIZE - data_count s).

(** [size] is the length of [buf]; more bytes than [tty_can_receive]
    allows would be copied past the end of [data]. *)
Definition tty_receive (buf : list byte) (m : machine) : outcome machine :=
  let s := tty m in
  let size := Z.of_nat (List.length buf) in
  if size >? DATA_SIZE - data_count s then Undefined
  else
    let s := set_data s (array_store (data s) (Z.to_nat (data_count s)) buf) in
    let s := set_data_count s (to_uint32 (data_count s + size)) in
    let m := set_tty m s in
    Done (if (data_count s >? 0) && negb (ready s =? 0)
          then qemu_set_irq m true else m).

(** The device as [goldfish_tty_realize] leaves it: zeroed, the interrupt
    line low. *)
Definition machine_init (attached : bool) (mem : Z -> byte) : machine :=
  mkMachine (mkTty attached 0 0 0 (repeat Byte.x00 128) 0) false [] mem 0.

Definition step (e : event) (m : machine) : outcome machine :=
  match e with
  | EvWrite offset value => goldfish_tty_write offset value m
  | EvRead offset =>
      match goldfish_tty_read offset m with
      | Done _ => Done m
      | Fatal why m' => Fatal why m'
      | Undefined => Undefined
      end
  | EvReceive buf => tty_receive buf m
  end.

(** A sequence of accesses; it ends where the device aborts. *)
Fixpoint run (es : list event) (m : machine) : outcome machine :=
  match es with
  | [] => Done m
  | e :: es' =>
      match step e m with
      | Done m' => run es' m'
      | stop => stop
      end
  end.

(** The level of the interrupt line after each access of a sequence. *)
Fixpoint irq_levels (es : list event) (m : machine) : list bool :=
  match es with
  | [] => []
  | e :: es' =>
      match step e m with
      | Done m' => irq m' :: irq_levels es' m'
      | _ => []
      end
  end.

(** The receive queue: the buffered bytes, oldest first. *)
Definition receive_buffer (s : tty_state) : list byte :=
  firstn (Z.to_nat (data_count s)) (data s).

(** The interrupt line is high exactly when interrupts are enabled and
    the receive queue is not empty. *)
Definition irq_invariant (m : machine) : Prop :=
  irq m = true <-> (ready (tty m) <> 0 /\ data_count (tty m) > 0).

(** The ranges of the fields, as their C types and the device keep them. *)
Definition tty_wf (s : tty_state) : Prop :=
  0 <= ptr s < 2 ^ 64 /\
  0 <= ptr_len s < 2 ^ 32 /\
  0 <= ready s < 2 ^ 8 /\
  0 <= data_count s <= DATA_SIZE /\
  List.length (data s) = 128%nat.

(** ** The snapshot encoding *)

Lemma be_bytes_length (n : nat) (v : Z) : List.length (be_bytes n v) = n.
Proof. unfold be_bytes. rewrite length_rev. apply length_le_split. Qed.

Lemma be_value_bytes (n : nat) (v : Z) :
  be_value (be_bytes n v) = v mod 2 ^ (Z.of_nat n * 8).
Proof. unfold be_value, be_bytes. rewrite rev_involutive. apply le_combine_split. Qed.

Lemma take_bytes_app (n : nat) (a rest : list byte) :
  List.length a = n -> take_bytes n (a ++ rest) = a.
Proof.
  intros H. unfold take_bytes. rewrite <- app_assoc, firstn_app, H, Nat.sub_diag.
  rewrite <- H, firstn_all. simpl. apply app_nil_r.
Qed.

Lemma skipn_exact (n : nat) (a rest : list byte) :
  List.length a = n -> skipn n (a ++ rest) = rest.
Proof.
  intros H. rewrite skipn_app, H, Nat.sub_diag. rewrite <- H, skipn_all. reflexivity.
Qed.

Lemma get_put_be64 (v : Z) (rest : QEMUFile) :
  qemu_get_be64 (be_bytes 8 v ++ rest) = (to_uint64 v, rest).
Proof.
  unfold qemu_get_be64.
  rewrite take_bytes_app, skipn_exact by apply be_bytes_length.
  rewrite be_value_bytes. reflexivity.
Qed.

Lemma get_put_be32 (v : Z) (rest : QEMUFile) :
  qemu_get_be32 (be_bytes 4 v ++ rest) = (to_uint32 v, rest).
Proof.
  unfold qemu_get_be32.
  rewrite take_bytes_app, skipn_exact by apply be_bytes_length.
  rewrite be_value_bytes. reflexivity.
Qed.

Lemma get_put_byte (v : Z) (rest : QEMUFile) :
  qemu_get_byte (byte.of_Z v :: rest) = (v mod 2 ^ 8, rest).
Proof.
  unfold qemu_get_byte.
  change (take_bytes 1 (byte.of_Z v :: rest)) with [byte.of_Z v].
  change (be_value [byte.of_Z v]) with (le_combine [byte.of_Z v]).
  rewrite le_combine_1, byte.unsigned_of_Z. reflexivity.
Qed.

Lemma get_put_buffer (bs : list byte) (rest : QEMUFile) :
  qemu_get_buffer (bs ++ rest) (List.length bs) = (bs, rest).
Proof.
  unfold qemu_get_buffer. rewrite skipn_exact by reflexivity.
  rewrite firstn_app, Nat.sub_diag, firstn_all. simpl. rewrite app_nil_r. reflexivity.
Qed.

(** What [goldfish_tty_save] writes after the pointer. *)
Definition record_tail (s : tty_state) : list byte :=
  be_bytes 4 (ptr_len s) ++
  byte.of_Z (ready s) :: byte.of_Z (data_count s) :: receive_buffer s.

Lemma save_layout (f : QEMUFile) (s : tty_state) :
  goldfish_tty_save f s = f ++ be_bytes 8 (ptr s) ++ record_tail s.
Proof.
  unfold goldfish_tty_save, record_tail, qemu_put_be64, qemu_put_be32,
    qemu_put_byte, qemu_put_buffer, receive_buffer.
  repeat rewrite <- app_assoc. reflexivity.
Qed.

Lemma receive_buffer_length (s : tty_state) :
  tty_wf s -> List.length (receive_buffer s) = Z.to_nat (data_count s).
Proof.
  intros (_ & _ & _ & Hc & Hl). unfold receive_buffer, DATA_SIZE in *.
  rewrite length_firstn, Hl. lia.
Qed.

Lemma irq_level_iff (r c : Z) :
  negb (r =? 0) && (c >? 0) = true <-> (r <> 0 /\ c > 0).
Proof.
  rewrite andb_true_iff, negb_true_iff, Z.eqb_neq, Z.gtb_lt. lia.
Qed.

(** Loading what follows the pointer gives the saved fields back. *)
Lemma load_record (version_id : Z) (penc : list byte) (rest : QEMUFile)
    (s : tty_state) (target : machine) (p : Z) :
  tty_wf s ->
  (if version_id =? GOLDFISH_TTY_SAVE_VERSION - 1
   then let '(v32, f) := qemu_get_be32 (penc ++ record_tail s ++ rest) in (to_uint64 v32, f)
   else qemu_get_be64 (penc ++ record_tail s ++ rest)) = (p, record_tail s ++ rest) ->
  version_id = GOLDFISH_TTY_SAVE_VERSION \/ version_id = GOLDFISH_TTY_SAVE_VERSION - 1 ->
  exists m',
    goldfish_tty_load (penc ++ record_tail s ++ rest) target version_id = Done (0, rest, m') /\
    ptr (tty m') = p /\
    ptr_len (tty m') = ptr_len s /\
    ready (tty m') = ready s /\
    data_count (tty m') = data_count s /\
    receive_buffer (tty m') = receive_buffer s /\
    (irq m' = true <-> (ready s <> 0 /\ data_count s > 0)) /\
    chr_out m' = chr_out target /\
    cs (tty m') = cs (tty target).
Proof.
  intros Hwf Hptr Hver.
  pose proof (receive_buffer_length s Hwf) as Hlen.
  destruct Hwf as (Hp & Hl & Hr & Hc & Hd). unfold DATA_SIZE in *.
  unfold goldfish_tty_load.
  replace (negb (version_id =? GOLDFISH_TTY_SAVE_VERSION)
           && negb (version_id =? GOLDFISH_TTY_SAVE_VERSION - 1)) with false
    by (destruct Hver as [-> | ->]; reflexivity).
  rewrite Hptr. unfold record_tail at 1. rewrite <- app_assoc.
  rewrite get_put_be32. rewrite <- !app_comm_cons.
  rewrite get_put_byte, get_put_byte.
  cbn [data_count set_data_count set_ready set_ptr_len set_ptr ready data].
  rewrite (Z.mod_small (ready s)) by lia.
  rewrite (Z.mod_small (data_count s)) by lia.
  rewrite !to_uint32_small by lia.
  replace (data_count s >? DATA_SIZE) with false
    by (symmetry; unfold DATA_SIZE; destruct (Z.gtb_spec (data_count s) 128); [lia|reflexivity]).
  rewrite <- Hlen. rewrite get_put_buffer.
  replace (Z.of_nat (Datatypes.length (receive_buffer s)) <? 0) with false
    by (symmetry; apply Z.ltb_ge; lia).
  eexists. split; [reflexivity|].
  cbn [tty set_tty qemu_set_irq ptr ptr_len ready data_count data irq chr_out cs
         set_data set_data_count set_ready set_ptr_len set_ptr].
  split; [reflexivity|]. split; [reflexivity|]. split; [reflexivity|].
  split; [reflexivity|]. split; [|split; [apply irq_level_iff | split; reflexivity]].
  unfold receive_buffer at 1.
  cbn [data data_count]. unfold array_store. simpl firstn. simpl app.
  rewrite <- Hlen.
  rewrite firstn_app, Nat.sub_diag, firstn_all. simpl. apply app_nil_r.
Qed.

(** C8. Saving a device and loading the record again, under the current
    version, gives back the same buffer pointer, buffer length, ready
    flag, occupancy and buffered bytes, and sets the interrupt line high
    exactly when the restored ready flag is set and the occupancy is above
    zero (so the line is as it was on a device that kept it right).  A
    record of the previous version carries a 32-bit pointer, which is what
    the loaded pointer is.  Any other version makes the load fail with
    -1, nothing read and nothing changed. *)
Theorem save_load_roundtrip (source target : machine) (rest f : QEMUFile)
    (p32 version_id : Z) :
  tty_wf (tty source) ->
  0 <= p32 < 2 ^ 32 ->
  version_id <> GOLDFISH_TTY_SAVE_VERSION ->
  version_id <> GOLDFISH_TTY_SAVE_VERSION - 1 ->
  let s := tty source in
  (exists m',
      goldfish_tty_load (goldfish_tty_save [] s ++ rest) target GOLDFISH_TTY_SAVE_VERSION
      = Done (0, rest, m') /\
      ptr (tty m') = ptr s /\
      ptr_len (tty m') = ptr_len s /\
      ready (tty m') = ready s /\
      data_count (tty m') = data_count s /\
      receive_buffer (tty m') = receive_buffer s /\
      (irq m' = true <-> (ready (tty m') <> 0 /\ data_count (tty m') > 0)) /\
      (irq_invariant source -> irq m' = irq source)) /\
  (exists m',
      goldfish_tty_load (be_bytes 4 p32 ++ skipn 8 (goldfish_tty_save [] s) ++ rest)
        target (GOLDFISH_TTY_SAVE_VERSION - 1)
      = Done (0, rest, m') /\
      ptr (tty m') = p32 /\
      ptr_len (tty m') = ptr_len s /\
      ready (tty m') = ready s /\
      data_count (tty m') = data_count s /\
      receive_buffer (tty m') = receive_buffer s /\
      (irq m' = true <-> (ready (tty m') <> 0 /\ data_count (tty m') > 0))) /\
  goldfish_tty_load f target version_id = Done (-1, f, target).
Proof.
  intros Hwf Hp Hv2 Hv1 s.
  assert (Hsave : goldfish_tty_save [] s = be_bytes 8 (ptr s) ++ record_tail s).
  { rewrite save_layout. reflexivity. }
  split; [|split].
  - destruct (load_record GOLDFISH_TTY_SAVE_VERSION (be_bytes 8 (ptr s)) rest s target (ptr s))
      as (m' & Hload & H1 & H2 & H3 & H4 & H5 & H6 & _); try assumption.
    + change (GOLDFISH_TTY_SAVE_VERSION =? GOLDFISH_TTY_SAVE_VERSION - 1) with false.
      cbv iota. rewrite get_put_be64. rewrite to_uint64_small; [reflexivity|apply Hwf].
    + left. reflexivity.
    + exists m'. rewrite Hsave, <- app_assoc.
      split; [exact Hload|].
      repeat (split; [assumption|]). split.
      * rewrite H3, H4. exact H6.
      * intros Hinv. unfold irq_invariant in Hinv. fold s in Hinv.
        destruct (irq m'), (irq source); try reflexivity.
        -- pose proof (proj2 Hinv (proj1 H6 eq_refl)) as Habs. discriminate Habs.
        -- apply H6, Hinv. reflexivity.
  - destruct (load_record (GOLDFISH_TTY_SAVE_VERSION - 1) (be_bytes 4 p32) rest s target p32)
      as (m' & Hload & H1 & H2 & H3 & H4 & H5 & H6 & _); try assumption.
    + change (GOLDFISH_TTY_SAVE_VERSION - 1 =? GOLDFISH_TTY_SAVE_VERSION - 1) with true.
      cbv iota. rewrite get_put_be32.
      rewrite to_uint32_small by exact Hp. rewrite to_uint64_small by lia. reflexivity.
    + right. reflexivity.
    + exists m'. rewrite Hsave.
      rewrite skipn_exact by apply be_bytes_length.
      split; [exact Hload|].
      repeat (split; [assumption|]).
      rewrite H3, H4. exact H6.
  - unfold goldfish_tty_load.
    replace (version_id =? GOLDFISH_TTY_SAVE_VERSION) with false
      by (symmetry; apply Z.eqb_neq; exact Hv2).
    replace (version_id =? GOLDFISH_TTY_SAVE_VERSION - 1) with false
      by (symmetry; apply Z.eqb_neq; exact Hv1).
    reflexivity.
Qed.

(** ** The interrupt line *)

Lemma irq_invariant_bool (m : machine) :
  irq_invariant m <->
  irq m = negb (ready (tty m) =? 0) && (data_count (tty m) >? 0).
Proof.
  unfold irq_invariant. rewrite <- irq_level_iff.
  destruct (irq m), (negb (ready (tty m) =? 0) && (data_count (tty m) >? 0));
    intuition congruence.
Qed.

Lemma write_chunks_frame (fuel : nat) (m : machine) (buf len : Z) (m' : machine) :
  write_chunks fuel m buf len = Some m' ->
  tty m' = tty m /\ irq m' = irq m /\ guest_mem m' = guest_mem m.
Proof.
  revert m buf len. induction fuel as [|fuel IH]; intros m buf len; simpl;
    destruct (len =? 0); intros H; try discriminate H.
  - inversion H. auto.
  - inversion H. auto.
  - apply IH in H. simpl in H. exact H.
Qed.

(** The loop of [TTY_CMD_WRITE_BUFFER] comes to an end. *)
Lemma write_chunks_enough (fuel : nat) (m : machine) (buf len : Z) :
  0 <= len <= INT_MAX -> (Z.to_nat len <= fuel)%nat ->
  exists m', write_chunks fuel m buf len = Some m'.
Proof.
  revert m buf len. induction fuel as [|fuel IH]; intros m buf len Hlen Hfuel; simpl;
    destruct (Z.eqb_spec len 0) as [Hz|Hz]; try (eexists; reflexivity).
  - lia.
  - apply IH.
    + destruct (Z.gtb_spec 64 len); rewrite to_int_small;
        unfold INT_MIN, INT_MAX in *; lia.
    + destruct (Z.gtb_spec 64 len); rewrite to_int_small;
        unfold INT_MIN, INT_MAX in *; lia.
Qed.

Lemma array_shift_length (d : list byte) (from n : nat) :
  List.length d = 128%nat -> (from + n <= 128)%nat ->
  List.length (array_shift d from n) = 128%nat.
Proof.
  intros Hd H. unfold array_shift.
  rewrite length_app, length_firstn, !length_skipn, Hd. lia.
Qed.

Lemma array_store_length (d : list byte) (at_ : nat) (src : list byte) :
  List.length d = 128%nat -> (at_ + List.length src <= 128)%nat ->
  List.length (array_store d at_ src) = 128%nat.
Proof.
  intros Hd H. unfold array_store.
  rewrite !length_app, length_firstn, length_skipn, Hd. lia.
Qed.

Lemma to_uint64_range (z : Z) : 0 <= to_uint64 z < 2 ^ 64.
Proof. unfold to_uint64. apply Z.mod_pos_bound. lia. Qed.

Lemma to_uint32_range (z : Z) : 0 <= to_uint32 z < 2 ^ 32.
Proof. unfold to_uint32. apply Z.mod_pos_bound. lia. Qed.

Ltac tty_cases :=
  repeat match goal with
         | |- context [?a =? ?b] => destruct (Z.eqb_spec a b)
         | |- context [?a >? ?b] => destruct (Z.gtb_spec a b)
         | H : context [?a =? ?b] |- _ => destruct (Z.eqb_spec a b)
         | H : context [?a >? ?b] |- _ => destruct (Z.gtb_spec a b)
         end.

Ltac tty_fields :=
  cbn [tty irq chr_out guest_mem goldfish_64bit_guest set_tty qemu_set_irq
         qemu_chr_fe_write set_guest_mem set_64bit_guest safe_memory_write
         cs ptr ptr_len ready data data_count
         set_ptr set_ptr_len set_ready set_data set_data_count] in *.

Ltac tty_leaf Hinv :=
  let H := fresh "H" in
  intros H; inversion H; subst; clear H; tty_fields;
  split;
  [ repeat split; try (assumption || lia);
    try apply to_uint64_range; try apply to_uint32_range
  | tty_cases; cbn [negb andb] in *;
    first [ reflexivity | exact Hinv | lia | congruence ] ].

(** A register write that returns keeps the fields in range and the
    interrupt line right. *)
Lemma write_invariant (offset value : Z) (m m' : machine) :
  tty_wf (tty m) -> irq_invariant m ->
  goldfish_tty_write offset value m = Done m' ->
  tty_wf (tty m') /\ irq_invariant m'.
Proof.
  intros Hwf Hinv. rewrite irq_invariant_bool in *.
  destruct Hwf as (Hp & Hl & Hr & Hc & Hd).
  unfold goldfish_tty_write. unfold tty_wf, DATA_SIZE in *.
  destruct (offset =? TTY_PUT_CHAR).
  { destruct (cs (tty m)); tty_leaf Hinv. }
  destruct (offset =? TTY_CMD).
  { destruct (value =? TTY_CMD_INT_DISABLE).
    { destruct (Z.eqb_spec (ready (tty m)) 0) as [Hz|Hz]; cbn [negb];
        [|destruct (Z.gtb_spec (data_count (tty m)) 0)]; tty_leaf Hinv. }
    destruct (value =? TTY_CMD_INT_ENABLE).
    { destruct (Z.eqb_spec (ready (tty m)) 0) as [Hz|Hz]; cbn [negb];
        [destruct (Z.gtb_spec (data_count (tty m)) 0)|]; tty_leaf Hinv. }
    destruct (value =? TTY_CMD_WRITE_BUFFER).
    { destruct (cs (tty m)).
      - destruct (to_int (ptr_len (tty m)) <? 0); [discriminate|].
        destruct (write_chunks _ _ _ _) as [mw|] eqn:Hw; [|discriminate].
        apply write_chunks_frame in Hw. destruct Hw as (Ht & Hi & _).
        intros H; inversion H; subst. rewrite Ht, Hi. auto 10.
      - tty_leaf Hinv. }
    destruct (value =? TTY_CMD_READ_BUFFER); [|discriminate].
    destruct (Z.gtb_spec (ptr_len (tty m)) (data_count (tty m))) as [Hgt|Hle];
      [discriminate|].
    destruct (Z.gtb_spec (data_count (tty m)) 128) as [Hbig|_]; [lia|].
    assert (Hsub : to_uint32 (data_count (tty m) - ptr_len (tty m))
                   = data_count (tty m) - ptr_len (tty m))
      by (apply to_uint32_small; lia).
    destruct (Z.gtb_spec (data_count (tty m)) (ptr_len (tty m))) as [Hmore|Hall];
      cbn [data_count set_data_count set_data ready ptr_len]; rewrite Hsub;
      destruct (Z.eqb_spec (data_count (tty m) - ptr_len (tty m)) 0) as [Hz|Hz];
      try lia;
      destruct (Z.eqb_spec (ready (tty m)) 0) as [Hr0|Hr0]; cbn [negb andb];
      tty_leaf Hinv.
    all: apply array_shift_length; [assumption|lia]. }
  destruct (offset =? TTY_DATA_PTR); [tty_leaf Hinv|].
  destruct (offset =? TTY_DATA_PTR_HIGH); [tty_leaf Hinv|].
  destruct (offset =? TTY_DATA_LEN); [|discriminate].
  tty_leaf Hinv.
Qed.

(** So does the arrival of bytes from the host stream. *)
Lemma receive_invariant (buf : list byte) (m m' : machine) :
  tty_wf (tty m) -> irq_invariant m ->
  tty_receive buf m = Done m' ->
  tty_wf (tty m') /\ irq_invariant m'.
Proof.
  intros Hwf Hinv. rewrite irq_invariant_bool in *.
  destruct Hwf as (Hp & Hl & Hr & Hc & Hd).
  unfold tty_wf, DATA_SIZE in *. unfold tty_receive, DATA_SIZE.
  destruct (Z.gtb_spec (Z.of_nat (Datatypes.length buf)) (128 - data_count (tty m)))
    as [Hover|Hfit]; [discriminate|].
  cbn [data_count set_data_count set_data ready].
  rewrite to_uint32_small by lia.
  assert (Hwf' : List.length (array_store (data (tty m)) (Z.to_nat (data_count (tty m))) buf)
                 = 128%nat)
    by (apply array_store_length; [assumption|lia]).
  destruct (Z.gtb_spec (data_count (tty m) + Z.of_nat (Datatypes.length buf)) 0)
    as [Hsome|Hnone];
    destruct (Z.eqb_spec (ready (tty m)) 0) as [Hz|Hz]; cbn [negb andb];
    tty_leaf Hinv.
Qed.

(** An access that aborts has changed nothing. *)
Lemma write_fatal (offset value : Z) (m : machine) (why : abort_reason) (m' : machine) :
  goldfish_tty_write offset value m = Fatal why m' -> m' = m.
Proof.
  unfold goldfish_tty_write.
  destruct (offset =? TTY_PUT_CHAR); [discriminate|].
  destruct (offset =? TTY_CMD).
  { destruct (value =? TTY_CMD_INT_DISABLE).
    { destruct (negb (ready (tty m) =? 0)); discriminate. }
    destruct (value =? TTY_CMD_INT_ENABLE).
    { destruct (ready (tty m) =? 0); discriminate. }
    destruct (value =? TTY_CMD_WRITE_BUFFER).
    { destruct (cs (tty m)); [|discriminate].
      destruct (to_int (ptr_len (tty m)) <? 0); [discriminate|].
      destruct (write_chunks _ _ _ _); discriminate. }
    destruct (value =? TTY_CMD_READ_BUFFER).
    { destruct (ptr_len (tty m) >? data_count (tty m)).
      - intros H. inversion H. reflexivity.
      - destruct (data_count (tty m) >? DATA_SIZE); discriminate. }
    intros H. inversion H. reflexivity. }
  destruct (offset =? TTY_DATA_PTR); [discriminate|].
  destruct (offset =? TTY_DATA_PTR_HIGH); [discriminate|].
  destruct (offset =? TTY_DATA_LEN); [discriminate|].
  intros H. inversion H. reflexivity.
Qed.

Lemma step_fatal (e : event) (m : machine) (why : abort_reason) (m' : machine) :
  step e m = Fatal why m' -> m' = m.
Proof.
  destruct e as [offset value|offset|buf]; simpl.
  - apply write_fatal.
  - unfold goldfish_tty_read. destruct (offset =? TTY_BYTES_READY); [discriminate|].
    intros H. inversion H. reflexivity.
  - unfold tty_receive.
    destruct (Z.of_nat (Datatypes.length buf) >? DATA_SIZE - data_count (tty m));
      discriminate.
Qed.

Lemma step_invariant (e : event) (m m' : machine) :
  tty_wf (tty m) -> irq_invariant m ->
  step e m = Done m' ->
  tty_wf (tty m') /\ irq_invariant m'.
Proof.
  intros Hwf Hinv. destruct e as [offset value|offset|buf]; simpl.
  - apply write_invariant; assumption.
  - unfold goldfish_tty_read. destruct (offset =? TTY_BYTES_READY); [|discriminate].
    intros H. inversion H. subst. split; assumption.
  - apply receive_invariant; assumption.
Qed.

Lemma run_invariant (es : list event) (m : machine) :
  tty_wf (tty m) -> irq_invariant m ->
  match run es m with
  | Done m' | Fatal _ m' => tty_wf (tty m') /\ irq_invariant m'
  | Undefined => True
  end.
Proof.
  revert m. induction es as [|e es IH]; intros m Hwf Hinv; simpl.
  - split; assumption.
  - destruct (step e m) as [m1|why m1|] eqn:Hstep.
    + destruct (step_invariant e m m1 Hwf Hinv Hstep) as [Hwf1 Hinv1].
      apply IH; assumption.
    + apply step_fatal in Hstep. subst m1. split; assumption.
    + exact I.
Qed.

Lemma machine_init_ok (attached : bool) (mem : Z -> byte) :
  tty_wf (tty (machine_init attached mem)) /\ irq_invariant (machine_init attached mem).
Proof.
  split.
  - unfold tty_wf, DATA_SIZE. simpl. repeat split; lia.
  - unfold irq_invariant. simpl. split; [discriminate|]. intros [H _]. contradiction H. reflexivity.
Qed.

(** C3. From the empty initial state, after any sequence of interrupt
    enables and disables, bytes received from the host stream, drains and
    other register accesses, the interrupt line is high if and only if
    interrupts are enabled and the receive queue holds at least one byte;
    this also holds of the state in which the device aborts. *)
Theorem irq_line_invariant (attached : bool) (mem : Z -> byte) (es : list event) :
  (forall m, run es (machine_init attached mem) = Done m ->
             irq m = true <-> (ready (tty m) <> 0 /\ data_count (tty m) > 0)) /\
  (forall why m, run es (machine_init attached mem) = Fatal why m ->
                 irq m = true <-> (ready (tty m) <> 0 /\ data_count (tty m) > 0)).
Proof.
  destruct (machine_init_ok attached mem) as [Hwf Hinv].
  pose proof (run_invariant es _ Hwf Hinv) as H.
  split.
  - intros m Hrun. rewrite Hrun in H. apply H.
  - intros why m Hrun. rewrite Hrun in H. apply H.
Qed.

(** ** Draining the receive queue *)

Lemma mem_write_below (bs : list byte) (mem : Z -> byte) (addr x : Z) :
  x < addr -> mem_write mem addr bs x = mem x.
Proof.
  revert mem addr. induction bs as [|b bs IH]; intros mem addr Hx; simpl.
  - reflexivity.
  - rewrite IH by lia. destruct (Z.eqb_spec x addr); [lia|reflexivity].
Qed.

Lemma mem_read_write (bs : list byte) (mem : Z -> byte) (addr : Z) :
  mem_read (mem_write mem addr bs) addr (List.length bs) = bs.
Proof.
  revert mem addr. induction bs as [|b bs IH]; intros mem addr; simpl.
  - reflexivity.
  - f_equal.
    + rewrite mem_write_below by lia. rewrite Z.eqb_refl. reflexivity.
    + apply IH.
Qed.

(** A drain of no more than what is buffered hands the guest the front of
    the queue and keeps the rest, in order. *)
Lemma drain_within_occupancy (m : machine) :
  tty_wf (tty m) ->
  ptr_len (tty m) <= data_count (tty m) ->
  exists m',
    goldfish_tty_write TTY_CMD TTY_CMD_READ_BUFFER m = Done m' /\
    mem_read (guest_mem m') (safe_addr m (ptr (tty m))) (Z.to_nat (ptr_len (tty m)))
    = firstn (Z.to_nat (ptr_len (tty m))) (receive_buffer (tty m)) /\
    receive_buffer (tty m') = skipn (Z.to_nat (ptr_len (tty m))) (receive_buffer (tty m)) /\
    data_count (tty m') = data_count (tty m) - ptr_len (tty m).
Proof.
  intros (Hp & Hl & Hr & Hc & Hd) Hle. unfold DATA_SIZE in *.
  unfold goldfish_tty_write.
  change (TTY_CMD =? TTY_PUT_CHAR) with false.
  change (TTY_CMD =? TTY_CMD) with true.
  change (TTY_CMD_READ_BUFFER =? TTY_CMD_INT_DISABLE) with false.
  change (TTY_CMD_READ_BUFFER =? TTY_CMD_INT_ENABLE) with false.
  change (TTY_CMD_READ_BUFFER =? TTY_CMD_WRITE_BUFFER) with false.
  change (TTY_CMD_READ_BUFFER =? TTY_CMD_READ_BUFFER) with true.
  cbv iota.
  destruct (Z.gtb_spec (ptr_len (tty m)) (data_count (tty m))) as [Hgt|_]; [lia|].
  unfold DATA_SIZE.
  destruct (Z.gtb_spec (data_count (tty m)) 128) as [Hbig|_]; [lia|].
  set (n := Z.to_nat (ptr_len (tty m))).
  set (c := Z.to_nat (data_count (tty m))).
  assert (Hnc : (n <= c <= 128)%nat) by (unfold n, c; lia).
  assert (Hfront : firstn n (receive_buffer (tty m)) = firstn n (data (tty m))).
  { unfold receive_buffer. fold c. rewrite firstn_firstn. f_equal. lia. }
  assert (Hsub : to_uint32 (data_count (tty m) - ptr_len (tty m))
                 = data_count (tty m) - ptr_len (tty m))
    by (apply to_uint32_small; lia).
  assert (Hback : mem_read
                    (mem_write (guest_mem m) (safe_addr m (ptr (tty m)))
                       (firstn n (data (tty m))))
                    (safe_addr m (ptr (tty m))) n
                  = firstn n (data (tty m))).
  { replace n with (List.length (firstn n (data (tty m)))) at 2
      by (rewrite length_firstn; lia).
    apply mem_read_write. }
  destruct (Z.gtb_spec (data_count (tty m)) (ptr_len (tty m))) as [Hmore|Hall];
    cbn [data_count set_data_count set_data ready ptr_len data]; rewrite Hsub;
    match goal with
    | |- context [if ?b then qemu_set_irq _ _ else _] => destruct b
    end;
    (eexists; split; [reflexivity|]); tty_fields;
    (split; [rewrite Hfront; exact Hback | split; [|reflexivity]]);
    unfold receive_buffer; tty_fields; fold n; fold c.
  1,2: replace (Z.to_nat (data_count (tty m) - ptr_len (tty m))) with (c - n)%nat
         by (unfold n, c; lia);
       unfold array_shift;
       rewrite firstn_app, firstn_firstn, Nat.min_id;
       rewrite length_firstn, length_skipn, Hd;
       replace (c - n - Nat.min (c - n) (128 - n))%nat with 0%nat by lia;
       simpl firstn; rewrite app_nil_r;
       rewrite skipn_firstn_comm; reflexivity.
  1,2: replace (Z.to_nat (data_count (tty m) - ptr_len (tty m))) with 0%nat by lia;
       replace c with n by (unfold n, c; lia);
       rewrite skipn_all2 by (rewrite length_firstn; lia); reflexivity.
Qed.

(** C4. A drain that asks for more bytes than are buffered is fatal:
    the device aborts before it has touched anything, so the receive
    queue and its occupancy are as before, and a drain of a legal length
    [n] from there still hands over the first [n] queued bytes and
    keeps the rest.  A drain within the occupancy does not abort. *)
Theorem drain_beyond_occupancy (m : machine) (n : Z) :
  tty_wf (tty m) ->
  0 <= n <= data_count (tty m) ->
  (ptr_len (tty m) > data_count (tty m) ->
   goldfish_tty_write TTY_CMD TTY_CMD_READ_BUFFER m = Fatal ReadingMoreThanAvailable m /\
   exists m1 m2,
     goldfish_tty_write TTY_DATA_LEN n m = Done m1 /\
     goldfish_tty_write TTY_CMD TTY_CMD_READ_BUFFER m1 = Done m2 /\
     mem_read (guest_mem m2) (safe_addr m (ptr (tty m))) (Z.to_nat n)
     = firstn (Z.to_nat n) (receive_buffer (tty m)) /\
     receive_buffer (tty m2) = skipn (Z.to_nat n) (receive_buffer (tty m)) /\
     data_count (tty m2) = data_count (tty m) - n) /\
  (ptr_len (tty m) <= data_count (tty m) ->
   exists m',
     goldfish_tty_write TTY_CMD TTY_CMD_READ_BUFFER m = Done m' /\
     mem_read (guest_mem m') (safe_addr m (ptr (tty m))) (Z.to_nat (ptr_len (tty m)))
     = firstn (Z.to_nat (ptr_len (tty m))) (receive_buffer (tty m)) /\
     receive_buffer (tty m') = skipn (Z.to_nat (ptr_len (tty m))) (receive_buffer (tty m)) /\
     data_count (tty m') = data_count (tty m) - ptr_len (tty m)).
Proof.
  intros Hwf Hn. split.
  - intros Hgt. split.
    + unfold goldfish_tty_write.
      change (TTY_CMD =? TTY_PUT_CHAR) with false.
      change (TTY_CMD =? TTY_CMD) with true.
      change (TTY_CMD_READ_BUFFER =? TTY_CMD_INT_DISABLE) with false.
      change (TTY_CMD_READ_BUFFER =? TTY_CMD_INT_ENABLE) with false.
      change (TTY_CMD_READ_BUFFER =? TTY_CMD_WRITE_BUFFER) with false.
      change (TTY_CMD_READ_BUFFER =? TTY_CMD_READ_BUFFER) with true.
      cbv iota.
      destruct (Z.gtb_spec (ptr_len (tty m)) (data_count (tty m))); [reflexivity|lia].
    + set (m1 := set_tty m (set_ptr_len (tty m) (to_uint32 n))).
      assert (Hn32 : to_uint32 n = n).
      { destruct Hwf as (_ & _ & _ & Hc & _). unfold DATA_SIZE in Hc.
        apply to_uint32_small. lia. }
      assert (Hwf1 : tty_wf (tty m1)).
      { destruct Hwf as (Hp & Hl & Hr & Hc & Hd). unfold DATA_SIZE in Hc.
        unfold tty_wf, m1. tty_fields. rewrite Hn32. unfold DATA_SIZE.
        repeat split; try (assumption || lia). }
      assert (Hle1 : ptr_len (tty m1) <= data_count (tty m1)).
      { unfold m1. tty_fields. rewrite Hn32. lia. }
      destruct (drain_within_occupancy m1 Hwf1 Hle1) as (m2 & Hrun & Hmem & Hrest & Hcount).
      exists m1, m2. split; [reflexivity|]. split; [exact Hrun|].
      unfold m1 in Hmem, Hrest, Hcount.
      cbn [tty set_tty ptr ptr_len data_count set_ptr_len] in Hmem, Hrest, Hcount.
      rewrite Hn32 in Hmem, Hrest, Hcount.
      split; [exact Hmem|]. split; [exact Hrest|exact Hcount].
  - intros Hle. apply drain_within_occupancy; assumption.
Qed.

(** ** The receive queue as a FIFO *)

Lemma tty_can_receive_room (s : tty_state) :
  tty_wf s -> tty_can_receive s = DATA_SIZE - data_count s.
Proof.
  intros (_ & _ & _ & Hc & _). unfold tty_can_receive, DATA_SIZE in *.
  apply to_int_small. unfold INT_MIN, INT_MAX. lia.
Qed.

Lemma firstn_array_store (d : list byte) (n : nat) (src : list byte) :
  (n + List.length src <= List.length d)%nat ->
  firstn (n + List.length src) (array_store d n src) = firstn n d ++ src.
Proof.
  intros H. unfold array_store.
  rewrite firstn_app, length_firstn.
  replace (Nat.min n (List.length d)) with n by lia.
  replace (n + List.length src - n)%nat with (List.length src) by lia.
  rewrite firstn_app, Nat.sub_diag, firstn_all. simpl firstn at 3. rewrite app_nil_r.
  rewrite firstn_all2 by (rewrite length_firstn; lia). reflexivity.
Qed.

(** Bytes from the host stream go to the back of the queue. *)
Lemma receive_appends (buf : list byte) (m : machine) :
  tty_wf (tty m) ->
  Z.of_nat (List.length buf) <= tty_can_receive (tty m) ->
  exists m',
    tty_receive buf m = Done m' /\
    receive_buffer (tty m') = receive_buffer (tty m) ++ buf /\
    data_count (tty m') = data_count (tty m) + Z.of_nat (List.length buf) /\
    ptr (tty m') = ptr (tty m) /\ ptr_len (tty m') = ptr_len (tty m) /\
    ready (tty m') = ready (tty m) /\ cs (tty m') = cs (tty m) /\
    chr_out m' = chr_out m /\ guest_mem m' = guest_mem m /\
    goldfish_64bit_guest m' = goldfish_64bit_guest m.
Proof.
  intros Hwf Hroom. rewrite (tty_can_receive_room _ Hwf) in Hroom.
  destruct Hwf as (Hp & Hl & Hr & Hc & Hd). unfold DATA_SIZE in *.
  unfold tty_receive, DATA_SIZE.
  destruct (Z.gtb_spec (Z.of_nat (Datatypes.length buf)) (128 - data_count (tty m)))
    as [Hover|_]; [lia|].
  cbn [data_count set_data_count set_data ready].
  rewrite to_uint32_small by lia.
  match goal with
  | |- context [if ?b then qemu_set_irq _ _ else _] => destruct b
  end; (eexists; split; [reflexivity|]); tty_fields;
    (split; [|repeat split; reflexivity]);
    unfold receive_buffer; tty_fields;
    (replace (Z.to_nat (data_count (tty m) + Z.of_nat (Datatypes.length buf)))
       with (Z.to_nat (data_count (tty m)) + List.length buf)%nat by lia);
    apply firstn_array_store; lia.
Qed.

(** X11. A delivery from the host stream that fits the room
    [tty_can_receive] announces is taken whole: the bytes go to the back
    of the receive queue in order, [TTY_BYTES_READY] reads that many more
    and the announced room shrinks by as much; nothing is sent to the host
    stream or written to guest memory. *)
Theorem receive_queues_in_order (buf : list byte) (m : machine) :
  tty_wf (tty m) ->
  Z.of_nat (List.length buf) <= tty_can_receive (tty m) ->
  exists m',
    tty_receive buf m = Done m' /\
    receive_buffer (tty m') = receive_buffer (tty m) ++ buf /\
    goldfish_tty_read TTY_BYTES_READY m'
    = Done (data_count (tty m) + Z.of_nat (List.length buf)) /\
    tty_can_receive (tty m') = tty_can_receive (tty m) - Z.of_nat (List.length buf) /\
    0 <= tty_can_receive (tty m') /\
    chr_out m' = chr_out m /\ guest_mem m' = guest_mem m.
Proof.
  intros Hwf Hroom.
  destruct (receive_appends buf m Hwf Hroom)
    as (m' & Hrun & Hq & Hc & _ & _ & _ & _ & Hout & Hmem & _).
  exists m'. split; [exact Hrun|]. split; [exact Hq|].
  pose proof (tty_can_receive_room _ Hwf) as Hroom0.
  assert (Hroom' : tty_can_receive (tty m') = DATA_SIZE - data_count (tty m')).
  { unfold tty_can_receive. apply to_int_small.
    destruct Hwf as (_ & _ & _ & Hc0 & _).
    unfold INT_MIN, INT_MAX, DATA_SIZE in *. lia. }
  split.
  - unfold goldfish_tty_read. rewrite Z.eqb_refl, Hc. reflexivity.
  - split; [lia|]. split; [lia|]. split; assumption.
Qed.

(** X12. First in, first out through the device: after a delivery from
    the host stream, a drain of [n] bytes hands the guest the first [n]
    bytes of what was queued before followed by what was delivered, and
    the queue keeps the rest. *)
Theorem receive_then_drain_is_fifo (buf : list byte) (n : Z) (m : machine) :
  tty_wf (tty m) ->
  Z.of_nat (List.length buf) <= tty_can_receive (tty m) ->
  0 <= n <= data_count (tty m) + Z.of_nat (List.length buf) ->
  exists m',
    run [EvReceive buf; EvWrite TTY_DATA_LEN n; EvWrite TTY_CMD TTY_CMD_READ_BUFFER] m
    = Done m' /\
    mem_read (guest_mem m') (safe_addr m (ptr (tty m))) (Z.to_nat n)
    = firstn (Z.to_nat n) (receive_buffer (tty m) ++ buf) /\
    receive_buffer (tty m') = skipn (Z.to_nat n) (receive_buffer (tty m) ++ buf) /\
    data_count (tty m') = data_count (tty m) + Z.of_nat (List.length buf) - n.
Proof.
  intros Hwf Hroom Hn.
  destruct (receive_appends buf m Hwf Hroom)
    as (m1 & Hrun1 & Hq & Hc & Hp & Hl & Hr & _ & _ & _ & Hg).
  pose proof (tty_can_receive_room _ Hwf) as Hroom0.
  assert (Hwf1 : tty_wf (tty m1)).
  { destruct Hwf as (Hp0 & Hl0 & Hr0 & Hc0 & Hd0). unfold tty_wf, DATA_SIZE in *.
    rewrite Hp, Hl, Hr, Hc. repeat split; try lia.
    assert (Hlen : List.length (receive_buffer (tty m1)) = Z.to_nat (data_count (tty m1))).
    { rewrite Hq, length_app. unfold receive_buffer at 1.
      rewrite length_firstn, Hd0, Hc. lia. }
    revert Hrun1. unfold tty_receive, DATA_SIZE.
    destruct (Z.gtb_spec (Z.of_nat (Datatypes.length buf)) (128 - data_count (tty m)));
      [discriminate|].
    match goal with
    | |- context [if ?b then qemu_set_irq _ _ else _] => destruct b
    end; intros E; inversion E; tty_fields;
      apply array_store_length; (assumption || lia). }
  set (m2 := set_tty m1 (set_ptr_len (tty m1) (to_uint32 n))).
  assert (Hn32 : to_uint32 n = n).
  { destruct Hwf as (_ & _ & _ & Hc0 & _). unfold DATA_SIZE in *.
    apply to_uint32_small. lia. }
  assert (Hwf2 : tty_wf (tty m2)).
  { destruct Hwf1 as (Hp1 & Hl1 & Hr1 & Hc1 & Hd1). unfold DATA_SIZE in *.
    unfold tty_wf, m2. tty_fields. rewrite Hn32. unfold DATA_SIZE.
    repeat split; try (assumption || lia). }
  assert (Hle2 : ptr_len (tty m2) <= data_count (tty m2)).
  { unfold m2. tty_fields. rewrite Hn32. lia. }
  destruct (drain_within_occupancy m2 Hwf2 Hle2) as (m3 & Hrun3 & Hmem & Hrest & Hcount).
  exists m3. split.
  - cbn [run step]. rewrite Hrun1.
    assert (Hrun2 : goldfish_tty_write TTY_DATA_LEN n m1 = Done m2) by reflexivity.
    rewrite Hrun2, Hrun3. reflexivity.
  - unfold m2 in Hmem, Hrest, Hcount.
    cbn [tty set_tty ptr ptr_len data_count set_ptr_len] in Hmem, Hrest, Hcount.
    rewrite Hn32 in Hmem, Hrest, Hcount.
    replace (receive_buffer (set_ptr_len (tty m1) n)) with (receive_buffer (tty m1))
      in Hmem, Hrest by reflexivity.
    rewrite Hq in Hmem, Hrest. rewrite Hc in Hcount.
    replace (safe_addr (set_tty m1 (set_ptr_len (tty m1) n)) (ptr (tty m1)))
      with (safe_addr m (ptr (tty m))) in Hmem
      by (unfold safe_addr; cbn [goldfish_64bit_guest set_tty]; rewrite Hg, Hp; reflexivity).
    split; [exact Hmem|]. split; [exact Hrest|exact Hcount].
Qed.


(** ** From guest memory to the host stream *)

Lemma mem_read_app (mem : Z -> byte) (addr : Z) (n k : nat) :
  mem_read mem addr (n + k) = mem_read mem addr n ++ mem_read mem (addr + Z.of_nat n) k.
Proof.
  revert addr. induction n as [|n IH]; intros addr.
  - simpl. rewrite Z.add_0_r. reflexivity.
  - cbn [Nat.add mem_read app]. rewrite IH. f_equal. f_equal. f_equal. lia.
Qed.

(** Addresses that [safe_memory_rw_debug] passes on unchanged: any but
    those of a 32-bit guest on a 64-bit MIPS. *)
Definition plain_addresses (m : machine) : Prop :=
  TARGET_MIPS64 && (goldfish_64bit_guest m =? 0) = false.

Lemma write_chunks_copies (fuel : nat) (m : machine) (buf len : Z) (m' : machine) :
  plain_addresses m ->
  0 <= len <= INT_MAX ->
  len = 0 \/ (0 <= buf /\ buf + len <= 2 ^ TARGET_LONG_BITS) ->
  write_chunks fuel m buf len = Some m' ->
  chr_out m' = chr_out m ++ mem_read (guest_mem m) buf (Z.to_nat len).
Proof.
  revert m buf len. induction fuel as [|fuel IH]; intros m buf len Hplain Hlen Hrange; simpl;
    destruct (Z.eqb_spec len 0) as [Hz|Hz]; intros Hrun; try discriminate Hrun.
  - inversion Hrun. subst. simpl. rewrite app_nil_r. reflexivity.
  - inversion Hrun. subst. simpl. rewrite app_nil_r. reflexivity.
  - destruct Hrange as [Hzero | [Hbuf Hend]]; [contradiction|].
    set (tw := if 64 >? len then len else 64) in *.
    assert (Htw : 0 < tw <= len /\ tw <= 64).
    { unfold tw. destruct (Z.gtb_spec 64 len); lia. }
    assert (Hpow : 0 < 2 ^ TARGET_LONG_BITS).
    { destruct (Z.le_gt_cases 0 TARGET_LONG_BITS) as [Hb|Hb].
      - apply Z.pow_pos_nonneg; lia.
      - rewrite Z.pow_neg_r in Hend by lia. lia. }
    apply IH in Hrun.
    + rewrite Hrun. cbn [chr_out qemu_chr_fe_write guest_mem].
      rewrite <- app_assoc. f_equal.
      rewrite to_int_small by (unfold INT_MIN, INT_MAX in *; lia).
      replace (Z.to_nat len) with (Z.to_nat tw + Z.to_nat (len - tw))%nat by lia.
      rewrite mem_read_app. unfold safe_memory_read, safe_addr.
      unfold plain_addresses in Hplain. rewrite Hplain.
      unfold to_target_ulong. rewrite (Z.mod_small buf) by lia.
      f_equal. rewrite Z2Nat.id by lia.
      destruct (Z.eq_dec (len - tw) 0) as [E|E].
      * rewrite E. reflexivity.
      * rewrite Z.mod_small by lia. reflexivity.
    + exact Hplain.
    + rewrite to_int_small by (unfold INT_MIN, INT_MAX in *; lia).
      unfold INT_MAX in *. lia.
    + rewrite to_int_small by (unfold INT_MIN, INT_MAX in *; lia).
      destruct (Z.eq_dec (len - tw) 0) as [E|E]; [left; exact E|right].
      unfold to_target_ulong. rewrite Z.mod_small by lia. lia.
Qed.

(** X13. [TTY_CMD_WRITE_BUFFER] sends the host stream exactly the
    [ptr_len] bytes that lie in guest memory from [ptr] on, in order,
    however many 64-byte chunks that takes, and changes nothing else: not
    the registers, not the receive queue, not the interrupt line, not
    guest memory.  Without a host stream it does nothing. *)
Theorem write_buffer_copies_guest_bytes (m : machine) :
  plain_addresses m ->
  ptr_len (tty m) <= INT_MAX ->
  0 <= ptr_len (tty m) ->
  0 <= ptr (tty m) ->
  ptr (tty m) + ptr_len (tty m) <= 2 ^ TARGET_LONG_BITS ->
  exists m',
    goldfish_tty_write TTY_CMD TTY_CMD_WRITE_BUFFER m = Done m' /\
    chr_out m' =
      (if cs (tty m)
       then chr_out m ++ mem_read (guest_mem m) (ptr (tty m)) (Z.to_nat (ptr_len (tty m)))
       else chr_out m) /\
    tty m' = tty m /\ irq m' = irq m /\ guest_mem m' = guest_mem m.
Proof.
  intros Hplain Hmax Hlen Hptr Hend.
  unfold goldfish_tty_write.
  change (TTY_CMD =? TTY_PUT_CHAR) with false.
  change (TTY_CMD =? TTY_CMD) with true.
  change (TTY_CMD_WRITE_BUFFER =? TTY_CMD_INT_DISABLE) with false.
  change (TTY_CMD_WRITE_BUFFER =? TTY_CMD_INT_ENABLE) with false.
  change (TTY_CMD_WRITE_BUFFER =? TTY_CMD_WRITE_BUFFER) with true.
  cbv iota.
  destruct (cs (tty m)).
  - rewrite (to_int_small (ptr_len (tty m))) by (unfold INT_MIN, INT_MAX in *; lia).
    replace (ptr_len (tty m) <? 0) with false by (symmetry; apply Z.ltb_ge; lia).
    destruct (write_chunks_enough (Z.to_nat (ptr_len (tty m))) m
                (to_target_ulong (ptr (tty m))) (ptr_len (tty m)))
      as (m' & Hrun); [lia|lia|].
    rewrite Hrun. exists m'. split; [reflexivity|].
    destruct (write_chunks_frame _ _ _ _ _ Hrun) as (Ht & Hi & Hm).
    split; [|repeat split; assumption].
    destruct (Z.eq_dec (ptr_len (tty m)) 0) as [E|E].
    + rewrite E in *. destruct (Z.to_nat 0) eqn:E0; [|lia].
      simpl in Hrun. inversion Hrun. simpl. rewrite app_nil_r. reflexivity.
    + assert (Hlt : ptr (tty m) < 2 ^ TARGET_LONG_BITS) by lia.
      unfold to_target_ulong in Hrun. rewrite Z.mod_small in Hrun by lia.
      apply (write_chunks_copies _ _ _ _ _ Hplain) in Hrun; [exact Hrun|lia|].
      right. lia.
  - exists m. repeat split; reflexivity.
Qed.

(** X14. [TTY_PUT_CHAR] writes pass the low byte of each value to the
    host stream at once and in order, and touch nothing else; without a
    host stream they are dropped. *)
Theorem put_char_streams_bytes (values : list Z) (m : machine) :
  exists m',
    run (map (EvWrite TTY_PUT_CHAR) values) m = Done m' /\
    chr_out m' = (if cs (tty m) then chr_out m ++ map byte.of_Z values else chr_out m) /\
    tty m' = tty m /\ irq m' = irq m /\ guest_mem m' = guest_mem m.
Proof.
  revert m. induction values as [|v values IH]; intros m.
  - exists m. simpl. rewrite app_nil_r.
    repeat split; try reflexivity. destruct (cs (tty m)); reflexivity.
  - cbn [map run step]. unfold goldfish_tty_write.
    change (TTY_PUT_CHAR =? TTY_PUT_CHAR) with true. cbv iota.
    destruct (cs (tty m)) eqn:Hcs.
    + destruct (IH (qemu_chr_fe_write m [byte.of_Z v])) as (m' & Hrun & Hout & Ht & Hi & Hm).
      exists m'. split; [exact Hrun|].
      cbn [tty qemu_chr_fe_write chr_out irq guest_mem] in *.
      rewrite Hcs in Hout. rewrite Hout, <- app_assoc.
      repeat split; assumption.
    + destruct (IH m) as (m' & Hrun & Hout & Ht & Hi & Hm).
      exists m'. split; [exact Hrun|]. rewrite Hcs in Hout.
      repeat split; assumption.
Qed.


(** ** The buffer pointer and the 64-bit flag *)

Lemma high_bits_zero (v k n : Z) : 0 <= v < 2 ^ k -> k <= n -> Z.testbit v n = false.
Proof.
  intros Hv Hn. destruct (Z.eq_dec v 0) as [->|Hz]; [apply Z.bits_0|].
  apply Z.bits_above_log2; [lia|].
  assert (Z.log2 v < k); [|lia]. apply Z.log2_lt_pow2; lia.
Qed.

Lemma lor_disjoint_add (hi lo : Z) :
  0 <= lo < 2 ^ 32 -> Z.lor (Z.shiftl hi 32) lo = hi * 2 ^ 32 + lo.
Proof.
  intros Hlo.
  assert (Hd : Z.land (Z.shiftl hi 32) lo = 0).
  { apply Z.bits_inj'. intros i Hi. rewrite Z.land_spec, Z.bits_0.
    destruct (Z.lt_ge_cases i 32).
    - rewrite Z.shiftl_spec_low by lia. reflexivity.
    - rewrite (high_bits_zero lo 32 i) by lia. apply andb_false_r. }
  rewrite <- Z.lxor_lor by exact Hd.
  rewrite <- Z.add_nocarry_lxor by exact Hd.
  rewrite Z.shiftl_mul_pow2 by lia. reflexivity.
Qed.

Lemma deposit_both (p lo hi : Z) :
  deposit64 (deposit64 p 0 32 lo) 32 32 hi
  = Z.lor (Z.shiftl (Z.land hi (Z.ones 32)) 32) (Z.land lo (Z.ones 32)).
Proof.
  unfold deposit64, to_uint64. cbv zeta. rewrite <- !Z.land_ones by lia.
  Z.bitblast;
    repeat match goal with
           | |- context [Z.testbit ?f ?l] => destruct (Z.testbit f l)
           end; reflexivity.
Qed.

Lemma deposit_both_swapped (p lo hi : Z) :
  deposit64 (deposit64 p 32 32 hi) 0 32 lo
  = Z.lor (Z.shiftl (Z.land hi (Z.ones 32)) 32) (Z.land lo (Z.ones 32)).
Proof.
  unfold deposit64, to_uint64. cbv zeta. rewrite <- !Z.land_ones by lia.
  Z.bitblast;
    repeat match goal with
           | |- context [Z.testbit ?f ?l] => destruct (Z.testbit f l)
           end; reflexivity.
Qed.

Lemma halves_value (lo hi : Z) :
  Z.lor (Z.shiftl (Z.land hi (Z.ones 32)) 32) (Z.land lo (Z.ones 32))
  = (hi mod 2 ^ 32) * 2 ^ 32 + lo mod 2 ^ 32.
Proof.
  rewrite !Z.land_ones by lia. apply lor_disjoint_add.
  apply Z.mod_pos_bound. lia.
Qed.

(** X15. The two halves of the buffer address, written to [TTY_DATA_PTR]
    and [TTY_DATA_PTR_HIGH] in either order, give the pointer whose high
    32 bits are the low 32 bits of the one value and whose low 32 bits are
    those of the other, whatever the pointer was before; nothing else of
    the device changes, and the guest counts as a 64-bit guest from then
    on. *)
Theorem pointer_written_in_halves (lo hi : Z) (m : machine) :
  exists m1 m2,
    run [EvWrite TTY_DATA_PTR lo; EvWrite TTY_DATA_PTR_HIGH hi] m = Done m1 /\
    run [EvWrite TTY_DATA_PTR_HIGH hi; EvWrite TTY_DATA_PTR lo] m = Done m2 /\
    m1 = m2 /\
    m1 = set_tty (set_64bit_guest m 1)
           (set_ptr (tty m) ((hi mod 2 ^ 32) * 2 ^ 32 + lo mod 2 ^ 32)).
Proof.
  eexists. eexists. split; [reflexivity|]. split; [reflexivity|].
  cbv beta. unfold set_tty, set_64bit_guest, set_ptr. tty_fields.
  rewrite deposit_both, deposit_both_swapped, halves_value.
  split; reflexivity.
Qed.

(** A write to [TTY_DATA_PTR_HIGH]. *)
Definition is_high_pointer_write (e : event) : bool :=
  match e with
  | EvWrite offset _ => offset =? TTY_DATA_PTR_HIGH
  | _ => false
  end.

Lemma write_chunks_flag (fuel : nat) (m : machine) (buf len : Z) (m' : machine) :
  write_chunks fuel m buf len = Some m' ->
  goldfish_64bit_guest m' = goldfish_64bit_guest m.
Proof.
  revert m buf len. induction fuel as [|fuel IH]; intros m buf len; simpl;
    destruct (len =? 0); intros H; try discriminate H.
  - inversion H. reflexivity.
  - inversion H. reflexivity.
  - apply IH in H. exact H.
Qed.

Lemma step_flag (e : event) (m m' : machine) :
  step e m = Done m' ->
  goldfish_64bit_guest m' =
    if is_high_pointer_write e then 1 else goldfish_64bit_guest m.
Proof.
  destruct e as [offset value|offset|buf]; simpl.
  - unfold goldfish_tty_write.
    destruct (Z.eqb_spec offset TTY_PUT_CHAR) as [->|_].
    { intros H. inversion H. destruct (cs (tty m)); reflexivity. }
    destruct (Z.eqb_spec offset TTY_CMD) as [->|_].
    { change (TTY_CMD =? TTY_DATA_PTR_HIGH) with false. cbv iota.
      destruct (value =? TTY_CMD_INT_DISABLE).
      { destruct (negb (ready (tty m) =? 0)); intros H; inversion H; [|reflexivity].
        destruct (data_count (tty m) >? 0); reflexivity. }
      destruct (value =? TTY_CMD_INT_ENABLE).
      { destruct (ready (tty m) =? 0); intros H; inversion H; [|reflexivity].
        destruct (data_count (tty m) >? 0); reflexivity. }
      destruct (value =? TTY_CMD_WRITE_BUFFER).
      { destruct (cs (tty m)); [|intros H; inversion H; reflexivity].
        destruct (to_int (ptr_len (tty m)) <? 0); [discriminate|].
        destruct (write_chunks _ _ _ _) eqn:Hw; [|discriminate].
        intros H. inversion H. subst. apply (write_chunks_flag _ _ _ _ _ Hw). }
      destruct (value =? TTY_CMD_READ_BUFFER); [|discriminate].
      destruct (ptr_len (tty m) >? data_count (tty m)); [discriminate|].
      destruct (data_count (tty m) >? DATA_SIZE); [discriminate|].
      intros H. inversion H.
      match goal with |- context [if ?c then _ else _] => destruct c end; reflexivity. }
    destruct (Z.eqb_spec offset TTY_DATA_PTR) as [->|_].
    { intros H. inversion H. reflexivity. }
    destruct (offset =? TTY_DATA_PTR_HIGH).
    { intros H. inversion H. reflexivity. }
    destruct (offset =? TTY_DATA_LEN); [|discriminate].
    intros H. inversion H. reflexivity.
  - unfold goldfish_tty_read. destruct (offset =? TTY_BYTES_READY); [|discriminate].
    intros H. inversion H. reflexivity.
  - unfold tty_receive.
    destruct (Z.of_nat (List.length buf) >? DATA_SIZE - data_count (tty m)); [discriminate|].
    intros H. inversion H.
    match goal with |- context [if ?c then _ else _] => destruct c end; reflexivity.
Qed.

(** X16. The flag [goldfish_64bit_guest] is set by a write to
    [TTY_DATA_PTR_HIGH] and by nothing else the device does, and is never
    cleared: after a sequence of accesses it is 1 if the sequence has such
    a write, and what it was otherwise. *)
Theorem flag_set_by_high_pointer_write_only (es : list event) (m m' : machine) :
  run es m = Done m' ->
  goldfish_64bit_guest m' =
    if existsb is_high_pointer_write es then 1 else goldfish_64bit_guest m.
Proof.
  revert m. induction es as [|e es IH]; intros m; simpl.
  - intros H. inversion H. reflexivity.
  - destruct (step e m) as [m1| |] eqn:Hstep; try discriminate.
    intros Hrun. apply IH in Hrun. apply step_flag in Hstep.
    rewrite Hrun, Hstep.
    destruct (is_high_pointer_write e), (existsb is_high_pointer_write es); reflexivity.
Qed.

(** X17. On a 64-bit MIPS target, while the guest has not shown itself
    to be a 64-bit guest, [safe_memory_rw_debug] uses the low 32 bits of
    the address, sign-extended to 64 bits; once the flag is set it uses the
    address as it is. *)
Theorem address_sign_extended_for_32bit_guest (m : machine) (addr : Z) :
  TARGET_MIPS64 = true ->
  TARGET_LONG_BITS = 64 ->
  safe_addr m addr =
    if goldfish_64bit_guest m =? 0
    then (if addr mod 2 ^ 32 <? 2 ^ 31
          then addr mod 2 ^ 32
          else 2 ^ 64 - 2 ^ 32 + addr mod 2 ^ 32)
    else addr mod 2 ^ 64.
Proof.
  intros Hmips Hbits. unfold safe_addr, to_target_ulong. rewrite Hmips, Hbits.
  destruct (goldfish_64bit_guest m =? 0); [|reflexivity].
  cbn [andb]. unfold to_int64.
  rewrite Z.shiftl_mul_pow2, Z.shiftr_div_pow2 by lia.
  assert (Hlo : (addr mod 2 ^ 64 * 2 ^ 32) mod 2 ^ 64 = (addr mod 2 ^ 32) * 2 ^ 32).
  { assert (E : (addr mod 2 ^ 64) mod 2 ^ 32 = addr mod 2 ^ 32).
    { apply Z.mod_mod_divide. exists (2 ^ 32). reflexivity. }
    pose proof (Z.div_mod (addr mod 2 ^ 64) (2 ^ 32) ltac:(lia)) as D. rewrite E in D.
    pose proof (Z.mod_pos_bound addr (2 ^ 32) ltac:(lia)) as Hb.
    replace (addr mod 2 ^ 64 * 2 ^ 32)
      with (addr mod 2 ^ 32 * 2 ^ 32 + (addr mod 2 ^ 64 / 2 ^ 32) * 2 ^ 64) by lia.
    rewrite Z.mod_add by lia. apply Z.mod_small. lia. }
  rewrite Hlo.
  pose proof (Z.mod_pos_bound addr (2 ^ 32) ltac:(lia)) as Hb.
  set (lo := addr mod 2 ^ 32) in *.
  destruct (Z.ltb_spec lo (2 ^ 31)) as [Hs|Hs].
  - rewrite (Z.mod_small (lo * 2 ^ 32 + 2 ^ 63)) by lia.
    replace (lo * 2 ^ 32 + 2 ^ 63 - 2 ^ 63) with (lo * 2 ^ 32) by lia.
    rewrite Z.div_mul by lia. apply Z.mod_small. lia.
  - replace (lo * 2 ^ 32 + 2 ^ 63) with (lo * 2 ^ 32 - 2 ^ 63 + 1 * 2 ^ 64) by lia.
    rewrite Z.mod_add by lia.
    rewrite (Z.mod_small (lo * 2 ^ 32 - 2 ^ 63)) by lia.
    replace (lo * 2 ^ 32 - 2 ^ 63 - 2 ^ 63) with ((lo - 2 ^ 32) * 2 ^ 32) by lia.
    rewrite Z.div_mul by lia.
    replace (lo - 2 ^ 32) with (2 ^ 64 - 2 ^ 32 + lo + (-1) * 2 ^ 64) by lia.
    rewrite Z.mod_add by lia. apply Z.mod_small. lia.
Qed.


(** ** What an access leaves alone *)











End Device.

(** ** The model at work, on a 32-bit target *)

Example enable_receive_drain_levels :
  irq_levels false 32 enable_receive_drain (machine_init true blank_memory)
  = [false; true; false; true; true; true; false].
Proof. vm_compute. reflexivity. Qed.

Lemma irq_line_invariant_witness :
  exists m,
    run false 32 enable_receive_drain (machine_init true blank_memory) = Done m /\
    (irq m = true <-> (ready (tty m) <> 0 /\ data_count (tty m) > 0)).
Proof.
  eexists. split.
  - vm_compute. reflexivity.
  - apply (proj1 (irq_line_invariant false 32 true blank_memory enable_receive_drain)).
    vm_compute. reflexivity.
Defined.

Lemma forty_bytes_wf : tty_wf (tty forty_bytes).
Proof. unfold tty_wf, DATA_SIZE. simpl. repeat split; lia. Qed.

Lemma three_bytes_wf : tty_wf (tty three_bytes).
Proof. unfold tty_wf, DATA_SIZE. simpl. repeat split; lia. Qed.

Lemma drain_beyond_occupancy_witness :
  goldfish_tty_write false 32 TTY_CMD TTY_CMD_READ_BUFFER three_bytes
  = Fatal ReadingMoreThanAvailable three_bytes /\
  exists m1 m2,
    goldfish_tty_write false 32 TTY_DATA_LEN 2 three_bytes = Done m1 /\
    goldfish_tty_write false 32 TTY_CMD TTY_CMD_READ_BUFFER m1 = Done m2 /\
    mem_read (guest_mem m2) (safe_addr false 32 three_bytes 4096) 2
    = [Byte.x61; Byte.x62] /\
    receive_buffer (tty m2) = [Byte.x63] /\
    data_count (tty m2) = 1.
Proof.
  apply (proj1 (drain_beyond_occupancy false 32 three_bytes 2 three_bytes_wf
                  ltac:(simpl; lia))).
  simpl. lia.
Defined.

Lemma save_load_roundtrip_witness :
  exists m',
    goldfish_tty_load (goldfish_tty_save [] (tty forty_bytes) ++ [])
      (machine_init true blank_memory) GOLDFISH_TTY_SAVE_VERSION
    = Done (0, [], m') /\
    ptr (tty m') = 4096 /\
    ptr_len (tty m') = 40 /\
    ready (tty m') = 1 /\
    data_count (tty m') = 40 /\
    receive_buffer (tty m') = repeat Byte.x61 40 /\
    (irq m' = true <-> (ready (tty m') <> 0 /\ data_count (tty m') > 0)) /\
    (irq_invariant forty_bytes -> irq m' = true).
Proof.
  apply (proj1 (save_load_roundtrip forty_bytes (machine_init true blank_memory) [] [] 0 3
                  forty_bytes_wf ltac:(lia) ltac:(discriminate) ltac:(discriminate))).
Defined.


(** Three bytes in guest memory at 4096, to be written out. *)
Definition three_in_memory : machine :=
  mkMachine (mkTty true 4096 3 0 (repeat Byte.x00 128) 0) false []
    (mem_write blank_memory 4096 [Byte.x61; Byte.x62; Byte.x63]) 0.

Lemma receive_queues_in_order_witness :
  exists m',
    tty_receive [Byte.x64; Byte.x65] three_bytes = Done m' /\
    receive_buffer (tty m') = receive_buffer (tty three_bytes) ++ [Byte.x64; Byte.x65] /\
    goldfish_tty_read TTY_BYTES_READY m'
    = Done (data_count (tty three_bytes) + Z.of_nat (List.length [Byte.x64; Byte.x65])) /\
    tty_can_receive (tty m')
    = tty_can_receive (tty three_bytes) - Z.of_nat (List.length [Byte.x64; Byte.x65]) /\
    0 <= tty_can_receive (tty m') /\
    chr_out m' = chr_out three_bytes /\ guest_mem m' = guest_mem three_bytes.
Proof.
  apply (receive_queues_in_order [Byte.x64; Byte.x65] three_bytes three_bytes_wf).
  vm_compute. discriminate.
Defined.

Lemma receive_then_drain_is_fifo_witness :
  exists m',
    run false 32
      [EvReceive [Byte.x64; Byte.x65]; EvWrite TTY_DATA_LEN 4;
       EvWrite TTY_CMD TTY_CMD_READ_BUFFER] three_bytes
    = Done m' /\
    mem_read (guest_mem m') (safe_addr false 32 three_bytes (ptr (tty three_bytes)))
      (Z.to_nat 4)
    = firstn (Z.to_nat 4) (receive_buffer (tty three_bytes) ++ [Byte.x64; Byte.x65]) /\
    receive_buffer (tty m')
    = skipn (Z.to_nat 4) (receive_buffer (tty three_bytes) ++ [Byte.x64; Byte.x65]) /\
    data_count (tty m')
    = data_count (tty three_bytes) + Z.of_nat (List.length [Byte.x64; Byte.x65]) - 4.
Proof.
  apply (receive_then_drain_is_fifo false 32 [Byte.x64; Byte.x65] 4 three_bytes
           three_bytes_wf).
  - vm_compute. discriminate.
  - simpl. lia.
Defined.

Lemma write_buffer_copies_guest_bytes_witness :
  exists m',
    goldfish_tty_write false 32 TTY_CMD TTY_CMD_WRITE_BUFFER three_in_memory = Done m' /\
    chr_out m'
    = (if cs (tty three_in_memory)
       then chr_out three_in_memory ++
            mem_read (guest_mem three_in_memory) (ptr (tty three_in_memory))
              (Z.to_nat (ptr_len (tty three_in_memory)))
       else chr_out three_in_memory) /\
    tty m' = tty three_in_memory /\ irq m' = irq three_in_memory /\
    guest_mem m' = guest_mem three_in_memory.
Proof.
  apply (write_buffer_copies_guest_bytes false 32 three_in_memory).
  - reflexivity.
  - vm_compute. discriminate.
  - simpl. lia.
  - simpl. lia.
  - simpl. lia.
Defined.

Lemma flag_set_by_high_pointer_write_only_witness :
  goldfish_64bit_guest
    (set_tty (set_64bit_guest three_bytes 1) (set_ptr (tty three_bytes) (2 ^ 32 + 8192)))
  = (if existsb is_high_pointer_write [EvWrite TTY_DATA_PTR 8192; EvWrite TTY_DATA_PTR_HIGH 1]
     then 1 else goldfish_64bit_guest three_bytes).
Proof.
  apply (flag_set_by_high_pointer_write_only false 32
           [EvWrite TTY_DATA_PTR 8192; EvWrite TTY_DATA_PTR_HIGH 1] three_bytes).
  vm_compute. reflexivity.
Defined.

Lemma address_sign_extended_for_32bit_guest_witness :
  safe_addr true 64 three_bytes 0x80001000
  = (if goldfish_64bit_guest three_bytes =? 0
     then (if 0x80001000 mod 2 ^ 32 <? 2 ^ 31
           then 0x80001000 mod 2 ^ 32
           else 2 ^ 64 - 2 ^ 32 + 0x80001000 mod 2 ^ 32)
     else 0x80001000 mod 2 ^ 64).
Proof.
  apply (address_sign_extended_for_32bit_guest true 64 three_bytes 0x80001000);
    reflexivity.
Defined.




End GoldfishTty.


(** * The battery device ([hw/misc/goldfish_battery.c]) *)

Module GoldfishBattery.

Definition BATTERY_INT_STATUS : Z := 0x00.
Definition BATTERY_INT_ENABLE : Z := 0x04.
Definition BATTERY_AC_ONLINE : Z := 0x08.
Definition BATTERY_STATUS : Z := 0x0C.
Definition BATTERY_HEALTH : Z := 0x10.
Definition BATTERY_PRESENT : Z := 0x14.
Definition BATTERY_CAPACITY : Z := 0x18.

Definition BATTERY_STATUS_CHANGED : Z := Z.shiftl 1 0.
Definition AC_STATUS_CHANGED : Z := Z.shiftl 1 1.
Definition BATTERY_INT_MASK : Z := Z.lor BATTERY_STATUS_CHANGED AC_STATUS_CHANGED.

Definition POWER_SUPPLY_STATUS_CHARGING : Z := 1.
Definition POWER_SUPPLY_HEALTH_GOOD : Z := 1.

(** [struct goldfish_battery_state], without the bus plumbing; every
    field is a [uint32_t]. *)
Record goldfish_battery_state : Set := mkBattery {
  int_status : Z;
  int_enable : Z;
  ac_online : Z;
  status : Z;
  health : Z;
  present : Z;
  capacity : Z
}.

(** What the device calls in its surroundings. *)
Inductive call : Set :=
| qemu_irq_lower
| error_report (func : string) (offset : Z).

(** The result is the returned value, the device and the calls made. *)
Definition goldfish_battery_read (offset : Z) (s : goldfish_battery_state)
  : Z * goldfish_battery_state * list call :=
  if offset =? BATTERY_INT_STATUS then
    let ret := Z.land (int_status s) (int_enable s) in
    if negb (ret =? 0)
    then (ret,
          mkBattery 0 (int_enable s) (ac_online s) (status s) (health s) (present s)
            (capacity s),
          [qemu_irq_lower])
    else (ret, s, [])
  else if offset =? BATTERY_INT_ENABLE then (int_enable s, s, [])
  else if offset =? BATTERY_AC_ONLINE then (ac_online s, s, [])
  else if offset =? BATTERY_STATUS then (status s, s, [])
  else if offset =? BATTERY_HEALTH then (health s, s, [])
  else if offset =? BATTERY_PRESENT then (present s, s, [])
  else if offset =? BATTERY_CAPACITY then (capacity s, s, [])
  else (0, s, [error_report "goldfish_battery_read" offset]).

Definition goldfish_battery_write (offset val : Z) (s : goldfish_battery_state)
  : goldfish_battery_state * list call :=
  if offset =? BATTERY_INT_ENABLE then
    (mkBattery (int_status s) (to_uint32 val) (ac_online s) (status s) (health s)
       (present s) (capacity s), [])
  else (s, [error_report "goldfish_audio_write" offset]).

(** [goldfish_battery_realize] sets the five battery values of the
    device it is given and leaves the two interrupt registers as they are. *)
Definition goldfish_battery_realize (s : goldfish_battery_state) : goldfish_battery_state :=
  mkBattery (int_status s) (int_enable s)
    1 POWER_SUPPLY_STATUS_CHARGING POWER_SUPPLY_HEALTH_GOOD 1 50.

(** The guest's accesses. *)
Inductive access : Set :=
| Read (offset : Z)
| Write (offset val : Z).

(** A sequence of accesses: what each read returned (with its offset),
    the calls made, and the device at the end. *)
Fixpoint run (es : list access) (s : goldfish_battery_state)
  : list (Z * Z) * list call * goldfish_battery_state :=
  match es with
  | [] => ([], [], s)
  | Read offset :: es' =>
      let '(ret, s1, calls) := goldfish_battery_read offset s in
      let '(rets, calls', s2) := run es' s1 in
      ((offset, ret) :: rets, calls ++ calls', s2)
  | Write offset val :: es' =>
      let '(s1, calls) := goldfish_battery_write offset val s in
      let '(rets, calls', s2) := run es' s1 in
      (rets, calls ++ calls', s2)
  end.

(** The value of a battery register that [goldfish_battery_realize] sets;
    [None] for the other offsets. *)
Definition battery_value (s : goldfish_battery_state) (offset : Z) : option Z :=
  if offset =? BATTERY_AC_ONLINE then Some (ac_online s)
  else if offset =? BATTERY_STATUS then Some (status s)
  else if offset =? BATTERY_HEALTH then Some (health s)
  else if offset =? BATTERY_PRESENT then Some (present s)
  else if offset =? BATTERY_CAPACITY then Some (capacity s)
  else None.

Definition same_battery (s s' : goldfish_battery_state) : Prop :=
  ac_online s' = ac_online s /\ status s' = status s /\ health s' = health s /\
  present s' = present s /\ capacity s' = capacity s.

Definition known_offset (offset : Z) : bool :=
  existsb (Z.eqb offset)
    [BATTERY_INT_STATUS; BATTERY_INT_ENABLE; BATTERY_AC_ONLINE; BATTERY_STATUS;
     BATTERY_HEALTH; BATTERY_PRESENT; BATTERY_CAPACITY].

Ltac battery_cases :=
  repeat match goal with
         | |- context [?a =? ?b] => destruct (Z.eqb_spec a b); subst
         | H : context [?a =? ?b] |- _ => destruct (Z.eqb_spec a b); subst
         end.

Lemma read_frame (offset : Z) (s : goldfish_battery_state) :
  let '(ret, s', calls) := goldfish_battery_read offset s in
  same_battery s s' /\ int_enable s' = int_enable s /\
  (int_status s' = int_status s \/ int_status s' = 0) /\
  (forall v, battery_value s offset = Some v -> ret = v /\ s' = s /\ calls = []).
Proof.
  unfold goldfish_battery_read, battery_value, same_battery.
  destruct (Z.eqb_spec offset BATTERY_INT_STATUS) as [->|_].
  { destruct (negb (Z.land (int_status s) (int_enable s) =? 0)); simpl;
      repeat split; auto; congruence. }
  destruct (Z.eqb_spec offset BATTERY_INT_ENABLE) as [->|_].
  { simpl. repeat split; auto; congruence. }
  repeat match goal with
         | |- context [offset =? ?b] => destruct (offset =? b)
         end;
    repeat split; auto; congruence.
Qed.

Lemma write_frame (offset val : Z) (s : goldfish_battery_state) :
  same_battery s (fst (goldfish_battery_write offset val s)) /\
  int_status (fst (goldfish_battery_write offset val s)) = int_status s.
Proof.
  unfold goldfish_battery_write, same_battery.
  destruct (offset =? BATTERY_INT_ENABLE); simpl; repeat split; reflexivity.
Qed.

Lemma same_battery_value (s s' : goldfish_battery_state) (offset : Z) :
  same_battery s s' -> battery_value s' offset = battery_value s offset.
Proof.
  intros (H1 & H2 & H3 & H4 & H5). unfold battery_value.
  rewrite H1, H2, H3, H4, H5. reflexivity.
Qed.

(** X20. Nothing the guest does changes what the battery reports: over
    any sequence of register reads and writes, every read of
    [BATTERY_AC_ONLINE], [BATTERY_STATUS], [BATTERY_HEALTH],
    [BATTERY_PRESENT] and [BATTERY_CAPACITY] returns the value the
    register had at the start, and the five values are the same at the
    end; after [goldfish_battery_realize] these are 1, 1, 1, 1 and 50. *)
Theorem battery_values_are_fixed (es : list access) (s : goldfish_battery_state) :
  let '(rets, _, s') := run es s in
  same_battery s s' /\
  (forall offset ret v,
      In (offset, ret) rets -> battery_value s offset = Some v -> ret = v) /\
  map (battery_value (goldfish_battery_realize s))
    [BATTERY_AC_ONLINE; BATTERY_STATUS; BATTERY_HEALTH; BATTERY_PRESENT; BATTERY_CAPACITY]
  = [Some 1; Some 1; Some 1; Some 1; Some 50].
Proof.
  assert (Hgen : let '(rets, _, s') := run es s in
            same_battery s s' /\
            (forall offset ret v,
                In (offset, ret) rets -> battery_value s offset = Some v -> ret = v)).
  { revert s. induction es as [|[offset|offset val] es IH]; intros s; simpl.
    - split; [unfold same_battery; tauto|]. intros ? ? ? [].
    - pose proof (read_frame offset s) as Hr.
      destruct (goldfish_battery_read offset s) as [[ret s1] calls].
      destruct Hr as (Hsame & _ & _ & Hval).
      specialize (IH s1). destruct (run es s1) as [[rets calls'] s2].
      destruct IH as (Hsame' & Hrets). split.
      + unfold same_battery in *. intuition congruence.
      + intros o r v [Hin|Hin] Hv.
        * inversion Hin. subst. apply Hval in Hv. apply Hv.
        * eapply Hrets; [exact Hin|]. rewrite (same_battery_value s s1) by exact Hsame.
          exact Hv.
    - pose proof (write_frame offset val s) as Hw.
      destruct (goldfish_battery_write offset val s) as [s1 calls].
      destruct Hw as (Hsame & _). simpl in Hsame.
      specialize (IH s1). destruct (run es s1) as [[rets calls'] s2].
      destruct IH as (Hsame' & Hrets). split.
      + unfold same_battery in *. intuition congruence.
      + intros o r v Hin Hv. eapply Hrets; [exact Hin|].
        rewrite (same_battery_value s s1) by exact Hsame. exact Hv. }
  destruct (run es s) as [[rets calls] s']. destruct Hgen as (H1 & H2).
  split; [exact H1|]. split; [exact H2|reflexivity].
Qed.

(** X21. The device has no way to raise an interrupt: no access sets a
    bit of [int_status], so a device whose [int_status] is zero keeps it
    zero, reads 0 from [BATTERY_INT_STATUS] every time, and never touches
    its interrupt line, whatever mask the guest writes. *)
Theorem no_interrupt_without_pending_status (es : list access)
    (s : goldfish_battery_state) :
  int_status s = 0 ->
  let '(rets, calls, s') := run es s in
  int_status s' = 0 /\
  (forall ret, In (BATTERY_INT_STATUS, ret) rets -> ret = 0) /\
  ~ In qemu_irq_lower calls.
Proof.
  revert s. induction es as [|[offset|offset val] es IH]; intros s Hz; simpl.
  - split; [exact Hz|]. split; [intros ? []|intros []].
  - assert (Hr : snd (fst (goldfish_battery_read offset s)) = s /\
                 ~ In qemu_irq_lower (snd (goldfish_battery_read offset s)) /\
                 (offset = BATTERY_INT_STATUS ->
                  fst (fst (goldfish_battery_read offset s)) = 0)).
    { unfold goldfish_battery_read. rewrite Hz. rewrite Z.land_0_l.
      change (negb (0 =? 0)) with false. cbv iota.
      destruct (Z.eqb_spec offset BATTERY_INT_STATUS) as [->|Hne].
      { simpl. repeat split; auto. }
      repeat match goal with
             | |- context [offset =? ?b] => destruct (offset =? b)
             end; simpl; repeat split; auto; try contradiction;
        intros [H|[]]; discriminate H. }
    destruct Hr as (Hr & Hno & Hret).
    destruct (goldfish_battery_read offset s) as [[ret s1] calls].
    simpl in Hr, Hno, Hret. subst s1.
    specialize (IH s Hz). destruct (run es s) as [[rets calls'] s2].
    destruct IH as (Hz' & Hrets & Hcalls).
    split; [exact Hz'|]. split.
    + intros r [Hin|Hin]; [inversion Hin; subst; apply Hret; reflexivity|].
      apply Hrets. exact Hin.
    + intros Hin. apply in_app_or in Hin. tauto.
  - pose proof (write_frame offset val s) as (_ & Hst).
    assert (Hno : ~ In qemu_irq_lower (snd (goldfish_battery_write offset val s))).
    { unfold goldfish_battery_write. destruct (offset =? BATTERY_INT_ENABLE); simpl.
      - tauto.
      - intros [H|[]]. discriminate H. }
    destruct (goldfish_battery_write offset val s) as [s1 calls]. simpl in Hst, Hno.
    assert (Hz1 : int_status s1 = 0) by congruence.
    specialize (IH s1 Hz1). destruct (run es s1) as [[rets calls'] s2].
    destruct IH as (Hz' & Hrets & Hcalls).
    split; [exact Hz'|]. split; [exact Hrets|].
    intros Hin. apply in_app_or in Hin. tauto.
Qed.

(** X22. Reading [BATTERY_INT_STATUS] acknowledges: it returns the
    pending bits the mask lets through; when there are any it lowers the
    interrupt line once and clears every pending bit, also those behind
    the mask, so that a second read returns 0 and does nothing; when there
    are none it leaves the device as it is, pending bits behind the mask
    included. *)
Theorem status_read_acknowledges (s : goldfish_battery_state) :
  let '(ret, s1, calls) := goldfish_battery_read BATTERY_INT_STATUS s in
  ret = Z.land (int_status s) (int_enable s) /\
  (ret <> 0 ->
   calls = [qemu_irq_lower] /\ int_status s1 = 0 /\ int_enable s1 = int_enable s /\
   goldfish_battery_read BATTERY_INT_STATUS s1 = (0, s1, [])) /\
  (ret = 0 -> calls = [] /\ s1 = s).
Proof.
  unfold goldfish_battery_read.
  change (BATTERY_INT_STATUS =? BATTERY_INT_STATUS) with true. cbv iota.
  destruct (Z.eqb_spec (Z.land (int_status s) (int_enable s)) 0) as [E|E]; simpl.
  - split; [reflexivity|]. split; [intros H; contradiction|]. intros _. split; reflexivity.
  - split; [reflexivity|]. split; [|intros H; contradiction].
    intros _. repeat split; reflexivity.
Qed.

(** X23. [BATTERY_INT_ENABLE] is the one register the guest can write:
    it keeps the low 32 bits of the value and reads back as such; a write
    to any other offset reports an error and changes nothing, and a read
    of an offset that is no register reports an error and returns 0. *)
Theorem only_the_mask_is_writable (offset val : Z) (s : goldfish_battery_state) :
  (let '(s1, calls) := goldfish_battery_write BATTERY_INT_ENABLE val s in
   calls = [] /\ goldfish_battery_read BATTERY_INT_ENABLE s1 = (val mod 2 ^ 32, s1, []) /\
   int_status s1 = int_status s /\ same_battery s s1) /\
  (offset <> BATTERY_INT_ENABLE ->
   goldfish_battery_write offset val s = (s, [error_report "goldfish_audio_write" offset])) /\
  (known_offset offset = false ->
   goldfish_battery_read offset s = (0, s, [error_report "goldfish_battery_read" offset])).
Proof.
  split; [|split].
  - unfold goldfish_battery_write, goldfish_battery_read, same_battery.
    change (BATTERY_INT_ENABLE =? BATTERY_INT_ENABLE) with true.
    change (BATTERY_INT_ENABLE =? BATTERY_INT_STATUS) with false.
    cbv iota. cbn [int_enable int_status ac_online status health present capacity].
    repeat split; reflexivity.
  - intros Hne. unfold goldfish_battery_write.
    destruct (Z.eqb_spec offset BATTERY_INT_ENABLE); [contradiction|reflexivity].
  - unfold known_offset. cbn [existsb]. intros H.
    repeat (apply orb_false_iff in H; destruct H as [? H]).
    unfold goldfish_battery_read.
    repeat match goal with
           | E : (offset =? ?b) = false |- _ => rewrite E; clear E
           end.
    reflexivity.
Qed.

(** ** The model at work *)

(** A freshly created device, realized. *)
Definition realized : goldfish_battery_state :=
  goldfish_battery_realize (mkBattery 0 0 0 0 0 0 0).

Lemma no_interrupt_without_pending_status_witness :
  let '(rets, calls, s') :=
    run [Write BATTERY_INT_ENABLE 3; Read BATTERY_INT_STATUS; Read BATTERY_CAPACITY] realized in
  int_status s' = 0 /\
  (forall ret, In (BATTERY_INT_STATUS, ret) rets -> ret = 0) /\
  ~ In qemu_irq_lower calls.
Proof.
  apply (no_interrupt_without_pending_status
           [Write BATTERY_INT_ENABLE 3; Read BATTERY_INT_STATUS; Read BATTERY_CAPACITY]
           realized).
  reflexivity.
Defined.

Lemma only_the_mask_is_writable_witness :
  goldfish_battery_write BATTERY_CAPACITY 80 realized
  = (realized, [error_report "goldfish_audio_write" BATTERY_CAPACITY]) /\
  goldfish_battery_read 0x1C realized
  = (0, realized, [error_report "goldfish_battery_read" 0x1C]).
Proof.
  pose proof (only_the_mask_is_writable BATTERY_CAPACITY 80 realized) as (_ & Hw & _).
  pose proof (only_the_mask_is_writable 0x1C 80 realized) as (_ & _ & Hr).
  split.
  - apply Hw. discriminate.
  - apply Hr. reflexivity.
Defined.

End GoldfishBattery.


(** * The ranchu board ([hw/mips/mips_ranchu.c]) *)

Module Ranchu.

Definition ANDROID_CONSOLE_BASEPORT : Z := 5554.
Definition MAX_ANDROID_EMULATORS : Z := 64.
Definition MIPS_CPU_IRQ_BASE : Z := 8.
Definition GOLDFISH_IO_SPACE : Z := 0x1f000000.
Definition VIRTIO_TRANSPORTS : Z := 16.
Definition MAX_GF_TTYS : Z := 3.

(** [DevMapEntry]; a [NULL] name is [None]. *)
Record DevMapEntry : Set := mkDev {
  base : Z;
  size : Z;
  irq : Z;
  qemu_name : option string;
  dt_name : option string;
  dt_compatible : option string
}.

(** The indices of [devmap]. *)
Definition RANCHU_GF_PIC : nat := 0.
Definition RANCHU_GF_TTY : nat := 1.
Definition RANCHU_GF_TIMER : nat := 2.
Definition RANCHU_GF_RTC : nat := 3.
Definition RANCHU_GF_BATTERY : nat := 4.
Definition RANCHU_GF_FB : nat := 5.
Definition RANCHU_GF_EVDEV : nat := 6.
Definition RANCHU_ANDROID_PIPE : nat := 7.
Definition RANCHU_GF_AUDIO : nat := 8.
Definition RANCHU_MMIO : nat := 9.

Definition devmap : list DevMapEntry :=
  [ mkDev GOLDFISH_IO_SPACE 0x1000 0
      None (Some "goldfish_pic"%string) (Some "generic,goldfish-pic"%string);
    mkDev (GOLDFISH_IO_SPACE + 0x02000) 0x1000 2
      (Some "goldfish_tty"%string) (Some "goldfish_tty"%string)
      (Some "generic,goldfish-tty"%string);
    mkDev (GOLDFISH_IO_SPACE + 0x05000) 0x1000 5
      (Some "goldfish_timer"%string) (Some "goldfish_timer"%string)
      (Some "generic,goldfish-timer"%string);
    mkDev (GOLDFISH_IO_SPACE + 0x06000) 0x1000 6
      (Some "goldfish_rtc"%string) (Some "goldfish_rtc"%string)
      (Some "generic,goldfish-rtc"%string);
    mkDev (GOLDFISH_IO_SPACE + 0x07000) 0x1000 7
      (Some "goldfish_battery"%string) (Some "goldfish_battery"%string)
      (Some "generic,goldfish-battery"%string);
    mkDev (GOLDFISH_IO_SPACE + 0x08000) 0x0100 8
      (Some "goldfish_fb"%string) (Some "goldfish_fb"%string)
      (Some "generic,goldfish-fb"%string);
    mkDev (GOLDFISH_IO_SPACE + 0x09000) 0x1000 9
      (Some "goldfish-events"%string) (Some "goldfish_events"%string)
      (Some "generic,goldfish-events-keypad"%string);
    mkDev (GOLDFISH_IO_SPACE + 0x0A000) 0x2000 10
      (Some "android_pipe"%string) (Some "android_pipe"%string)
      (Some "generic,android-pipe"%string);
    mkDev (GOLDFISH_IO_SPACE + 0x0C000) 0x0100 11 None None None;
    mkDev (GOLDFISH_IO_SPACE + 0x10000) 0x0200 16
      (Some "virtio-mmio"%string) (Some "virtio_mmio"%string)
      (Some "virtio,mmio"%string) ].

(** [devmap[i]]. *)
Definition devmap_at (i : nat) : DevMapEntry :=
  nth i devmap (mkDev 0 0 0 None None None).

(** [QEMUMachineInitArgs], as far as the board reads it. *)
Record QEMUMachineInitArgs : Set := mkArgs {
  cpu_model : option string;
  kernel_filename : option string;
  kernel_cmdline : option string;
  initrd_filename : option string
}.

(** The value of a device-tree property. *)
Inductive fdt_value : Set :=
| PropEmpty
| PropString (s : string)
| PropCells (cells : list Z)
| PropSizedCells (cells : list (Z * Z)).

(** What the board code calls.  A character device is named by the port
    it listens on. *)
Inductive call : Set :=
| qemu_fdt_add_subnode (node : string)
| qemu_fdt_setprop (node prop : string) (v : fdt_value)
| sysbus_create_simple (name : string) (addr : Z) (pic_index : Z)
| qemu_chr_new_from_opts_call (port : Z)
| qemu_opts_del (port : Z)
| qemu_chr_fe_claim_no_fail (port : Z)
| adb_server_init_call (port : Z)
| qemu_chr_delete (port : Z)
| monitor_init (port : Z)
| printf_ports (console adb : Z)
| error_report (msg : string)
| exit (code : Z)
| fprintf_stderr (msg : string)
| cpu_mips_init_call (model : string)
| register_savevm (idstr : string)
| qemu_register_reset
| create_device_tree_call
| memory_region_init_ram (name : string) (size : Z)
| vmstate_register_ram_global
| memory_region_add_subregion (offset : Z)
| cpu_mips_irq_init_cpu
| cpu_mips_clock_init
| goldfish_interrupt_init (base : Z)
| qemu_fdt_alloc_phandle_call
| android_load_kernel (ram_size : Z) (kernel cmdline initrd : option string).

(** [printf]'s [%PRIx64]. *)
Definition PRIx64 (z : Z) : string :=
  match z with
  | Z0 => "0"%string
  | Zpos p => HexString.Raw.of_pos p ""
  | Zneg _ => ""%string
  end.

(** The values [i] of [for (i = 0; i < n; i++)]. *)
Definition counting (n : Z) : list Z := map Z.of_nat (seq 0 (Z.to_nat n)).

(** One round of the loop of [create_device]; [pic] tells whether the
    interrupt controller is given.  [None] where the code would use a
    [NULL] name. *)
Definition create_device_round (dev : DevMapEntry) (pic : bool) (num_devices : Z)
    (is_virtio : bool) (i : Z) : option (list call) :=
  let base_i := to_uint64 (base dev + i * size dev) in
  match dt_name dev, dt_compatible dev with
  | Some dt, Some compatible =>
      let nodename := ("/" ++ dt ++ "@" ++ PRIx64 base_i)%string in
      let node :=
        [qemu_fdt_add_subnode nodename;
         qemu_fdt_setprop nodename "compatible" (PropString compatible);
         qemu_fdt_setprop nodename "reg" (PropSizedCells [(1, base_i); (1, size dev)])] in
      if negb pic then
        Some (node ++
              [qemu_fdt_setprop nodename "interrupt-controller" PropEmpty;
               qemu_fdt_setprop nodename "phandle" (PropCells [irq dev]);
               qemu_fdt_setprop nodename "#interrupt-cells" (PropCells [1])])
      else
        match qemu_name dev with
        | Some name =>
            Some (node ++
                  [qemu_fdt_setprop nodename "interrupts"
                     (PropCells [to_int (irq dev + i + MIPS_CPU_IRQ_BASE)]);
                   if is_virtio
                   then sysbus_create_simple name
                          (to_uint64 (base dev + (num_devices - i - 1) * size dev))
                          (to_int (irq dev + num_devices - i - 1))
                   else sysbus_create_simple name base_i (to_int (irq dev + i))])
        | None => None
        end
  | _, _ => None
  end.

(** Rounds one after the other. *)
Fixpoint rounds (f : Z -> option (list call)) (indices : list Z) : option (list call) :=
  match indices with
  | [] => Some []
  | i :: rest =>
      match f i with
      | Some calls =>
          match rounds f rest with
          | Some calls' => Some (calls ++ calls')
          | None => None
          end
      | None => None
      end
  end.

Definition create_device (dev : DevMapEntry) (pic : bool) (num_devices : Z)
    (is_virtio : bool) : option (list call) :=
  rounds (create_device_round dev pic num_devices is_virtio) (counting num_devices).

(** The devices put on the bus, in the order of creation. *)
Definition bus_devices (calls : list call) : list (string * Z * Z) :=
  flat_map (fun c => match c with
                     | sysbus_create_simple name addr idx => [(name, addr, idx)]
                     | _ => []
                     end) calls.

(** The nodes added to the device tree, in order. *)
Definition dt_nodes (calls : list call) : list string :=
  flat_map (fun c => match c with
                     | qemu_fdt_add_subnode node => [node]
                     | _ => []
                     end) calls.

(** The two-cell [reg] properties set: node, address, size. *)
Definition dt_regs (calls : list call) : list (string * Z * Z) :=
  flat_map (fun c => match c with
                     | qemu_fdt_setprop node prop (PropSizedCells [(1, b); (1, s)]) =>
                         if String.eqb prop "reg" then [(node, b, s)] else []
                     | _ => []
                     end) calls.

(** The [interrupts] properties set: node and interrupt number. *)
Definition dt_interrupts (calls : list call) : list (string * Z) :=
  flat_map (fun c => match c with
                     | qemu_fdt_setprop node prop (PropCells [n]) =>
                         if String.eqb prop "interrupts" then [(node, n)] else []
                     | _ => []
                     end) calls.

Section Console.

(** The surroundings: whether a socket character device can be created
    on a port, and whether the ADB server can listen on one. *)
Variable qemu_chr_new_from_opts : Z -> bool.
Variable adb_server_init : Z -> bool.

Definition try_to_create_console_chardev (portno : Z) : option Z * list call :=
  if qemu_chr_new_from_opts portno
  then (Some portno, [qemu_chr_new_from_opts_call portno; qemu_chr_fe_claim_no_fail portno])
  else (None, [qemu_chr_new_from_opts_call portno; qemu_opts_del portno]).

(** The loop of [initialize_console_and_adb]; the result is the console
    port, or [None] when the emulator exits. *)
Fixpoint console_loop (tries : nat) (baseport : Z) : option Z * list call :=
  match tries with
  | O =>
      (None,
       [error_report
          "it seems too many emulator instances are running on this machine. Aborting";
        exit 1])
  | S tries' =>
      let '(chr, c1) := try_to_create_console_chardev baseport in
      match chr with
      | None =>
          let '(r, c) := console_loop tries' (to_int (baseport + 2)) in (r, c1 ++ c)
      | Some chr =>
          let adb := to_int (baseport + 1) in
          if negb (adb_server_init adb)
          then
            let '(r, c) := console_loop tries' (to_int (baseport + 2)) in
            (r, c1 ++ [adb_server_init_call adb; qemu_chr_delete chr] ++ c)
          else
            (Some baseport,
             c1 ++ [adb_server_init_call adb; monitor_init chr; printf_ports baseport adb])
      end
  end.

Definition initialize_console_and_adb : option Z * list call :=
  console_loop (Z.to_nat MAX_ANDROID_EMULATORS) ANDROID_CONSOLE_BASEPORT.

(** Whether both ports of the [k]-th pair can be had. *)
Definition pair_free (k : Z) : bool :=
  qemu_chr_new_from_opts (ANDROID_CONSOLE_BASEPORT + 2 * k)
  && adb_server_init (ANDROID_CONSOLE_BASEPORT + 2 * k + 1).

(** The character devices that exist after a sequence of calls. *)
Fixpoint open_chardevs (calls : list call) (open : list Z) : list Z :=
  match calls with
  | [] => open
  | qemu_chr_fe_claim_no_fail p :: rest => open_chardevs rest (open ++ [p])
  | qemu_chr_delete p :: rest => open_chardevs rest (filter (fun q => negb (q =? p)) open)
  | _ :: rest => open_chardevs rest open
  end.

Definition monitors (calls : list call) : list Z :=
  flat_map (fun c => match c with monitor_init p => [p] | _ => [] end) calls.

Definition exits (calls : list call) : list Z :=
  flat_map (fun c => match c with exit code => [code] | _ => [] end) calls.

Lemma console_loop_first_fit (tries : nat) (k0 : Z) :
  0 <= k0 -> k0 + Z.of_nat tries <= 1000000 ->
  fst (console_loop tries (ANDROID_CONSOLE_BASEPORT + 2 * k0))
  = match find pair_free (map (fun j => k0 + Z.of_nat j) (seq 0 tries)) with
    | Some k => Some (ANDROID_CONSOLE_BASEPORT + 2 * k)
    | None => None
    end.
Proof.
  revert k0. induction tries as [|tries IH]; intros k0 Hk Hmax.
  - reflexivity.
  - assert (Hnext : to_int (ANDROID_CONSOLE_BASEPORT + 2 * k0 + 2)
                    = ANDROID_CONSOLE_BASEPORT + 2 * (k0 + 1)).
    { rewrite to_int_small; unfold ANDROID_CONSOLE_BASEPORT, INT_MIN, INT_MAX; lia. }
    assert (Hadb : to_int (ANDROID_CONSOLE_BASEPORT + 2 * k0 + 1)
                   = ANDROID_CONSOLE_BASEPORT + 2 * k0 + 1).
    { rewrite to_int_small; unfold ANDROID_CONSOLE_BASEPORT, INT_MIN, INT_MAX; lia. }
    assert (Hseq : map (fun j => k0 + Z.of_nat j) (seq 0 (S tries))
                   = k0 :: map (fun j => k0 + 1 + Z.of_nat j) (seq 0 tries)).
    { cbn [seq map]. f_equal; [lia|]. rewrite <- seq_shift, map_map.
      apply map_ext. intros j. lia. }
    rewrite Hseq. cbn [find console_loop]. unfold try_to_create_console_chardev, pair_free at 1.
    rewrite Hnext, Hadb.
    specialize (IH (k0 + 1) ltac:(lia) ltac:(lia)).
    destruct (qemu_chr_new_from_opts (ANDROID_CONSOLE_BASEPORT + 2 * k0)); cbn [andb].
    + destruct (adb_server_init (ANDROID_CONSOLE_BASEPORT + 2 * k0 + 1)); cbn [negb].
      * reflexivity.
      * destruct (console_loop tries _). exact IH.
    + destruct (console_loop tries _). exact IH.
Qed.

(** X24. [initialize_console_and_adb] takes the first pair of ports, of
    the 64 pairs 5554/5555, 5556/5557, ..., on which both the console
    device can be created and the ADB server can listen, and returns with
    the console on the even port; it exits if and only if none of the 64
    pairs can be had. *)
Theorem console_takes_first_free_pair :
  fst initialize_console_and_adb
  = match find pair_free (counting MAX_ANDROID_EMULATORS) with
    | Some k => Some (ANDROID_CONSOLE_BASEPORT + 2 * k)
    | None => None
    end.
Proof.
  unfold initialize_console_and_adb.
  pose proof (console_loop_first_fit (Z.to_nat MAX_ANDROID_EMULATORS) 0) as H.
  rewrite Z.mul_0_r, Z.add_0_r in H. rewrite H.
  - reflexivity.
  - lia.
  - unfold MAX_ANDROID_EMULATORS. lia.
Qed.

Lemma open_chardevs_app (a b : list call) (open : list Z) :
  open_chardevs (a ++ b) open = open_chardevs b (open_chardevs a open).
Proof.
  revert open. induction a as [|c a IH]; intros open; [reflexivity|].
  destruct c; cbn [app open_chardevs]; apply IH.
Qed.

Lemma monitors_app (a b : list call) : monitors (a ++ b) = monitors a ++ monitors b.
Proof. apply flat_map_app. Qed.

Lemma exits_app (a b : list call) : exits (a ++ b) = exits a ++ exits b.
Proof. apply flat_map_app. Qed.

Lemma console_loop_accounts (tries : nat) (baseport : Z) :
  let '(r, calls) := console_loop tries baseport in
  open_chardevs calls [] = match r with Some p => [p] | None => [] end /\
  monitors calls = match r with Some p => [p] | None => [] end /\
  exits calls = match r with Some _ => [] | None => [1] end.
Proof.
  revert baseport. induction tries as [|tries IH]; intros baseport.
  - repeat split.
  - cbn [console_loop]. unfold try_to_create_console_chardev.
    destruct (qemu_chr_new_from_opts baseport).
    + destruct (adb_server_init (to_int (baseport + 1))); cbn [negb].
      * repeat split.
      * specialize (IH (to_int (baseport + 2))).
        destruct (console_loop tries _) as [r c]. destruct IH as (H1 & H2 & H3).
        cbn [app open_chardevs monitors exits flat_map filter].
        rewrite Z.eqb_refl. cbn [negb]. repeat split; assumption.
    + specialize (IH (to_int (baseport + 2))).
      destruct (console_loop tries _) as [r c]. destruct IH as (H1 & H2 & H3).
      cbn [app open_chardevs monitors exits flat_map]. repeat split; assumption.
Qed.

(** X25. However the search goes, it leaves no console device behind:
    every one created on a port whose ADB neighbour cannot be had is
    deleted again, so that at the end the one device that exists is the
    console handed to [monitor_init], and none when the emulator exits;
    [exit(1)] is called exactly when the search fails. *)
Theorem no_console_left_behind :
  let '(r, calls) := initialize_console_and_adb in
  open_chardevs calls [] = match r with Some p => [p] | None => [] end /\
  monitors calls = match r with Some p => [p] | None => [] end /\
  exits calls = match r with Some _ => [] | None => [1] end.
Proof. apply console_loop_accounts. Qed.

End Console.

(** ** Devices and their device-tree nodes *)

Lemma counting_range (n i : Z) : In i (counting n) -> 0 <= i < n.
Proof.
  unfold counting. intros H. apply in_map_iff in H. destruct H as (k & <- & Hk).
  apply in_seq in Hk. lia.
Qed.

Lemma seq_mirror {A : Type} (g : Z -> A) (k : nat) :
  map (fun j => g (Z.of_nat k - Z.of_nat j - 1)) (seq 0 k)
  = rev (map (fun j => g (Z.of_nat j)) (seq 0 k)).
Proof.
  induction k as [|k IH]; [reflexivity|].
  rewrite seq_S at 2. rewrite map_app, rev_app_distr. cbn [map rev app Nat.add].
  cbn [seq map]. f_equal; [f_equal; lia|].
  rewrite <- seq_shift, map_map. rewrite <- IH.
  apply map_ext. intros j. f_equal. lia.
Qed.

Lemma counting_mirror {A : Type} (g : Z -> A) (n : Z) :
  map (fun i => g (n - i - 1)) (counting n) = rev (map g (counting n)).
Proof.
  unfold counting. rewrite !map_map.
  destruct (Z.le_gt_cases 0 n) as [Hn|Hn].
  - rewrite <- seq_mirror. apply map_ext. intros j. f_equal. lia.
  - replace (Z.to_nat n) with O by lia. reflexivity.
Qed.

Lemma dt_nodes_app (a b : list call) : dt_nodes (a ++ b) = dt_nodes a ++ dt_nodes b.
Proof. apply flat_map_app. Qed.

Lemma dt_regs_app (a b : list call) : dt_regs (a ++ b) = dt_regs a ++ dt_regs b.
Proof. apply flat_map_app. Qed.

Lemma dt_interrupts_app (a b : list call) :
  dt_interrupts (a ++ b) = dt_interrupts a ++ dt_interrupts b.
Proof. apply flat_map_app. Qed.

Lemma bus_devices_app (a b : list call) :
  bus_devices (a ++ b) = bus_devices a ++ bus_devices b.
Proof. apply flat_map_app. Qed.

Section CreateDevice.

Variable dev : DevMapEntry.
Variable num_devices : Z.
Variable is_virtio : bool.
Variables name dt compatible : string.

(** The node of the [i]-th instance. *)
Definition nodename (i : Z) : string :=
  ("/" ++ dt ++ "@" ++ PRIx64 (base dev + i * size dev))%string.

Hypothesis Hname : qemu_name dev = Some name.
Hypothesis Hdt : dt_name dev = Some dt.
Hypothesis Hcompatible : dt_compatible dev = Some compatible.
Hypothesis Hbase : 0 <= base dev.
Hypothesis Hsize : 0 <= size dev.
Hypothesis Hend : base dev + num_devices * size dev < 2 ^ 64.
Hypothesis Hirq : 0 <= irq dev.
Hypothesis Hirqs : irq dev + num_devices + MIPS_CPU_IRQ_BASE <= INT_MAX.

Lemma rounds_described (indices : list Z) :
  (forall i, In i indices -> 0 <= i < num_devices) ->
  exists calls,
    rounds (create_device_round dev true num_devices is_virtio) indices = Some calls /\
    dt_nodes calls = map nodename indices /\
    dt_regs calls
    = map (fun i => (nodename i, base dev + i * size dev, size dev)) indices /\
    dt_interrupts calls
    = map (fun i => (nodename i, irq dev + i + MIPS_CPU_IRQ_BASE)) indices /\
    bus_devices calls
    = map (fun i => if is_virtio
                    then (name, base dev + (num_devices - i - 1) * size dev,
                          irq dev + (num_devices - i - 1))
                    else (name, base dev + i * size dev, irq dev + i)) indices.
Proof.
  induction indices as [|i rest IH]; intros Hin.
  - exists []. repeat split; reflexivity.
  - destruct IH as (calls & Hrun & Hn & Hr & Hi & Hb).
    { intros j Hj. apply Hin. right. exact Hj. }
    assert (Hi0 : 0 <= i < num_devices) by (apply Hin; left; reflexivity).
    assert (Hrange : forall j, 0 <= j < num_devices ->
                     to_uint64 (base dev + j * size dev) = base dev + j * size dev).
    { intros j Hj. apply to_uint64_small. split; [nia|]. nia. }
    assert (Hints : forall z, 0 <= z <= irq dev + num_devices + MIPS_CPU_IRQ_BASE ->
                    to_int z = z).
    { intros z Hz. apply to_int_small. unfold INT_MIN, INT_MAX in *. lia. }
    cbn [rounds]. rewrite Hrun. unfold create_device_round. cbv zeta.
    rewrite Hdt, Hcompatible, Hname. cbn [negb].
    rewrite (Hrange i) by lia.
    rewrite (Hrange (num_devices - i - 1)) by lia.
    rewrite (Hints (irq dev + i + MIPS_CPU_IRQ_BASE)) by (unfold MIPS_CPU_IRQ_BASE; lia).
    rewrite (Hints (irq dev + i)) by (unfold MIPS_CPU_IRQ_BASE; lia).
    rewrite (Hints (irq dev + num_devices - i - 1)) by (unfold MIPS_CPU_IRQ_BASE; lia).
    fold (nodename i).
    eexists. split; [reflexivity|].
    rewrite dt_nodes_app, dt_regs_app, dt_interrupts_app, bus_devices_app, Hn, Hr, Hi, Hb.
    destruct is_virtio; repeat split.
    unfold bus_devices. cbn [flat_map app map]. f_equal. f_equal. lia.
Qed.

(** X26. [create_device] with an interrupt controller makes, for a map
    entry with all three names, as many bus devices as device-tree nodes,
    and the two agree: the node of instance [i] gives the address
    [base + i * size] and the interrupt [irq + i + 8], and a device sits at
    that address on line [irq + i] of the controller.  The nodes are added
    lowest address first; the devices are created in the same order, or,
    for virtio transports, highest address first. *)
Theorem device_tree_describes_devices :
  exists calls,
    create_device dev true num_devices is_virtio = Some calls /\
    dt_nodes calls = map nodename (counting num_devices) /\
    dt_regs calls
    = map (fun i => (nodename i, base dev + i * size dev, size dev))
        (counting num_devices) /\
    dt_interrupts calls
    = map (fun i => (nodename i, irq dev + i + MIPS_CPU_IRQ_BASE))
        (counting num_devices) /\
    bus_devices calls
    = (if is_virtio then @rev (string * Z * Z) else id)
        (map (fun i => (name, base dev + i * size dev, irq dev + i))
           (counting num_devices)).
Proof.
  destruct (rounds_described (counting num_devices) (counting_range num_devices))
    as (calls & Hrun & Hn & Hr & Hi & Hb).
  exists calls. repeat split; try assumption.
  rewrite Hb. destruct is_virtio.
  - apply (counting_mirror
             (fun i => (name, base dev + i * size dev, irq dev + i))).
  - reflexivity.
Qed.

End CreateDevice.


(** ** The board *)

(** How [ranchu_init] ends. *)
Inductive ending : Set := Returned | Exited.

Definition set_irq (dev : DevMapEntry) (v : Z) : DevMapEntry :=
  mkDev (base dev) (size dev) v (qemu_name dev) (dt_name dev) (dt_compatible dev).

(** The values [i] of [for (i = hi; i >= lo; i--)]. *)
Definition counting_down (hi lo : nat) : list Z :=
  rev (map Z.of_nat (seq lo (hi + 1 - lo))).

Section Board.

(** The build and the surroundings: whether [TARGET_MIPS64] is defined,
    whether a CPU model is known, whether a device tree can be created,
    the handle it gives out, and the ports that can be had. *)
Variable TARGET_MIPS64 : bool.
Variable cpu_mips_init : string -> bool.
Variable create_device_tree : bool.
Variable qemu_fdt_alloc_phandle : Z.
Variable qemu_chr_new_from_opts : Z -> bool.
Variable adb_server_init : Z -> bool.

Definition chosen_cpu_model (args : QEMUMachineInitArgs) : string :=
  match cpu_model args with
  | Some model => model
  | None => if TARGET_MIPS64 then "MIPS64R2-generic"%string else "74Kf"%string
  end.

(** The four groups of devices, in the order [ranchu_init] creates them. *)
Definition board_devices : option (list call) :=
  let pic := set_irq (devmap_at RANCHU_GF_PIC) qemu_fdt_alloc_phandle in
  match create_device pic false 1 false,
        create_device (devmap_at RANCHU_GF_TTY) true MAX_GF_TTYS false,
        rounds (fun i => create_device (devmap_at (Z.to_nat i)) true 1 false)
          (counting_down RANCHU_ANDROID_PIPE RANCHU_GF_TIMER),
        create_device (devmap_at RANCHU_MMIO) true VIRTIO_TRANSPORTS true
  with
  | Some a, Some b, Some c, Some d => Some (a ++ b ++ c ++ d)
  | _, _, _, _ => None
  end.

(** [ranchu_init], given the requested [ram_size]: the calls made and how
    it ends; [None] if a device were created with a [NULL] name. *)
Definition ranchu_init (args : QEMUMachineInitArgs) (ram_size : Z)
  : option (list call * ending) :=
  let model := chosen_cpu_model args in
  if negb (cpu_mips_init model) then
    Some ([cpu_mips_init_call model;
           fprintf_stderr "Unable to find CPU definition";
           exit 1], Exited)
  else
    let ram_size := if ram_size >? GOLDFISH_IO_SPACE then GOLDFISH_IO_SPACE else ram_size in
    if negb create_device_tree then
      Some ([cpu_mips_init_call model; register_savevm "cpu"; qemu_register_reset;
             create_device_tree_call;
             error_report "create_device_tree() failed";
             exit 1], Exited)
    else
      let phandle := qemu_fdt_alloc_phandle in
      let start :=
        [cpu_mips_init_call model; register_savevm "cpu"; qemu_register_reset;
         create_device_tree_call;
         memory_region_init_ram "ranchu.ram" ram_size;
         vmstate_register_ram_global;
         memory_region_add_subregion 0;
         cpu_mips_irq_init_cpu;
         cpu_mips_clock_init;
         goldfish_interrupt_init (base (devmap_at RANCHU_GF_PIC));
         qemu_fdt_alloc_phandle_call;
         qemu_fdt_setprop "/" "model" (PropString "ranchu");
         qemu_fdt_setprop "/" "compatible" (PropString "mti,goldfish");
         qemu_fdt_setprop "/" "#address-cells" (PropCells [1]);
         qemu_fdt_setprop "/" "#size-cells" (PropCells [1]);
         qemu_fdt_setprop "/" "interrupt-parent" (PropCells [phandle]);
         qemu_fdt_add_subnode "/cpus";
         qemu_fdt_add_subnode "/cpus/cpu@0";
         qemu_fdt_setprop "/cpus/cpu@0" "device_type" (PropString "cpu");
         qemu_fdt_setprop "/cpus/cpu@0" "compatible" (PropString "mti,5KEf");
         qemu_fdt_add_subnode "/memory";
         qemu_fdt_setprop "/memory" "device_type" (PropString "memory");
         qemu_fdt_setprop "/memory" "reg" (PropSizedCells [(1, 0); (1, ram_size)])] in
      match board_devices with
      | None => None
      | Some devices =>
          let '(console, calls) :=
            initialize_console_and_adb qemu_chr_new_from_opts adb_server_init in
          match console with
          | None => Some (start ++ devices ++ calls, Exited)
          | Some _ =>
              Some (start ++ devices ++ calls ++
                    [android_load_kernel (to_int ram_size) (kernel_filename args)
                       (kernel_cmdline args) (initrd_filename args)],
                    Returned)
          end
      end.

(** Two register ranges that do not overlap. *)
Definition apart (r1 r2 : string * Z * Z) : Prop :=
  let '(_, b1, s1) := r1 in
  let '(_, b2, s2) := r2 in
  b1 + s1 <= b2 \/ b2 + s2 <= b1.

Definition apartb (r1 r2 : string * Z * Z) : bool :=
  let '(_, b1, s1) := r1 in
  let '(_, b2, s2) := r2 in
  (b1 + s1 <=? b2) || (b2 + s2 <=? b1).

(** A bus device has a node that gives its address and its interrupt. *)
Definition described (calls : list call) (d : string * Z * Z) : Prop :=
  let '(_, addr, idx) := d in
  exists node s,
    In (node, addr, s) (dt_regs calls) /\
    In (node, idx + MIPS_CPU_IRQ_BASE) (dt_interrupts calls).

Definition describedb (regs : list (string * Z * Z)) (ints : list (string * Z))
    (d : string * Z * Z) : bool :=
  let '(_, addr, idx) := d in
  existsb (fun r => let '(node, b, _) := r in
                    (b =? addr)
                    && existsb (fun p => String.eqb (fst p) node
                                         && (snd p =? idx + MIPS_CPU_IRQ_BASE)) ints)
    regs.

Fixpoint pairwise {A : Type} (f : A -> A -> bool) (l : list A) : bool :=
  match l with
  | [] => true
  | a :: rest => forallb (f a) rest && pairwise f rest
  end.

Lemma apartb_apart (r1 r2 : string * Z * Z) : apartb r1 r2 = true -> apart r1 r2.
Proof.
  destruct r1 as [[n1 b1] s1], r2 as [[n2 b2] s2]. unfold apartb, apart.
  intros H. apply orb_true_iff in H. destruct H as [H|H]; apply Z.leb_le in H; lia.
Qed.

Lemma pairwise_apart (l : list (string * Z * Z)) :
  pairwise apartb l = true -> ForallOrdPairs apart l.
Proof.
  induction l as [|a l IH]; intros H; [constructor|].
  cbn [pairwise] in H. apply andb_true_iff in H. destruct H as [Ha Hl].
  constructor; [|apply IH; exact Hl].
  apply Forall_forall. intros r Hr. apply apartb_apart.
  rewrite forallb_forall in Ha. apply Ha. exact Hr.
Qed.

Lemma describedb_described (calls : list call) (d : string * Z * Z) :
  describedb (dt_regs calls) (dt_interrupts calls) d = true -> described calls d.
Proof.
  destruct d as [[name addr] idx]. unfold describedb, described. intros H.
  apply existsb_exists in H. destruct H as ([[node b] s] & Hin & H).
  apply andb_true_iff in H. destruct H as [Hb H]. apply Z.eqb_eq in Hb. subst b.
  apply existsb_exists in H. destruct H as ([node' n] & Hin' & H).
  apply andb_true_iff in H. destruct H as [Hn Hi]. cbn [fst snd] in Hn, Hi.
  apply String.eqb_eq in Hn. apply Z.eqb_eq in Hi. subst.
  exists node, s. split; assumption.
Qed.

Lemma console_loop_silent (tries : nat) (baseport : Z) :
  let calls := snd (console_loop qemu_chr_new_from_opts adb_server_init tries baseport) in
  dt_regs calls = [] /\ dt_interrupts calls = [] /\ bus_devices calls = [].
Proof.
  revert baseport. induction tries as [|tries IH]; intros baseport.
  - repeat split.
  - cbn [console_loop]. unfold try_to_create_console_chardev.
    destruct (qemu_chr_new_from_opts baseport).
    + destruct (adb_server_init (to_int (baseport + 1))); cbn [negb].
      * repeat split.
      * specialize (IH (to_int (baseport + 2))).
        destruct (console_loop _ _ tries _) as [r c]. cbn [snd] in *.
        destruct IH as (H1 & H2 & H3).
        rewrite dt_regs_app, dt_interrupts_app, bus_devices_app.
        rewrite (dt_regs_app [_; _]), (dt_interrupts_app [_; _]), (bus_devices_app [_; _]).
        rewrite H1, H2, H3. repeat split.
    + specialize (IH (to_int (baseport + 2))).
      destruct (console_loop _ _ tries _) as [r c]. cbn [snd] in *.
      destruct IH as (H1 & H2 & H3).
      rewrite dt_regs_app, dt_interrupts_app, bus_devices_app, H1, H2, H3.
      repeat split.
Qed.

(** What the device part of [ranchu_init] comes to. *)
Lemma board_devices_checked :
  exists devices,
    board_devices = Some devices /\
    pairwise apartb (dt_regs devices) = true /\
    forallb (fun r => let '(_, b, s) := r in
                      (GOLDFISH_IO_SPACE <=? b) && (0 <? s) && (b + s <=? 2 ^ 32))
      (dt_regs devices) = true /\
    nodup Z.eq_dec (map snd (bus_devices devices)) = map snd (bus_devices devices) /\
    forallb (describedb (dt_regs devices) (dt_interrupts devices)) (bus_devices devices)
    = true /\
    List.length (bus_devices devices) = 25%nat.
Proof.
  eexists. split; [vm_compute; reflexivity|].
  vm_compute. repeat split.
Qed.

(** X27. Whatever memory size is asked for, the board [ranchu_init]
    builds has no two register ranges of its device tree overlapping: the
    RAM node ends at or below [GOLDFISH_IO_SPACE], every device node lies
    at or above it and below 4 GiB, and the device nodes are disjoint from
    one another.  No two bus devices share a line of the interrupt
    controller, and every bus device has a node that gives its address and,
    offset by 8, its line.  When the function returns, 25 devices are on
    the bus.  No device is ever created from a [NULL] name. *)
Theorem memory_map_is_disjoint (args : QEMUMachineInitArgs) (ram_size : Z) :
  0 <= ram_size ->
  exists calls e,
    ranchu_init args ram_size = Some (calls, e) /\
    ForallOrdPairs apart (dt_regs calls) /\
    Forall (fun r => let '(node, b, s) := r in
                     (node = "/memory"%string /\ b = 0 /\
                      s = Z.min ram_size GOLDFISH_IO_SPACE) \/
                     (GOLDFISH_IO_SPACE <= b /\ 0 < s /\ b + s <= 2 ^ 32))
      (dt_regs calls) /\
    NoDup (map snd (bus_devices calls)) /\
    Forall (described calls) (bus_devices calls) /\
    (e = Returned -> List.length (bus_devices calls) = 25%nat).
Proof.
  intros Hram. unfold ranchu_init.
  destruct (cpu_mips_init (chosen_cpu_model args)); cbn [negb].
  2:{ do 2 eexists. split; [reflexivity|].
      repeat split; try constructor. discriminate. }
  destruct create_device_tree; cbn [negb].
  2:{ do 2 eexists. split; [reflexivity|].
      repeat split; try constructor. discriminate. }
  destruct board_devices_checked as (devices & -> & Hpair & Hio & Hnodup & Hdesc & Hlen).
  set (ram := if ram_size >? GOLDFISH_IO_SPACE then GOLDFISH_IO_SPACE else ram_size).
  assert (Hramv : ram = Z.min ram_size GOLDFISH_IO_SPACE).
  { unfold ram. destruct (Z.gtb_spec ram_size GOLDFISH_IO_SPACE); lia. }
  pose proof (console_loop_silent (Z.to_nat MAX_ANDROID_EMULATORS) ANDROID_CONSOLE_BASEPORT)
    as Hsilent.
  unfold initialize_console_and_adb.
  destruct (console_loop _ _ _ _) as [console con]. cbn [snd] in Hsilent.
  destruct Hsilent as (Hs1 & Hs2 & Hs3).
  set (start := [cpu_mips_init_call _; _; _; _; _; _; _; _; _; _; _; _; _; _; _; _; _; _; _;
                 _; _; _; _]).
  assert (Hstart : dt_regs start = [("/memory"%string, 0, ram)] /\
                   dt_interrupts start = [] /\ bus_devices start = []).
  { repeat split. }
  destruct Hstart as (Hst1 & Hst2 & Hst3).
  assert (Hall : forall tail : list call,
             dt_regs tail = [] -> dt_interrupts tail = [] -> bus_devices tail = [] ->
             let calls := start ++ devices ++ tail in
             ForallOrdPairs apart (dt_regs calls) /\
             Forall (fun r => let '(node, b, s) := r in
                              (node = "/memory"%string /\ b = 0 /\
                               s = Z.min ram_size GOLDFISH_IO_SPACE) \/
                              (GOLDFISH_IO_SPACE <= b /\ 0 < s /\ b + s <= 2 ^ 32))
               (dt_regs calls) /\
             NoDup (map snd (bus_devices calls)) /\
             Forall (described calls) (bus_devices calls) /\
             List.length (bus_devices calls) = 25%nat).
  { intros tail Ht1 Ht2 Ht3 calls. unfold calls.
    rewrite !dt_regs_app, !bus_devices_app, Hst1, Hst3, Ht1, Ht3, !app_nil_r.
    cbn [app].
    assert (Hdev : Forall (fun r => let '(_, b, s) := r in
                             GOLDFISH_IO_SPACE <= b /\ 0 < s /\ b + s <= 2 ^ 32)
                     (dt_regs devices)).
    { apply Forall_forall. intros [[node b] s] Hin.
      rewrite forallb_forall in Hio. specialize (Hio _ Hin). cbv beta iota in Hio.
      apply andb_true_iff in Hio. destruct Hio as [Hio H3].
      apply andb_true_iff in Hio. destruct Hio as [H1 H2].
      apply Z.leb_le in H1, H3. apply Z.ltb_lt in H2. lia. }
    split; [|split; [|split; [|split]]].
    - constructor; [|apply pairwise_apart; exact Hpair].
      eapply Forall_impl; [|exact Hdev]. intros [[node b] s] Hb. unfold apart.
      unfold GOLDFISH_IO_SPACE in *. lia.
    - constructor; [left; repeat split; exact Hramv|].
      eapply Forall_impl; [|exact Hdev]. intros [[node b] s] Hb. right. exact Hb.
    - rewrite <- Hnodup. apply NoDup_nodup.
    - apply Forall_forall. intros d Hin. apply describedb_described.
      rewrite forallb_forall in Hdesc. specialize (Hdesc d Hin).
      destruct d as [[name addr] idx]. unfold describedb in *.
      apply existsb_exists in Hdesc. destruct Hdesc as (r & Hr & Hd).
      apply existsb_exists. exists r. split.
      + rewrite !dt_regs_app. apply in_or_app. right. apply in_or_app. left. exact Hr.
      + destruct r as [[node b] s]. apply andb_true_iff in Hd. destruct Hd as [Hb Hd].
        rewrite Hb. cbn [andb]. apply existsb_exists in Hd. destruct Hd as (p & Hp & Hd).
        apply existsb_exists. exists p. split; [|exact Hd].
        rewrite !dt_interrupts_app. apply in_or_app. right. apply in_or_app. left. exact Hp.
    - exact Hlen. }
  destruct console as [port|].
  - do 2 eexists. split; [reflexivity|].
    destruct (Hall (con ++ [android_load_kernel (to_int ram) (kernel_filename args)
                              (kernel_cmdline args) (initrd_filename args)]))
      as (H1 & H2 & H3 & H4 & H5).
    + rewrite dt_regs_app, Hs1. reflexivity.
    + rewrite dt_interrupts_app, Hs2. reflexivity.
    + rewrite bus_devices_app, Hs3. reflexivity.
    + repeat split; try assumption. intros _. exact H5.
  - do 2 eexists. split; [reflexivity|].
    destruct (Hall con Hs1 Hs2 Hs3) as (H1 & H2 & H3 & H4 & H5).
    repeat split; try assumption. discriminate.
Qed.

End Board.


(** ** The model at work *)

Lemma device_tree_describes_devices_witness :
  let dev := devmap_at RANCHU_MMIO in
  let name := "virtio-mmio"%string in
  let dt := "virtio_mmio"%string in
  exists calls,
    create_device dev true VIRTIO_TRANSPORTS true = Some calls /\
    dt_nodes calls = map (nodename dev dt) (counting VIRTIO_TRANSPORTS) /\
    dt_regs calls
    = map (fun i => (nodename dev dt i, base dev + i * size dev, size dev))
        (counting VIRTIO_TRANSPORTS) /\
    dt_interrupts calls
    = map (fun i => (nodename dev dt i, irq dev + i + MIPS_CPU_IRQ_BASE))
        (counting VIRTIO_TRANSPORTS) /\
    bus_devices calls
    = rev (map (fun i => (name, base dev + i * size dev, irq dev + i))
             (counting VIRTIO_TRANSPORTS)).
Proof.
  apply (device_tree_describes_devices (devmap_at RANCHU_MMIO) VIRTIO_TRANSPORTS true
           "virtio-mmio" "virtio_mmio" "virtio,mmio").
  - reflexivity.
  - reflexivity.
  - reflexivity.
  - vm_compute. discriminate.
  - vm_compute. discriminate.
  - reflexivity.
  - vm_compute. discriminate.
  - vm_compute. discriminate.
Defined.

Lemma memory_map_is_disjoint_witness :
  let ram_size := 2 ^ 30 in
  exists calls e,
    ranchu_init false (fun _ => true) true 1 (fun _ => true) (fun _ => true)
      (mkArgs None (Some "kernel"%string) (Some "console=ttyGF0"%string) None) ram_size
    = Some (calls, e) /\
    ForallOrdPairs apart (dt_regs calls) /\
    Forall (fun r => let '(node, b, s) := r in
                     (node = "/memory"%string /\ b = 0 /\
                      s = Z.min ram_size GOLDFISH_IO_SPACE) \/
                     (GOLDFISH_IO_SPACE <= b /\ 0 < s /\ b + s <= 2 ^ 32))
      (dt_regs calls) /\
    NoDup (map snd (bus_devices calls)) /\
    Forall (described calls) (bus_devices calls) /\
    (e = Returned -> List.length (bus_devices calls) = 25%nat).
Proof.
  apply (memory_map_is_disjoint false (fun _ => true) true 1 (fun _ => true) (fun _ => true)
           (mkArgs None (Some "kernel"%string) (Some "console=ttyGF0"%string) None)
           (2 ^ 30)).
  vm_compute. discriminate.
Defined.

End Ranchu.


(** * The OpenGLES backend ([hw/misc/android_opengles.c]) *)

Module AndroidGles.

Definition STREAM_MODE_DEFAULT : Z := 0.
Definition STREAM_MODE_TCP : Z := 1.
Definition STREAM_MODE_UNIX : Z := 2.
Definition STREAM_MODE_WIN32_PIPE : Z := 3.

(** The names of [RENDERER_FUNCTIONS_LIST], in its order. *)
Definition RENDERER_FUNCTIONS_LIST : list string :=
  ["initLibrary"; "setStreamMode"; "initOpenGLRenderer"; "getHardwareStrings";
   "setPostCallback"; "createOpenGLSubwindow"; "destroyOpenGLSubwindow";
   "setOpenGLDisplayRotation"; "repaintOpenGLDisplay"; "stopOpenGLRenderer"]%string.

(** A loaded library, named by the moment it was loaded at. *)
Abbreviation DynamicLibrary := nat (only parsing).

(** [struct AndroidGLES]. *)
Record AndroidGLES : Set := mkGles {
  init : bool;
  renderer_lib : option DynamicLibrary;
  renderer_started : bool;
  renderer_address : string
}.

(** The file's globals: [sState], and the [emugl_] function pointers,
    each [NULL] or the address of its symbol in some loaded library.
    [clock] counts the calls made to the surroundings so far. *)
Record globals : Set := mkGlobals {
  sState : AndroidGLES;
  emugl : string -> option DynamicLibrary;
  clock : nat
}.

(** What the file calls: the dynamic loader, and the functions of the
    rendering library through the pointers. *)
Inductive call : Set :=
| dlopen (path : string) (result : option DynamicLibrary)
| dlclose (library : DynamicLibrary)
| dlsym (library : DynamicLibrary) (symbol : string) (found : bool)
| emugl_call (name : string) (library : DynamicLibrary) (args : list Z).

(** The static initialisers. *)
Definition globals_init : globals :=
  mkGlobals (mkGles false None false "") (fun _ => None) 0.

(** Code that reads and writes the globals, makes calls, and has no
    defined result where it calls through a [NULL] pointer. *)
Definition M (A : Type) : Type := globals -> option (A * list call * globals).

Definition ret {A : Type} (a : A) : M A := fun g => Some (a, [], g).

Definition bind {A B : Type} (m : M A) (f : A -> M B) : M B :=
  fun g =>
    match m g with
    | None => None
    | Some (a, calls, g1) =>
        match f a g1 with
        | None => None
        | Some (b, calls', g2) => Some (b, calls ++ calls', g2)
        end
    end.

Notation "x <- m ;; f" := (bind m (fun x => f))
  (at level 61, m at next level, right associativity).
Notation "m ;;; f" := (bind m (fun _ => f))
  (at level 61, right associativity).

Definition get_state : M AndroidGLES := fun g => Some (sState g, [], g).

Definition set_state (s : AndroidGLES) : M unit :=
  fun g => Some (tt, [], mkGlobals s (emugl g) (clock g)).

Definition set_pointer (name : string) (library : DynamicLibrary) : M unit :=
  fun g =>
    Some (tt, [],
          mkGlobals (sState g)
            (fun n => if String.eqb n name then Some library else emugl g n)
            (clock g)).

(** A call to the surroundings, whose answer may depend on the moment. *)
Definition outside {A : Type} (answer : nat -> A) (log : A -> call) : M A :=
  fun g =>
    let a := answer (clock g) in
    Some (a, [log a], mkGlobals (sState g) (emugl g) (S (clock g))).

(** [EMUGL_WRAPPER(name)(args)]. *)
Definition through_pointer {A : Type} (name : string) (args : list Z) (answer : nat -> A)
  : M A :=
  fun g =>
    match emugl g name with
    | None => None
    | Some library =>
        Some (answer (clock g), [emugl_call name library args],
              mkGlobals (sState g) (emugl g) (S (clock g)))
    end.

Definition set_init (s : AndroidGLES) (v : bool) : AndroidGLES :=
  mkGles v (renderer_lib s) (renderer_started s) (renderer_address s).
Definition set_renderer_lib (s : AndroidGLES) (v : option DynamicLibrary) : AndroidGLES :=
  mkGles (init s) v (renderer_started s) (renderer_address s).
Definition set_renderer_started (s : AndroidGLES) (v : bool) : AndroidGLES :=
  mkGles (init s) (renderer_lib s) v (renderer_address s).
Definition set_renderer_address (s : AndroidGLES) (v : string) : AndroidGLES :=
  mkGles (init s) (renderer_lib s) (renderer_started s) v.

(** [strchr] and [strrchr]: the place of the first, resp. last, [c]. *)
Fixpoint strchr (s : string) (c : ascii) : option nat :=
  match s with
  | EmptyString => None
  | String a rest =>
      if Ascii.eqb a c then Some O else option_map S (strchr rest c)
  end.

Fixpoint strrchr (s : string) (c : ascii) : option nat :=
  match s with
  | EmptyString => None
  | String a rest =>
      match strrchr rest c with
      | Some i => Some (S i)
      | None => if Ascii.eqb a c then Some O else None
      end
  end.

(** The string from place [n] on. *)
Definition from (n : nat) (s : string) : string :=
  substring n (String.length s - n) s.

(** The API, as the emulator's user interface calls it. *)
Inductive op : Set :=
| OpInit
| OpStart (width height : Z)
| OpSetPostCallback (on_post on_post_context : Z)
| OpShowWindow (window x y width height rotation : Z)
| OpHideWindow
| OpRedrawWindow
| OpGetHardwareStrings (vendor renderer version : string)
    (vendor_buffer_size renderer_buffer_size version_buffer_size : Z)
| OpServerPath (buff : string) (buff_size : Z).

(** What the loader has open after a sequence of calls, started with
    [open]; [None] if the sequence opens a library while one is open,
    closes or searches one that is not open, or calls a function of one
    that is not open. *)
Fixpoint trace_ok (calls : list call) (open : option DynamicLibrary)
  : option (option DynamicLibrary) :=
  match calls with
  | [] => Some open
  | dlopen _ None :: rest => trace_ok rest open
  | dlopen _ (Some l) :: rest =>
      match open with
      | None => trace_ok rest (Some l)
      | Some _ => None
      end
  | dlclose l :: rest =>
      match open with
      | Some l' => if Nat.eqb l l' then trace_ok rest None else None
      | None => None
      end
  | dlsym l _ _ :: rest | emugl_call _ l _ :: rest =>
      match open with
      | Some l' => if Nat.eqb l l' then trace_ok rest open else None
      | None => None
      end
  end.

Definition is_loader_call (c : call) : bool :=
  match c with
  | emugl_call _ _ _ => false
  | _ => true
  end.

Definition calls_named (name : string) (calls : list call) : list call :=
  filter (fun c => match c with
                   | emugl_call n _ _ => String.eqb n name
                   | _ => false
                   end) calls.

Section Backend.

(** The host: which platform the file is compiled for, the width of
    pointers, [PATH_MAX], and how a window pointer becomes an
    [FBNativeWindowType]. *)
Variable WIN32 : bool.
Variable APPLE : bool.
Variable UINTPTR_MAX_is_UINT64_MAX : bool.
Variable PATH_MAX : nat.
Variable to_FBNativeWindowType : Z -> Z.

(** The surroundings: whether the loader finds a library at a given
    moment and a symbol in a loaded library, what the functions of the
    rendering library return, and [pstrcpy] of [util/cutils.c] (the new
    content of [buf]). *)
Variable dlopen_finds : nat -> string -> bool.
Variable dlsym_finds : DynamicLibrary -> string -> bool.
Variable initLibrary : nat -> Z.
Variable initOpenGLRenderer : nat -> Z -> Z -> Z * string.
Variable getHardwareStrings : nat -> option string * option string * option string.
Variable createOpenGLSubwindow : nat -> list Z -> Z.
Variable pstrcpy : string -> Z -> string -> string.

Definition SIZE_T_BITS : Z := if UINTPTR_MAX_is_UINT64_MAX then 64 else 32.

Definition to_size_t (z : Z) : Z := z mod 2 ^ SIZE_T_BITS.

Definition RENDERER_LIB_NAME : string :=
  if UINTPTR_MAX_is_UINT64_MAX then "lib64OpenglRender" else "libOpenglRender".

Definition kDllExtension : string :=
  if WIN32 then ".dll" else if APPLE then ".dylib" else ".so".

(** [snprintf(path, sizeof path, ...)]. *)
Definition snprintf_path (s : string) : string := substring 0 (PATH_MAX - 1) s.

Definition dynamic_library_open (library_name : string) : M (option DynamicLibrary) :=
  let path :=
    match strchr library_name "."%char with
    | None => snprintf_path (library_name ++ kDllExtension)
    | Some _ => snprintf_path library_name
    end in
  fun g =>
    outside (fun now => if dlopen_finds now path then Some now else None) (dlopen path) g.

Definition dynamic_library_close (library : option DynamicLibrary) : M unit :=
  match library with
  | Some l => fun g => Some (tt, [dlclose l], mkGlobals (sState g) (emugl g) (S (clock g)))
  | None => ret tt
  end.

(** The result tells whether the symbol was found; its address is then
    that of the symbol in [library]. *)
Definition dynamic_library_probe (library : option DynamicLibrary) (symbol : string)
  : M bool :=
  match library with
  | None => ret false
  | Some l =>
      if String.eqb symbol "" then ret false
      else outside (fun _ => dlsym_finds l symbol) (dlsym l symbol)
  end.

Fixpoint resolve (names : list string) (library : option DynamicLibrary) : M Z :=
  match names with
  | [] => ret 0
  | name :: rest =>
      found <- dynamic_library_probe library name ;;
      match found, library with
      | true, Some l => set_pointer name l ;;; resolve rest library
      | _, _ => ret (-1)
      end
  end.

Definition init_opengles_emulation_functions (library : option DynamicLibrary) : M Z :=
  resolve RENDERER_FUNCTIONS_LIST library.

(** The code at [BAD_EXIT]. *)
Definition BAD_EXIT : M bool :=
  state <- get_state ;;
  dynamic_library_close (renderer_lib state) ;;;
  set_state (set_renderer_lib state None) ;;;
  ret false.

(** The result tells whether the state is returned, rather than [NULL]. *)
Definition android_gles_init : M bool :=
  state <- get_state ;;
  if init state then ret true
  else
    lib <- dynamic_library_open RENDERER_LIB_NAME ;;
    set_state (set_renderer_lib state lib) ;;;
    match lib with
    | None => ret false
    | Some _ =>
        r <- init_opengles_emulation_functions lib ;;
        if r <? 0 then BAD_EXIT
        else
          ok <- through_pointer "initLibrary" [] initLibrary ;;
          if ok =? 0 then BAD_EXIT
          else
            through_pointer "setStreamMode"
              [if WIN32 then STREAM_MODE_TCP else STREAM_MODE_UNIX] (fun _ => tt) ;;;
            state <- get_state ;;
            set_state (set_init state true) ;;;
            ret true
    end.

Definition extract_base_string (dst src : string) (dstSize : Z) : string :=
  match strchr src "("%char, strrchr src ")"%char with
  | Some b, Some e =>
      let begin := (b + 1)%nat in
      let len := Z.of_nat e - Z.of_nat begin + 1 in
      let len := if to_size_t len >? to_size_t dstSize then to_size_t dstSize else len in
      pstrcpy dst (to_int len) (from begin src)
  | _, _ => pstrcpy dst (to_int dstSize) src
  end.

(** The result is the content of the three buffers. *)
Definition android_gles_get_hardware_strings (vendor renderer version : string)
    (vendor_buffer_size renderer_buffer_size version_buffer_size : Z)
  : M (string * string * string) :=
  state <- get_state ;;
  if negb (renderer_started state) then ret (""%string, ""%string, ""%string)
  else
    srcs <- through_pointer "getHardwareStrings" [] getHardwareStrings ;;
    let '(vendor_src, renderer_src, version_src) := srcs in
    let vendor_src := match vendor_src with Some s => s | None => ""%string end in
    let renderer_src := match renderer_src with Some s => s | None => ""%string end in
    let version_src := match version_src with Some s => s | None => ""%string end in
    if String.prefix "Google" vendor_src
       && String.prefix "Android Emulator OpenGL ES Translator" renderer_src
    then ret (extract_base_string vendor vendor_src vendor_buffer_size,
              extract_base_string renderer renderer_src renderer_buffer_size,
              extract_base_string version version_src version_buffer_size)
    else ret (pstrcpy vendor (to_int vendor_buffer_size) vendor_src,
              pstrcpy renderer (to_int renderer_buffer_size) renderer_src,
              pstrcpy version (to_int version_buffer_size) version_src).

Definition android_gles_start (width height : Z) : M Z :=
  state <- get_state ;;
  match renderer_lib state with
  | None => ret (-1)
  | Some _ =>
      if renderer_started state then ret 0
      else
        r <- through_pointer "initOpenGLRenderer" [width; height; 256]
               (fun now => initOpenGLRenderer now width height) ;;
        let '(ok, address) := r in
        state <- get_state ;;
        let state := set_renderer_address state (substring 0 255 address) in
        if ok =? 0 then set_state state ;;; ret (-1)
        else set_state (set_renderer_started state true) ;;; ret 0
  end.

Definition android_gles_set_post_callback (on_post on_post_context : Z) : M unit :=
  state <- get_state ;;
  match renderer_lib state with
  | Some _ => through_pointer "setPostCallback" [on_post; on_post_context] (fun _ => tt)
  | None => ret tt
  end.

Definition android_gles_show_window (window x y width height rotation : Z) : M Z :=
  state <- get_state ;;
  if renderer_started state then
    let args := [to_FBNativeWindowType window; x; y; width; height; rotation] in
    success <- through_pointer "createOpenGLSubwindow" args
                 (fun now => createOpenGLSubwindow now args) ;;
    ret (if success =? 0 then -1 else 0)
  else ret (-1).

Definition android_gles_hide_window : M unit :=
  state <- get_state ;;
  if renderer_started state
  then through_pointer "destroyOpenGLSubwindow" [] (fun _ => tt)
  else ret tt.

Definition android_gles_redraw_window : M unit :=
  state <- get_state ;;
  if renderer_started state
  then through_pointer "repaintOpenGLDisplay" [] (fun _ => tt)
  else ret tt.

Definition android_gles_server_path (buff : string) (buff_size : Z) : M string :=
  state <- get_state ;;
  ret (pstrcpy buff (to_int buff_size) (renderer_address state)).

Definition step (o : op) : M unit :=
  match o with
  | OpInit => android_gles_init ;;; ret tt
  | OpStart width height => android_gles_start width height ;;; ret tt
  | OpSetPostCallback on_post context => android_gles_set_post_callback on_post context
  | OpShowWindow window x y width height rotation =>
      android_gles_show_window window x y width height rotation ;;; ret tt
  | OpHideWindow => android_gles_hide_window
  | OpRedrawWindow => android_gles_redraw_window
  | OpGetHardwareStrings vendor renderer version vs rs ves =>
      android_gles_get_hardware_strings vendor renderer version vs rs ves ;;; ret tt
  | OpServerPath buff buff_size => android_gles_server_path buff buff_size ;;; ret tt
  end.

Fixpoint run (os : list op) : M unit :=
  match os with
  | [] => ret tt
  | o :: rest => step o ;;; run rest
  end.

(** ** The library behind the pointers *)

Lemma trace_ok_app (a b : list call) (open : option DynamicLibrary) :
  trace_ok (a ++ b) open
  = match trace_ok a open with
    | Some open' => trace_ok b open'
    | None => None
    end.
Proof.
  revert open. induction a as [|c a IH]; intros open; [reflexivity|].
  destruct c as [path [l|]|l|l symbol found|name l args]; cbn [app trace_ok];
    try apply IH.
  - destruct open; [reflexivity|apply IH].
  - destruct open as [l'|]; [|reflexivity]. destruct (Nat.eqb l l'); [apply IH|reflexivity].
  - destruct open as [l'|]; [|reflexivity]. destruct (Nat.eqb l l'); [apply IH|reflexivity].
  - destruct open as [l'|]; [|reflexivity]. destruct (Nat.eqb l l'); [apply IH|reflexivity].
Qed.

(** What holds of the globals between two calls of the API: with [init]
    set a library is loaded and all ten pointers lead into it; without,
    none is loaded and the renderer is not started. *)
Definition consistent (g : globals) : Prop :=
  (init (sState g) = true ->
   exists l, renderer_lib (sState g) = Some l /\
             Forall (fun name => emugl g name = Some l) RENDERER_FUNCTIONS_LIST) /\
  (init (sState g) = false ->
   renderer_lib (sState g) = None /\ renderer_started (sState g) = false).

(** A piece of code ran, kept the loader's calls in order, and left what
    [ends] says. *)
Definition runs {A : Type} (m : M A) (g : globals) (ends : A -> globals -> Prop) : Prop :=
  exists a calls g',
    m g = Some (a, calls, g') /\
    trace_ok calls (renderer_lib (sState g)) = Some (renderer_lib (sState g')) /\
    ends a g'.

Lemma resolve_spec (names : list string) (l : DynamicLibrary) (g : globals) :
  exists r calls g',
    resolve names (Some l) g = Some (r, calls, g') /\
    sState g' = sState g /\
    trace_ok calls (Some l) = Some (Some l) /\
    (forall name, emugl g name = Some l -> emugl g' name = Some l) /\
    (r = 0 /\ Forall (fun name => emugl g' name = Some l) names \/ r = -1).
Proof.
  revert g. induction names as [|name rest IH]; intros g.
  - exists 0, [], g. cbn. repeat split; auto.
  - cbn [resolve]. unfold bind at 1. unfold dynamic_library_probe.
    destruct (String.eqb name "") eqn:Hempty.
    + cbn. do 3 eexists. split; [reflexivity|]. repeat split; auto.
    + unfold outside. destruct (dlsym_finds l name) eqn:Hfound.
      * unfold bind, set_pointer.
        set (g1 := mkGlobals (sState _) (fun n => if String.eqb n name then Some l else _) _).
        destruct (IH g1) as (r & calls & g' & Hrun & Hs & Ht & Hkeep & Hres).
        rewrite Hrun. do 3 eexists. split; [reflexivity|].
        split; [exact Hs|]. split.
        { cbn [app trace_ok]. rewrite Nat.eqb_refl. exact Ht. }
        assert (Hmono : forall n, emugl g n = Some l -> emugl g1 n = Some l).
        { intros n Hn. cbn. destruct (String.eqb n name); [reflexivity|exact Hn]. }
        split; [intros n Hn; apply Hkeep, Hmono, Hn|].
        destruct Hres as [[Hr Hall]|Hr]; [left|right; exact Hr].
        split; [exact Hr|]. constructor; [|exact Hall].
        apply Hkeep. cbn. rewrite String.eqb_refl. reflexivity.
      * cbn. do 3 eexists. split; [reflexivity|].
        cbn [trace_ok]. rewrite Nat.eqb_refl. repeat split; auto.
Qed.

Lemma consistent_pointer (g : globals) (l : DynamicLibrary) (name : string) :
  consistent g -> renderer_lib (sState g) = Some l ->
  In name RENDERER_FUNCTIONS_LIST -> emugl g name = Some l.
Proof.
  intros [Hon Hoff] Hlib Hin.
  destruct (init (sState g)) eqn:Hinit.
  - destruct (Hon eq_refl) as (l' & Hl' & Hall).
    rewrite Hlib in Hl'. inversion Hl'. subst l'.
    rewrite Forall_forall in Hall. apply Hall. exact Hin.
  - destruct (Hoff eq_refl) as [Hnone _]. congruence.
Qed.

Lemma consistent_started (g : globals) :
  consistent g -> renderer_started (sState g) = true ->
  exists l, renderer_lib (sState g) = Some l.
Proof.
  intros [Hon Hoff] Hst.
  destruct (init (sState g)) eqn:Hinit.
  - destruct (Hon eq_refl) as (l & Hl & _). exists l. exact Hl.
  - destruct (Hoff eq_refl) as [_ Hno]. congruence.
Qed.

(** A call through a pointer of the list, with a library loaded. *)
Lemma through_pointer_spec {A : Type} (name : string) (args : list Z) (answer : nat -> A)
    (g : globals) (l : DynamicLibrary) :
  emugl g name = Some l ->
  through_pointer name args answer g
  = Some (answer (clock g), [emugl_call name l args],
          mkGlobals (sState g) (emugl g) (S (clock g))).
Proof. intros H. unfold through_pointer. rewrite H. reflexivity. Qed.

Lemma consistent_tick (g : globals) (s : AndroidGLES) (n : nat) :
  consistent g ->
  init s = init (sState g) -> renderer_lib s = renderer_lib (sState g) ->
  (renderer_started s = true -> renderer_lib s <> None) ->
  consistent (mkGlobals s (emugl g) n).
Proof.
  intros [Hon Hoff] Hi Hl Hs. split; cbn [sState emugl]; rewrite Hi, Hl.
  - exact Hon.
  - intros H. destruct (Hoff H) as [Hnone Hno]. split; [exact Hnone|].
    destruct (renderer_started s); [|reflexivity].
    exfalso. apply Hs; [reflexivity|]. rewrite Hl. exact Hnone.
Qed.

Lemma init_spec (g : globals) :
  consistent g -> runs android_gles_init g (fun _ g' => consistent g').
Proof.
  intros Hc. unfold runs, android_gles_init.
  unfold bind at 1. unfold get_state at 1.
  destruct (init (sState g)) eqn:Hinit.
  { cbn. do 3 eexists. split; [reflexivity|]. split; [reflexivity|exact Hc]. }
  destruct Hc as [Hon Hoff]. destruct (Hoff Hinit) as [Hnone Hno].
  unfold bind at 1. unfold dynamic_library_open, outside.
  set (path := match strchr RENDERER_LIB_NAME "."%char with
               | Some _ => _ | None => _ end).
  destruct (dlopen_finds (clock g) path) eqn:Hopen.
  2:{ cbn. do 3 eexists. split; [reflexivity|]. cbn.
      rewrite Hnone. split; [reflexivity|].
      split; cbn; [congruence|]. intros _. split; [reflexivity|exact Hno]. }
  set (l := clock g).
  unfold bind at 1. unfold set_state at 1. cbv beta iota. cbn [sState emugl clock].
  set (g1 := mkGlobals (set_renderer_lib (sState g) (Some l)) (emugl g) (S l)).
  unfold init_opengles_emulation_functions. unfold bind at 1.
  destruct (resolve_spec RENDERER_FUNCTIONS_LIST l g1)
    as (r & calls & g2 & Hrun & Hs2 & Ht2 & _ & Hres).
  rewrite Hrun. cbv beta iota.
  assert (Hlib2 : renderer_lib (sState g2) = Some l) by (rewrite Hs2; reflexivity).
  assert (Hinit2 : init (sState g2) = false) by (rewrite Hs2; exact Hinit).
  assert (Hst2 : renderer_started (sState g2) = false) by (rewrite Hs2; exact Hno).
  assert (Hbad : forall g3 : globals,
             sState g3 = sState g2 ->
             exists g',
               BAD_EXIT g3 = Some (false, [dlclose l], g') /\
               renderer_lib (sState g') = None /\ consistent g').
  { intros g3 H3. unfold BAD_EXIT, bind, get_state, dynamic_library_close, set_state, ret.
    rewrite H3, Hlib2. eexists. split; [reflexivity|]. cbn. split; [reflexivity|].
    split; cbn; rewrite Hinit2; [discriminate|].
    intros _. split; [reflexivity|exact Hst2]. }
  destruct Hres as [[Hr Hall]|Hr]; subst r.
  2:{ change (-1 <? 0) with true. cbv iota.
      destruct (Hbad g2 eq_refl) as (g' & Hrun' & Hlib' & Hc').
      rewrite Hrun'. do 3 eexists. split; [reflexivity|].
      split; [|exact Hc'].
      rewrite Hnone, Hlib'. cbn [app trace_ok].
      rewrite trace_ok_app, Ht2. cbn. rewrite Nat.eqb_refl. reflexivity. }
  change (0 <? 0) with false. cbv iota.
  assert (Hlist : forall name, In name RENDERER_FUNCTIONS_LIST -> emugl g2 name = Some l).
  { rewrite Forall_forall in Hall. exact Hall. }
  unfold bind at 1.
  rewrite (through_pointer_spec "initLibrary" [] initLibrary g2 l)
    by (apply Hlist; cbn; tauto).
  destruct (initLibrary (clock g2) =? 0) eqn:Hok.
  { destruct (Hbad (mkGlobals (sState g2) (emugl g2) (S (clock g2))) eq_refl)
      as (g' & Hrun' & Hlib' & Hc').
    rewrite Hrun'. do 3 eexists. split; [reflexivity|].
    split; [|exact Hc'].
    rewrite Hnone, Hlib'. cbn [app trace_ok].
    rewrite trace_ok_app, Ht2. cbn. rewrite Nat.eqb_refl. reflexivity. }
  unfold bind at 1.
  rewrite (through_pointer_spec "setStreamMode" _ _ _ l) by (apply Hlist; cbn; tauto).
  cbn [bind get_state set_state ret sState emugl clock].
  do 3 eexists. split; [reflexivity|]. cbn [sState set_init renderer_lib].
  rewrite Hnone, Hlib2. split.
  - cbn [app trace_ok]. rewrite trace_ok_app, Ht2. cbn. rewrite Nat.eqb_refl. reflexivity.
  - split; cbn; [|discriminate]. intros _. exists l. split; [exact Hlib2|exact Hall].
Qed.


(** What one call of the API keeps, besides consistency: a library, once
    initialised, stays loaded, with its pointers; a renderer, once
    started, stays started, at its address. *)
Definition step_ok (g : globals) (calls : list call) (g' : globals) : Prop :=
  trace_ok calls (renderer_lib (sState g)) = Some (renderer_lib (sState g')) /\
  consistent g' /\
  (init (sState g) = true ->
   init (sState g') = true /\ renderer_lib (sState g') = renderer_lib (sState g) /\
   existsb is_loader_call calls = false) /\
  (renderer_started (sState g) = true ->
   renderer_started (sState g') = true /\
   renderer_address (sState g') = renderer_address (sState g) /\
   calls_named "initOpenGLRenderer" calls = []).

Lemma quiet_ok (g : globals) : consistent g -> step_ok g [] g.
Proof.
  intros Hc. split; [reflexivity|]. split; [exact Hc|].
  split; intros H; repeat split; auto.
Qed.

Lemma called_ok (g : globals) (l : DynamicLibrary) (name : string) (args : list Z)
    (s : AndroidGLES) (n : nat) :
  consistent g ->
  renderer_lib (sState g) = Some l ->
  init s = init (sState g) ->
  renderer_lib s = renderer_lib (sState g) ->
  (renderer_started (sState g) = true ->
   renderer_started s = true /\ renderer_address s = renderer_address (sState g) /\
   String.eqb name "initOpenGLRenderer" = false) ->
  step_ok g [emugl_call name l args] (mkGlobals s (emugl g) n).
Proof.
  intros Hc Hlib Hi Hl Hs. unfold step_ok. cbn [sState].
  split; [|split; [|split]].
  - rewrite Hlib, Hl, Hlib. cbn. rewrite Nat.eqb_refl. reflexivity.
  - apply consistent_tick; try assumption.
    intros _. rewrite Hl, Hlib. discriminate.
  - intros Hinit. rewrite Hi, Hl. repeat split; auto.
  - intros Hst. destruct (Hs Hst) as (H1 & H2 & H3). repeat split; auto.
    cbn. rewrite H3. reflexivity.
Qed.

Lemma step_spec (o : op) (g : globals) :
  consistent g ->
  exists calls g', step o g = Some (tt, calls, g') /\ step_ok g calls g'.
Proof.
  intros Hc.
  assert (Hptr : forall l name, renderer_lib (sState g) = Some l ->
                 In name RENDERER_FUNCTIONS_LIST -> emugl g name = Some l).
  { intros l name Hl Hin. apply consistent_pointer; assumption. }
  destruct o as [|width height|on_post context|window x y width height rotation| |
                 |vendor renderer version vs rs ves|buff buff_size];
    unfold step.
  - (* android_gles_init *)
    destruct (init (sState g)) eqn:Hinit.
    + unfold android_gles_init, bind, get_state. rewrite Hinit. cbn.
      do 2 eexists. split; [reflexivity|]. apply quiet_ok. exact Hc.
    + destruct (init_spec g Hc) as (a & calls & g' & Hrun & Ht & Hc').
      unfold bind. rewrite Hrun. cbn [ret]. rewrite app_nil_r.
      do 2 eexists. split; [reflexivity|].
      split; [exact Ht|]. split; [exact Hc'|].
      split; [congruence|]. intros Hst. destruct Hc as [_ Hoff].
      destruct (Hoff Hinit) as [_ Hno]. congruence.
  - (* android_gles_start *)
    unfold android_gles_start. unfold bind at 1. unfold bind at 1. unfold get_state at 1.
    cbv beta iota.
    destruct (renderer_lib (sState g)) as [l|] eqn:Hlib.
    2:{ cbn. do 2 eexists. split; [reflexivity|]. apply quiet_ok. exact Hc. }
    destruct (renderer_started (sState g)) eqn:Hst.
    { cbn. do 2 eexists. split; [reflexivity|]. apply quiet_ok. exact Hc. }
    unfold bind at 1.
    rewrite (through_pointer_spec "initOpenGLRenderer" _ _ g l) by (apply Hptr; cbn; tauto).
    destruct (initOpenGLRenderer (clock g) width height) as [ok address].
    unfold bind at 1. unfold get_state at 1. cbv beta iota. cbn [sState emugl clock].
    destruct (ok =? 0); cbn [bind set_state ret sState emugl clock app];
      do 2 eexists; (split; [reflexivity|]);
      apply called_ok; auto; congruence.
  - (* android_gles_set_post_callback *)
    unfold android_gles_set_post_callback, bind, get_state.
    destruct (renderer_lib (sState g)) as [l|] eqn:Hlib.
    + rewrite (through_pointer_spec "setPostCallback" _ _ g l) by (apply Hptr; cbn; tauto).
      cbn [app]. do 2 eexists. split; [reflexivity|].
      apply called_ok; auto.
    + cbn. do 2 eexists. split; [reflexivity|]. apply quiet_ok. exact Hc.
  - (* android_gles_show_window *)
    unfold android_gles_show_window. unfold bind at 1. unfold bind at 1.
    unfold get_state at 1. cbv beta iota.
    destruct (renderer_started (sState g)) eqn:Hst.
    + destruct (consistent_started g Hc Hst) as (l & Hlib).
      unfold bind at 1.
      rewrite (through_pointer_spec "createOpenGLSubwindow" _ _ g l)
        by (apply Hptr; [exact Hlib|cbn; tauto]).
      cbn [ret app]. do 2 eexists. split; [reflexivity|].
      apply called_ok; auto.
    + cbn. do 2 eexists. split; [reflexivity|]. apply quiet_ok. exact Hc.
  - (* android_gles_hide_window *)
    unfold android_gles_hide_window, bind, get_state.
    destruct (renderer_started (sState g)) eqn:Hst.
    + destruct (consistent_started g Hc Hst) as (l & Hlib).
      rewrite (through_pointer_spec "destroyOpenGLSubwindow" _ _ g l)
        by (apply Hptr; [exact Hlib|cbn; tauto]).
      cbn [app]. do 2 eexists. split; [reflexivity|].
      apply called_ok; auto.
    + cbn. do 2 eexists. split; [reflexivity|]. apply quiet_ok. exact Hc.
  - (* android_gles_redraw_window *)
    unfold android_gles_redraw_window, bind, get_state.
    destruct (renderer_started (sState g)) eqn:Hst.
    + destruct (consistent_started g Hc Hst) as (l & Hlib).
      rewrite (through_pointer_spec "repaintOpenGLDisplay" _ _ g l)
        by (apply Hptr; [exact Hlib|cbn; tauto]).
      cbn [app]. do 2 eexists. split; [reflexivity|].
      apply called_ok; auto.
    + cbn. do 2 eexists. split; [reflexivity|]. apply quiet_ok. exact Hc.
  - (* android_gles_get_hardware_strings *)
    unfold android_gles_get_hardware_strings. unfold bind at 1. unfold bind at 1.
    unfold get_state at 1. cbv beta iota.
    destruct (renderer_started (sState g)) eqn:Hst; cbn [negb].
    + destruct (consistent_started g Hc Hst) as (l & Hlib).
      unfold bind at 1.
      rewrite (through_pointer_spec "getHardwareStrings" _ _ g l)
        by (apply Hptr; [exact Hlib|cbn; tauto]).
      destruct (getHardwareStrings (clock g)) as [[vendor_src renderer_src] version_src].
      cbv beta iota.
      match goal with
      | |- context [if ?c then _ else _] => destruct c
      end; cbn [ret app]; do 2 eexists; (split; [reflexivity|]);
        apply called_ok; auto.
    + cbn. do 2 eexists. split; [reflexivity|]. apply quiet_ok. exact Hc.
  - (* android_gles_server_path *)
    cbn. do 2 eexists. split; [reflexivity|]. apply quiet_ok. exact Hc.
Qed.

Lemma step_ok_trans (g1 g2 g3 : globals) (c1 c2 : list call) :
  step_ok g1 c1 g2 -> step_ok g2 c2 g3 -> step_ok g1 (c1 ++ c2) g3.
Proof.
  intros (Ht1 & _ & Hi1 & Hs1) (Ht2 & Hc & Hi2 & Hs2).
  split; [|split; [exact Hc|split]].
  - rewrite trace_ok_app, Ht1. exact Ht2.
  - intros H. destruct (Hi1 H) as (A1 & A2 & A3). destruct (Hi2 A1) as (B1 & B2 & B3).
    repeat split; [exact B1|congruence|].
    rewrite existsb_app, A3, B3. reflexivity.
  - intros H. destruct (Hs1 H) as (A1 & A2 & A3). destruct (Hs2 A1) as (B1 & B2 & B3).
    repeat split; [exact B1|congruence|].
    unfold calls_named in *. rewrite filter_app, A3, B3. reflexivity.
Qed.

Lemma run_spec (os : list op) (g : globals) :
  consistent g ->
  exists calls g', run os g = Some (tt, calls, g') /\ step_ok g calls g'.
Proof.
  revert g. induction os as [|o os IH]; intros g Hc.
  - exists [], g. split; [reflexivity|]. apply quiet_ok. exact Hc.
  - destruct (step_spec o g Hc) as (c1 & g1 & Hstep & Hok1).
    destruct (IH g1 ltac:(apply Hok1)) as (c2 & g2 & Hrun & Hok2).
    cbn [run]. unfold bind. rewrite Hstep, Hrun.
    do 2 eexists. split; [reflexivity|].
    eapply step_ok_trans; eassumption.
Qed.

Lemma globals_init_consistent : consistent globals_init.
Proof. split; cbn; [discriminate|]. intros _. split; reflexivity. Qed.

(** X28. Whatever the user interface calls, in whatever order, from
    the start of the program, and whatever the loader and the library
    answer: no function of the rendering library is ever called through a
    [NULL] pointer, nor through one into a library that has been closed;
    every such call, every symbol lookup and every [dlclose] goes to the
    one library that is open then, and no library is opened while one is
    open.  Between calls, a library is loaded exactly when [init] is set,
    and the renderer is started only then. *)
Theorem renderer_called_through_live_pointers (os : list op) :
  exists calls g,
    run os globals_init = Some (tt, calls, g) /\
    trace_ok calls None = Some (renderer_lib (sState g)) /\
    (init (sState g) = true <-> renderer_lib (sState g) <> None) /\
    (renderer_started (sState g) = true -> init (sState g) = true).
Proof.
  destruct (run_spec os globals_init globals_init_consistent)
    as (calls & g & Hrun & Ht & [Hon Hoff] & _).
  exists calls, g. split; [exact Hrun|]. split; [exact Ht|].
  destruct (init (sState g)) eqn:Hinit.
  - destruct (Hon eq_refl) as (l & Hl & _). rewrite Hl.
    split; [split; [discriminate|reflexivity]|reflexivity].
  - destruct (Hoff eq_refl) as [Hnone Hno]. rewrite Hnone, Hno.
    split; [split; [discriminate|]|discriminate]. intros H. contradiction H. reflexivity.
Qed.

(** X29. Once [android_gles_init] has succeeded the library stays: no
    later call of the API loads, closes or searches a library again, and
    [init] and the library remain as they are.  Once the renderer is
    started it is not started again: [initOpenGLRenderer] is not called any
    more, and the renderer's address stays what it was. *)
Theorem library_loaded_once (before after : list op) (calls : list call) (g : globals) :
  run before globals_init = Some (tt, calls, g) ->
  init (sState g) = true ->
  exists calls' g',
    run after g = Some (tt, calls', g') /\
    existsb is_loader_call calls' = false /\
    init (sState g') = true /\
    renderer_lib (sState g') = renderer_lib (sState g) /\
    (renderer_started (sState g) = true ->
     renderer_started (sState g') = true /\
     renderer_address (sState g') = renderer_address (sState g) /\
     calls_named "initOpenGLRenderer" calls' = []).
Proof.
  intros Hbefore Hinit.
  destruct (run_spec before globals_init globals_init_consistent)
    as (c0 & g0 & Hrun0 & _ & Hc & _).
  rewrite Hbefore in Hrun0. inversion Hrun0. subst c0 g0.
  destruct (run_spec after g Hc) as (calls' & g' & Hrun & _ & _ & Hi & Hs).
  exists calls', g'. destruct (Hi Hinit) as (H1 & H2 & H3).
  repeat split; auto; apply Hs; assumption.
Qed.


End Backend.

(** ** The model at work

    A Linux host with 64-bit pointers, on which the library loads,
    has every symbol, and starts. *)

Lemma library_loaded_once_witness :
  let run' :=
    run false false true 4096 (fun w => w) (fun _ _ => true) (fun _ _ => true)
      (fun _ => 1) (fun _ _ _ => (1, "/tmp/qemu-gles"%string))
      (fun _ => (None, None, None)) (fun _ _ => 1) (fun _ _ s => s) in
  exists calls g,
    run' [OpInit; OpStart 320 480] globals_init = Some (tt, calls, g) /\
    exists calls' g',
      run' [OpInit; OpStart 1 1; OpRedrawWindow] g = Some (tt, calls', g') /\
      existsb is_loader_call calls' = false /\
      init (sState g') = true /\
      renderer_lib (sState g') = renderer_lib (sState g) /\
      (renderer_started (sState g) = true ->
       renderer_started (sState g') = true /\
       renderer_address (sState g') = renderer_address (sState g) /\
       calls_named "initOpenGLRenderer" calls' = []).
Proof.
  cbv zeta. eexists. eexists. split; [vm_compute; reflexivity|].
  eapply (library_loaded_once false false true 4096 (fun w => w) (fun _ _ => true)
            (fun _ _ => true) (fun _ => 1) (fun _ _ _ => (1, "/tmp/qemu-gles"%string))
            (fun _ => (None, None, None)) (fun _ _ => 1) (fun _ _ s => s)
            [OpInit; OpStart 320 480]).
  - vm_compute. reflexivity.
  - reflexivity.
Defined.

End AndroidGles.


(** * The lionhead board ([hw/arm/lionhead.c]) *)

Module Lionhead.

Definition LIONHEAD_BOARD_ID : Z := 0x5A1.
Definition NUM_VIRTIO_TRANSPORTS : Z := 4.

(** The indices of a motherboard map. *)
Definition VE_SYSREGS : nat := 0.
Definition VE_SP810 : nat := 1.
Definition VE_SERIALPCI : nat := 2.
Definition GOLDFISH_AUDIO : nat := 3.
Definition GOLDFISH_BATTERY : nat := 4.
Definition VE_KMI0 : nat := 5.
Definition VE_KMI1 : nat := 6.
Definition VE_UART0 : nat := 7.
Definition VE_UART1 : nat := 8.
Definition VE_UART2 : nat := 9.
Definition VE_UART3 : nat := 10.
Definition VE_WDT : nat := 11.
Definition VE_TIMER01 : nat := 12.
Definition VE_TIMER23 : nat := 13.
Definition VE_RTC : nat := 14.
Definition VE_COMPACTFLASH : nat := 15.
Definition GOLDFISH_FB : nat := 16.
Definition VE_NORFLASH0 : nat := 17.
Definition VE_NORFLASH1 : nat := 18.
Definition VE_NORFLASHALIAS : nat := 19.
Definition VE_SRAM : nat := 20.
Definition VE_ETHERNET : nat := 21.
Definition VE_USB : nat := 22.
Definition VE_DAPROM : nat := 23.
Definition VE_VIRTIO : nat := 24.

(** [motherboard_aseries_map], in the order of the indices. *)
Definition motherboard_aseries_map : list Z :=
  [ 0x1c010000; 0x1c020000; 0x1c030000; 0x1c040000; 0x1c050000;
    0x1c060000; 0x1c070000; 0x1c090000; 0x1c0a0000; 0x1c0b0000;
    0x1c0c0000; 0x1c0f0000; 0x1c110000; 0x1c120000; 0x1c170000;
    0x1c1a0000; 0x1c1f0000; 0x08000000; 0x0c000000; 0;
    0x14000000; 0x1a000000; 0x1b000000; 0x1c000000; 0x1c130000 ].

(** [map[i]]. *)
Definition at_index (map : list Z) (i : nat) : Z := nth i map 0.

(** [struct arm_boot_info], as far as the board fills it in. *)
Record arm_boot_info : Set := mkBoot {
  ram_size : Z;
  kernel_filename : option string;
  kernel_cmdline : option string;
  initrd_filename : option string;
  nb_cpus : Z;
  board_id : Z;
  loader_start : Z;
  smp_loader_start : Z;
  smp_bootreg_addr : Z;
  gic_cpu_if_addr : Z
}.

(** [VEDBoardInfo], without [bootinfo] and [init]; the numbers of
    voltage sensors and clocks are the lengths of the arrays. *)
Record VEDBoardInfo : Set := mkBoard {
  motherboard_map : list Z;
  db_loader_start : Z;
  db_gic_cpu_if_addr : Z;
  proc_id : Z;
  voltages : list Z;
  clocks : list Z
}.

Definition a15_voltages : list Z := [900000].

Definition a15_clocks : list Z :=
  [60000000; 0; 0; 0; 40000000; 23750000; 50000000; 60000000; 40000000].

Definition a15_daughterboard : VEDBoardInfo :=
  mkBoard motherboard_aseries_map 0x80000000 0x2c002000 0x14000237 a15_voltages a15_clocks.

(** [QEMUMachineInitArgs], as far as the board reads it. *)
Record QEMUMachineInitArgs : Set := mkArgs {
  args_ram_size : Z;
  cpu_model : option string;
  args_kernel_filename : option string;
  args_kernel_cmdline : option string;
  args_initrd_filename : option string
}.

Inductive fdt_value : Set :=
| PropString (s : string)
| PropCells (cells : list Z)
| PropSizedCells (cells : list (Z * Z)).

Inductive call : Set :=
| cpu_arm_init_call (model : string)
| fprintf_stderr (msg : string)
| exit (code : Z)
| memory_region_init_ram (name : string) (size : Z)
| vmstate_register_ram_global (name : string)
| memory_region_add_subregion (offset : Z) (name : string)
| qdev_create (name : string)
| qdev_prop_set_uint32 (dev prop : string) (value : Z)
| qdev_init_nofail (dev : string)
| sysbus_mmio_map (dev : string) (n addr : Z)
| sysbus_connect_irq (dev : string) (n : Z)
| sysbus_create_simple (name : string) (addr pic_index : Z)
| arm_load_kernel (info : arm_boot_info)
| qemu_fdt_getprop_cell (node prop : string)
| fdt_node_offset_by_compatible (compat : string)
| fdt_get_phandle (offset : Z)
| qemu_fdt_add_subnode (node : string)
| qemu_fdt_setprop (node prop : string) (v : fdt_value).

Inductive ending : Set := Returned | Exited.

(** The values [i] of [for (i = 0; i < n; i++)]. *)
Definition counting (n : Z) : list Z := map Z.of_nat (seq 0 (Z.to_nat n)).

(** [printf]'s [%PRIx64] and [%d]. *)
Definition PRIx64 (z : Z) : string :=
  match z with
  | Z0 => "0"%string
  | Zpos p => HexString.Raw.of_pos p ""
  | Zneg _ => ""%string
  end.

Definition percent_d (z : Z) : string := DecimalString.NilZero.string_of_int (Z.to_int z).

(** The bus devices created, in order: address and line of the
    interrupt controller. *)
Definition bus_devices (calls : list call) : list (string * Z * Z) :=
  flat_map (fun c => match c with
                     | sysbus_create_simple name addr idx => [(name, addr, idx)]
                     | _ => []
                     end) calls.

Definition virtio_transports (calls : list call) : list (Z * Z) :=
  flat_map (fun d => let '(name, addr, idx) := d in
                     if String.eqb name "virtio-mmio" then [(addr, idx)] else [])
    (bus_devices calls).

(** The nodes added to the device tree, in order, with the address and
    the size of [reg] and the middle cell of [interrupts]. *)
Fixpoint virtio_nodes (calls : list call) : list (string * Z * Z * Z) :=
  match calls with
  | qemu_fdt_add_subnode node
      :: qemu_fdt_setprop _ _ (PropString _)
      :: qemu_fdt_setprop node1 _ (PropSizedCells [(_, addr); (_, size)])
      :: qemu_fdt_setprop _ _ (PropCells [_])
      :: qemu_fdt_setprop node2 _ (PropCells [_; irq; _])
      :: rest =>
      if String.eqb node node1 && String.eqb node node2
      then (node, addr, size, irq) :: virtio_nodes rest
      else virtio_nodes rest
  | _ :: rest => virtio_nodes rest
  | [] => []
  end.

Definition is_fdt_change (c : call) : bool :=
  match c with
  | qemu_fdt_add_subnode _ | qemu_fdt_setprop _ _ _ => true
  | _ => false
  end.

Section Board.

(** The surroundings: the number of CPUs asked for, whether a CPU model
    is known, and what the device tree functions return. *)
Variable smp_cpus : Z.
Variable cpu_arm_init : string -> bool.
Variable getprop_cell : string -> string -> Z.
Variable node_offset_by_compatible : string -> Z.
Variable get_phandle : Z -> Z.
Variable fdt_result : call -> Z.

(** The result tells how the function ends; [exit] ends it. *)
Definition a15_daughterboard_init (ram_size : Z) (cpu_model : option string)
  : list call * ending :=
  let cpu_model := match cpu_model with
                   | Some model => model
                   | None => "cortex-a15"%string
                   end in
  if (0 <? smp_cpus) && negb (cpu_arm_init cpu_model) then
    ([cpu_arm_init_call cpu_model;
      fprintf_stderr "Unable to find CPU definition";
      exit 1], Exited)
  else
    let cpus := map (fun _ => cpu_arm_init_call cpu_model) (counting smp_cpus) in
    let rsz := to_uint64 ram_size in
    if rsz >? 30 * 1024 * 1024 * 1024 then
      (cpus ++ [fprintf_stderr "vexpress-a15: cannot model more than 30GB RAM"; exit 1],
       Exited)
    else
      (cpus ++
       [memory_region_init_ram "vexpress.highmem" ram_size;
        vmstate_register_ram_global "vexpress.highmem";
        memory_region_add_subregion 0x80000000 "vexpress.highmem";
        qdev_create "a15mpcore_priv";
        qdev_prop_set_uint32 "a15mpcore_priv" "num-cpu" (to_uint32 smp_cpus);
        qdev_init_nofail "a15mpcore_priv";
        sysbus_mmio_map "a15mpcore_priv" 0 0x2c000000] ++
       map (sysbus_connect_irq "a15mpcore_priv") (counting smp_cpus) ++
       [memory_region_init_ram "vexpress.a15sram" 0x10000;
        vmstate_register_ram_global "vexpress.a15sram";
        memory_region_add_subregion 0x2e000000 "vexpress.a15sram"],
       Returned).

Definition lionhead_common_init (daughterboard : VEDBoardInfo) (args : QEMUMachineInitArgs)
  : list call * ending :=
  let map_ := motherboard_map daughterboard in
  let '(calls, e) := a15_daughterboard_init (args_ram_size args) (cpu_model args) in
  match e with
  | Exited => (calls, Exited)
  | Returned =>
      let sys_id := 0x1190f500 in
      let sysctl := "realview_sysctl"%string in
      let bootinfo :=
        mkBoot (args_ram_size args) (args_kernel_filename args) (args_kernel_cmdline args)
          (args_initrd_filename args) (to_int smp_cpus) LIONHEAD_BOARD_ID
          (db_loader_start daughterboard) (at_index map_ VE_SRAM)
          (to_uint64 (at_index map_ VE_SYSREGS + 0x30))
          (db_gic_cpu_if_addr daughterboard) in
      (calls ++
       [qdev_create sysctl;
        qdev_prop_set_uint32 sysctl "sys_id" sys_id;
        qdev_prop_set_uint32 sysctl "proc_id" (proc_id daughterboard);
        qdev_prop_set_uint32 sysctl "len-db-voltage"
          (Z.of_nat (List.length (voltages daughterboard)))] ++
       map (fun i => qdev_prop_set_uint32 sysctl
                       ("db-voltage[" ++ percent_d i ++ "]")
                       (nth (Z.to_nat i) (voltages daughterboard) 0))
         (counting (Z.of_nat (List.length (voltages daughterboard)))) ++
       [qdev_prop_set_uint32 sysctl "len-db-clock"
          (Z.of_nat (List.length (clocks daughterboard)))] ++
       map (fun i => qdev_prop_set_uint32 sysctl
                       ("db-clock[" ++ percent_d i ++ "]")
                       (nth (Z.to_nat i) (clocks daughterboard) 0))
         (counting (Z.of_nat (List.length (clocks daughterboard)))) ++
       [qdev_init_nofail sysctl;
        sysbus_mmio_map sysctl 0 (at_index map_ VE_SYSREGS);
        sysbus_create_simple "goldfish_audio" (at_index map_ GOLDFISH_AUDIO) 11;
        sysbus_create_simple "goldfish_battery" (at_index map_ GOLDFISH_BATTERY) 9;
        sysbus_create_simple "pl050_keyboard" (at_index map_ VE_KMI0) 12;
        sysbus_create_simple "pl050_mouse" (at_index map_ VE_KMI1) 13;
        sysbus_create_simple "pl011" (at_index map_ VE_UART0) 5;
        sysbus_create_simple "pl011" (at_index map_ VE_UART1) 6;
        sysbus_create_simple "pl011" (at_index map_ VE_UART2) 7;
        sysbus_create_simple "pl011" (at_index map_ VE_UART3) 8;
        sysbus_create_simple "sp804" (at_index map_ VE_TIMER01) 2;
        sysbus_create_simple "sp804" (at_index map_ VE_TIMER23) 3;
        sysbus_create_simple "pl031" (at_index map_ VE_RTC) 4;
        sysbus_create_simple "goldfish_fb" (at_index map_ GOLDFISH_FB) 14;
        memory_region_init_ram "vexpress.sram" 0x2000000;
        vmstate_register_ram_global "vexpress.sram";
        memory_region_add_subregion (at_index map_ VE_SRAM) "vexpress.sram"] ++
       map (fun i => sysbus_create_simple "virtio-mmio"
                       (to_uint64 (at_index map_ VE_VIRTIO + 0x200 * i))
                       (to_int (40 + i)))
         (counting NUM_VIRTIO_TRANSPORTS) ++
       [arm_load_kernel bootinfo],
       Returned)
  end.

(** The result is the returned [int] and the calls. *)
Definition add_virtio_mmio_node (acells scells addr size intc irq : Z) : Z * list call :=
  let nodename := ("/virtio_mmio@" ++ PRIx64 addr)%string in
  let c1 := qemu_fdt_add_subnode nodename in
  let c2 := qemu_fdt_setprop nodename "compatible" (PropString "virtio,mmio") in
  let c3 := qemu_fdt_setprop nodename "reg" (PropSizedCells [(acells, addr); (scells, size)]) in
  let rc := to_int (Z.lor (to_int (Z.lor (fdt_result c1) (fdt_result c2))) (fdt_result c3)) in
  (if negb (rc =? 0) then -1 else 0,
   [c1; c2; c3;
    qemu_fdt_setprop nodename "interrupt-parent" (PropCells [intc]);
    qemu_fdt_setprop nodename "interrupts" (PropCells [0; irq; 1])]).

Definition find_int_controller : Z * list call :=
  let compat := "arm,cortex-a9-gic"%string in
  let offset := node_offset_by_compatible compat in
  if offset >=? 0
  then (to_uint32 (get_phandle offset),
        [fdt_node_offset_by_compatible compat; fdt_get_phandle offset])
  else (0, [fdt_node_offset_by_compatible compat]).

Definition vexpress_modify_dtb (daughterboard : VEDBoardInfo) : list call :=
  let acells := to_uint32 (getprop_cell "/" "#address-cells") in
  let scells := to_uint32 (getprop_cell "/" "#size-cells") in
  let '(intc, c) := find_int_controller in
  let start :=
    [qemu_fdt_getprop_cell "/" "#address-cells"; qemu_fdt_getprop_cell "/" "#size-cells"]
    ++ c in
  if intc =? 0 then
    start ++
    [fprintf_stderr
       "QEMU: warning: couldn't find interrupt controller in dtb; will not include virtio-mmio devices in the dtb."]
  else
    let map_ := motherboard_map daughterboard in
    start ++
    flat_map (fun i => snd (add_virtio_mmio_node acells scells
                              (to_uint64 (at_index map_ VE_VIRTIO + 0x200 * i))
                              0x200 intc (to_int (40 + i))))
      (rev (counting NUM_VIRTIO_TRANSPORTS)).

Lemma transports_app (a b : list call) :
  bus_devices (a ++ b) = bus_devices a ++ bus_devices b.
Proof. apply flat_map_app. Qed.

Lemma bus_devices_map_none {A : Type} (f : A -> call) (l : list A) :
  (forall a, bus_devices [f a] = []) -> bus_devices (map f l) = [].
Proof.
  intros H. induction l as [|a l IH]; [reflexivity|].
  cbn [map]. change (f a :: map f l) with ([f a] ++ map f l).
  rewrite transports_app, H, IH. reflexivity.
Qed.

(** X30. The device tree callback and the board agree on the virtio
    transports.  When [lionhead_common_init] returns it has created four
    of them, at [map[VE_VIRTIO] + 0x200 * i] on lines [40 + i] of the
    interrupt controller, and no two bus devices share an address or a
    line.  When [vexpress_modify_dtb] finds the interrupt controller it
    adds one node for each transport, highest address first, with that
    address, size 0x200 and that interrupt; when it does not, it leaves
    the device tree alone. *)
Theorem virtio_nodes_match_transports (args : QEMUMachineInitArgs) :
  let board := lionhead_common_init a15_daughterboard args in
  let dtb := vexpress_modify_dtb a15_daughterboard in
  (snd board = Returned ->
   virtio_transports (fst board)
   = map (fun i => (at_index motherboard_aseries_map VE_VIRTIO + 0x200 * i, 40 + i))
       (counting NUM_VIRTIO_TRANSPORTS) /\
   NoDup (map (fun d => snd (fst d)) (bus_devices (fst board))) /\
   NoDup (map snd (bus_devices (fst board)))) /\
  (fst find_int_controller <> 0 ->
   map (fun n => let '(_, addr, size, irq) := n in (addr, size, irq)) (virtio_nodes dtb)
   = rev (map (fun i => (at_index motherboard_aseries_map VE_VIRTIO + 0x200 * i, 0x200,
                         40 + i))
            (counting NUM_VIRTIO_TRANSPORTS))) /\
  (fst find_int_controller = 0 -> existsb is_fdt_change dtb = false).
Proof.
  cbv zeta. split; [|split].
  - unfold lionhead_common_init, a15_daughterboard_init.
    destruct ((0 <? smp_cpus) && negb (cpu_arm_init _)); [discriminate|].
    destruct (to_uint64 (args_ram_size args) >? 30 * 1024 * 1024 * 1024); [discriminate|].
    intros _. cbn [fst]. unfold virtio_transports.
    rewrite !transports_app.
    rewrite !(bus_devices_map_none (fun _ => cpu_arm_init_call _)) by reflexivity.
    rewrite !(bus_devices_map_none (sysbus_connect_irq _)) by reflexivity.
    assert (Hn : forall l : list Z, nodup Z.eq_dec l = l -> NoDup l).
    { intros l <-. apply NoDup_nodup. }
    split; [vm_compute; reflexivity|].
    split; apply Hn; vm_compute; reflexivity.
  - unfold vexpress_modify_dtb, find_int_controller.
    destruct (node_offset_by_compatible _ >=? 0); cbn [fst].
    + intros Hintc. destruct (Z.eqb_spec (to_uint32 (get_phandle
                                  (node_offset_by_compatible "arm,cortex-a9-gic"))) 0)
        as [E|_]; [contradiction|].
      vm_compute. reflexivity.
    + intros H. contradiction H. reflexivity.
  - unfold vexpress_modify_dtb, find_int_controller.
    destruct (node_offset_by_compatible _ >=? 0); cbn [fst].
    + intros ->. reflexivity.
    + intros _. reflexivity.
Qed.


End Board.

(** ** The model at work *)

Lemma virtio_nodes_match_transports_witness :
  let args := mkArgs (2 ^ 30) None (Some "kernel"%string) None None in
  let board := lionhead_common_init 1 (fun _ => true) a15_daughterboard args in
  let dtb := vexpress_modify_dtb (fun _ _ => 1) (fun _ => 64) (fun _ => 3) (fun _ => 0)
               a15_daughterboard in
  virtio_transports (fst board)
  = [(0x1c130000, 40); (0x1c130200, 41); (0x1c130400, 42); (0x1c130600, 43)] /\
  map (fun n => let '(_, addr, size, irq) := n in (addr, size, irq)) (virtio_nodes dtb)
  = [(0x1c130600, 0x200, 43); (0x1c130400, 0x200, 42); (0x1c130200, 0x200, 41);
     (0x1c130000, 0x200, 40)].
Proof.
  pose proof (virtio_nodes_match_transports 1 (fun _ => true) (fun _ _ => 1) (fun _ => 64)
                (fun _ => 3) (fun _ => 0)
                (mkArgs (2 ^ 30) None (Some "kernel"%string) None None)) as (H1 & H2 & _).
  split.
  - apply H1. reflexivity.
  - apply H2. vm_compute. discriminate.
Defined.

End Lionhead.

